(** * Pong: the game simulation of [main.c]

    A shallow embedding of the simulation core of the game (state machine,
    paddle and ball physics, collision resolution, scoring, the AI paddle
    controller and the particle pool), followed by the properties the
    specification states about it and by further properties of the code:
    invariants of the running program, the phases, the menu, the particle
    pool and the presentation code that keeps state.

    Conventions of the embedding.
    - A C [float] is an exact rational ([Q]): rounding, infinities and NaN
      are outside the model.  A division whose divisor is a run-time value
      is partial ([fdiv]): a zero divisor leaves the domain of the model and
      the computation has no result.
    - A C [int] is a [Z]; the increments ([++]) of the scores and of the
      particle count wrap at 32 bits.
    - The raylib input queries of one frame are the fields of [Input]; the
      random source is an oracle, a list of raw draws consumed in program
      order ([GetRandomValue]).  Audio and drawing calls leave the [Game]
      value untouched and are dropped, except for the writes [DrawGame]
      makes to the [Game] itself.
    - Code that draws from the random source or may divide lives in the
      monad [M] (state = the oracle, failure = no result). *)

From Stdlib Require Import String ZArith QArith Qabs Qminmax Qround.
From Stdlib Require Import Lia Lqa List Bool.
Import ListNotations.
Local Open Scope Q_scope.

(** ** Arithmetic of the embedding *)

Definition Qlt_bool (a b : Q) : bool := negb (Qle_bool b a).

Infix "<=?" := Qle_bool (at level 70, no associativity) : Q_scope.
Infix "<?" := Qlt_bool (at level 70, no associativity) : Q_scope.

Coercion inject_Z : Z >-> Q.

(** [fabsf], [fminf] of <math.h>. *)
Definition fabsf (v : Q) : Q := Qabs v.
Definition fminf (a b : Q) : Q := Qmin a b.

(** [roundf]: to the nearest integer, halfway cases away from zero. *)
Definition roundf (v : Q) : Q :=
  inject_Z (if 0 <=? v then Qfloor (v + 0.5) else Qceiling (v - 0.5)).

(** The C conversion [(int)v]: truncation toward zero. *)
Definition int_of_float (v : Q) : Z :=
  if 0 <=? v then Qfloor v else Qceiling v.

(** Division by a run-time divisor. *)
Definition fdiv (a b : Q) : option Q :=
  if Qeq_bool b 0 then None else Some (a / b).

(** 32-bit two's complement wrap-around and [i++] on an [int]. *)
Definition int_wrap (z : Z) : Z :=
  ((z + 2147483648) mod 4294967296 - 2147483648)%Z.

Definition int_incr (z : Z) : Z := int_wrap (z + 1).

(** ** Constants of the game (the #define lines) *)

Definition SCREEN_WIDTH : Z := 1280.
Definition SCREEN_HEIGHT : Z := 800.
Definition PADDLE_WIDTH : Z := 25.
Definition PADDLE_HEIGHT : Z := 200.
Definition BALL_RADIUS : Z := 20.
Definition BALL_INITIAL_SPEED : Q := 8.
Definition PADDLE_SPEED : Q := 12.
Definition MAX_BALL_SPEED : Q := 15.
Definition SPEED_INCREMENT : Q := 0.2.
Definition WALL_BOUNCE_BUFFER : Q := 2.
Definition MAX_PARTICLES : Z := 100.

(** ** Data model *)

Record Vector2 : Type := mkVector2 { vec_x : Q; vec_y : Q }.

Record Rectangle : Type := mkRectangle
  { rec_x : Q; rec_y : Q; rec_width : Q; rec_height : Q }.

Record Color : Type := mkColor
  { col_r : Z; col_g : Z; col_b : Z; col_a : Z }.

Definition WHITE : Color := mkColor 255 255 255 255.
Definition COLOR_PLAYER_ONE : Color := mkColor 0 180 255 255.
Definition COLOR_PLAYER_TWO : Color := mkColor 0 220 120 255.
Definition COLOR_AI : Color := mkColor 255 100 100 255.
Definition COLOR_BALL : Color := mkColor 255 255 255 255.

Inductive GameState : Type :=
| STATE_SPLASH
| STATE_MODE_SELECT
| STATE_PLAYING
| STATE_PAUSED
| STATE_GAME_OVER.

Inductive GameMode : Type :=
| MODE_AI
| MODE_MULTIPLAYER.

Record Ball : Type := mkBall
  { ball_position : Vector2;
    ball_velocity : Vector2;
    ball_radius : Q;
    ball_color : Color }.

Record Paddle : Type := mkPaddle
  { paddle_rect : Rectangle;
    paddle_speed : Q;
    paddle_color : Color }.

Record Particle : Type := mkParticle
  { p_position : Vector2;
    p_velocity : Vector2;
    p_lifeTime : Q;
    p_maxLifeTime : Q;
    p_color : Color;
    p_size : Q }.

(** The [Game] structure, without the font and the two sounds. *)
Record Game : Type := mkGame
  { state : GameState;
    mode : GameMode;
    ball : Ball;
    playerPaddle : Paddle;
    aiPaddle : Paddle;
    playerScore : Z;
    aiScore : Z;
    winScore : Z;
    fullscreen : bool;
    ballSpeedMultiplier : Q;
    scoreAnimScale : Q;
    lastScoreTime : Q;
    screenShake : Q;
    shakeOffset : Vector2;
    particles : list Particle;
    activeParticles : Z }.

(** Field assignments. *)

Definition set_state (g : Game) (v : GameState) : Game :=
  mkGame v (mode g) (ball g) (playerPaddle g) (aiPaddle g) (playerScore g)
    (aiScore g) (winScore g) (fullscreen g) (ballSpeedMultiplier g)
    (scoreAnimScale g) (lastScoreTime g) (screenShake g) (shakeOffset g)
    (particles g) (activeParticles g).

Definition set_mode (g : Game) (v : GameMode) : Game :=
  mkGame (state g) v (ball g) (playerPaddle g) (aiPaddle g) (playerScore g)
    (aiScore g) (winScore g) (fullscreen g) (ballSpeedMultiplier g)
    (scoreAnimScale g) (lastScoreTime g) (screenShake g) (shakeOffset g)
    (particles g) (activeParticles g).

Definition set_ball (g : Game) (v : Ball) : Game :=
  mkGame (state g) (mode g) v (playerPaddle g) (aiPaddle g) (playerScore g)
    (aiScore g) (winScore g) (fullscreen g) (ballSpeedMultiplier g)
    (scoreAnimScale g) (lastScoreTime g) (screenShake g) (shakeOffset g)
    (particles g) (activeParticles g).

Definition set_playerPaddle (g : Game) (v : Paddle) : Game :=
  mkGame (state g) (mode g) (ball g) v (aiPaddle g) (playerScore g)
    (aiScore g) (winScore g) (fullscreen g) (ballSpeedMultiplier g)
    (scoreAnimScale g) (lastScoreTime g) (screenShake g) (shakeOffset g)
    (particles g) (activeParticles g).

Definition set_aiPaddle (g : Game) (v : Paddle) : Game :=
  mkGame (state g) (mode g) (ball g) (playerPaddle g) v (playerScore g)
    (aiScore g) (winScore g) (fullscreen g) (ballSpeedMultiplier g)
    (scoreAnimScale g) (lastScoreTime g) (screenShake g) (shakeOffset g)
    (particles g) (activeParticles g).

Definition set_playerScore (g : Game) (v : Z) : Game :=
  mkGame (state g) (mode g) (ball g) (playerPaddle g) (aiPaddle g) v
    (aiScore g) (winScore g) (fullscreen g) (ballSpeedMultiplier g)
    (scoreAnimScale g) (lastScoreTime g) (screenShake g) (shakeOffset g)
    (particles g) (activeParticles g).

Definition set_aiScore (g : Game) (v : Z) : Game :=
  mkGame (state g) (mode g) (ball g) (playerPaddle g) (aiPaddle g)
    (playerScore g) v (winScore g) (fullscreen g) (ballSpeedMultiplier g)
    (scoreAnimScale g) (lastScoreTime g) (screenShake g) (shakeOffset g)
    (particles g) (activeParticles g).

Definition set_winScore (g : Game) (v : Z) : Game :=
  mkGame (state g) (mode g) (ball g) (playerPaddle g) (aiPaddle g)
    (playerScore g) (aiScore g) v (fullscreen g) (ballSpeedMultiplier g)
    (scoreAnimScale g) (lastScoreTime g) (screenShake g) (shakeOffset g)
    (particles g) (activeParticles g).

Definition set_fullscreen (g : Game) (v : bool) : Game :=
  mkGame (state g) (mode g) (ball g) (playerPaddle g) (aiPaddle g)
    (playerScore g) (aiScore g) (winScore g) v (ballSpeedMultiplier g)
    (scoreAnimScale g) (lastScoreTime g) (screenShake g) (shakeOffset g)
    (particles g) (activeParticles g).

Definition set_ballSpeedMultiplier (g : Game) (v : Q) : Game :=
  mkGame (state g) (mode g) (ball g) (playerPaddle g) (aiPaddle g)
    (playerScore g) (aiScore g) (winScore g) (fullscreen g) v
    (scoreAnimScale g) (lastScoreTime g) (screenShake g) (shakeOffset g)
    (particles g) (activeParticles g).

Definition set_scoreAnimScale (g : Game) (v : Q) : Game :=
  mkGame (state g) (mode g) (ball g) (playerPaddle g) (aiPaddle g)
    (playerScore g) (aiScore g) (winScore g) (fullscreen g)
    (ballSpeedMultiplier g) v (lastScoreTime g) (screenShake g)
    (shakeOffset g) (particles g) (activeParticles g).

Definition set_lastScoreTime (g : Game) (v : Q) : Game :=
  mkGame (state g) (mode g) (ball g) (playerPaddle g) (aiPaddle g)
    (playerScore g) (aiScore g) (winScore g) (fullscreen g)
    (ballSpeedMultiplier g) (scoreAnimScale g) v (screenShake g)
    (shakeOffset g) (particles g) (activeParticles g).

Definition set_screenShake (g : Game) (v : Q) : Game :=
  mkGame (state g) (mode g) (ball g) (playerPaddle g) (aiPaddle g)
    (playerScore g) (aiScore g) (winScore g) (fullscreen g)
    (ballSpeedMultiplier g) (scoreAnimScale g) (lastScoreTime g) v
    (shakeOffset g) (particles g) (activeParticles g).

Definition set_shakeOffset (g : Game) (v : Vector2) : Game :=
  mkGame (state g) (mode g) (ball g) (playerPaddle g) (aiPaddle g)
    (playerScore g) (aiScore g) (winScore g) (fullscreen g)
    (ballSpeedMultiplier g) (scoreAnimScale g) (lastScoreTime g)
    (screenShake g) v (particles g) (activeParticles g).

Definition set_particles (g : Game) (v : list Particle) : Game :=
  mkGame (state g) (mode g) (ball g) (playerPaddle g) (aiPaddle g)
    (playerScore g) (aiScore g) (winScore g) (fullscreen g)
    (ballSpeedMultiplier g) (scoreAnimScale g) (lastScoreTime g)
    (screenShake g) (shakeOffset g) v (activeParticles g).

Definition set_activeParticles (g : Game) (v : Z) : Game :=
  mkGame (state g) (mode g) (ball g) (playerPaddle g) (aiPaddle g)
    (playerScore g) (aiScore g) (winScore g) (fullscreen g)
    (ballSpeedMultiplier g) (scoreAnimScale g) (lastScoreTime g)
    (screenShake g) (shakeOffset g) (particles g) v.

Definition set_ball_position (b : Ball) (v : Vector2) : Ball :=
  mkBall v (ball_velocity b) (ball_radius b) (ball_color b).

Definition set_ball_velocity (b : Ball) (v : Vector2) : Ball :=
  mkBall (ball_position b) v (ball_radius b) (ball_color b).

Definition set_ball_radius (b : Ball) (v : Q) : Ball :=
  mkBall (ball_position b) (ball_velocity b) v (ball_color b).

Definition set_ball_color (b : Ball) (v : Color) : Ball :=
  mkBall (ball_position b) (ball_velocity b) (ball_radius b) v.

Definition set_paddle_rect (p : Paddle) (v : Rectangle) : Paddle :=
  mkPaddle v (paddle_speed p) (paddle_color p).

Definition set_paddle_speed (p : Paddle) (v : Q) : Paddle :=
  mkPaddle (paddle_rect p) v (paddle_color p).

Definition set_paddle_color (p : Paddle) (v : Color) : Paddle :=
  mkPaddle (paddle_rect p) (paddle_speed p) v.

Definition set_rec_y (r : Rectangle) (v : Q) : Rectangle :=
  mkRectangle (rec_x r) v (rec_width r) (rec_height r).

(** [paddle->rect.y = v]. *)
Definition set_paddle_y (p : Paddle) (v : Q) : Paddle :=
  set_paddle_rect p (set_rec_y (paddle_rect p) v).

(** The particle array: reads and writes by index.  Every index the
    program uses is below [MAX_PARTICLES] when [activeParticles] is in
    range; outside the array a read yields the zero particle and a write is
    dropped. *)

Definition zero_particle : Particle :=
  mkParticle (mkVector2 0 0) (mkVector2 0 0) 0 0 (mkColor 0 0 0 0) 0.

Fixpoint list_set {A : Type} (l : list A) (n : nat) (v : A) : list A :=
  match l, n with
  | [], _ => []
  | _ :: t, O => v :: t
  | h :: t, S n' => h :: list_set t n' v
  end.

Definition array_get (a : list Particle) (i : Z) : Particle :=
  if (i <? 0)%Z then zero_particle else nth (Z.to_nat i) a zero_particle.

Definition array_set (a : list Particle) (i : Z) (v : Particle)
  : list Particle :=
  if (i <? 0)%Z then a else list_set a (Z.to_nat i) v.

(** ** The environment of a frame *)

Inductive KeyboardKey : Type :=
| KEY_P | KEY_W | KEY_S | KEY_UP | KEY_DOWN | KEY_R | KEY_M
| KEY_ONE | KEY_KP_1 | KEY_TWO | KEY_KP_2 | KEY_F | KEY_SPACE.

(** What the raylib queries answer during one frame (the mouse button is
    always MOUSE_LEFT_BUTTON in this program). *)
Record Input : Type := mkInput
  { IsKeyPressed : KeyboardKey -> bool;
    IsKeyDown : KeyboardKey -> bool;
    IsMouseButtonPressed : bool;
    IsMouseButtonDown : bool;
    GetMousePosition : Vector2;
    GetFrameTime : Q;
    GetTime : Q }.

(** The random oracle and the monad of effectful code. *)
Definition Rng : Type := list Z.

Definition M (A : Type) : Type := Rng -> option (A * Rng).

Definition ret {A : Type} (a : A) : M A := fun w => Some (a, w).

Definition bind {A B : Type} (m : M A) (f : A -> M B) : M B :=
  fun w => match m w with
           | Some (a, w') => f a w'
           | None => None
           end.

Definition lift {A : Type} (o : option A) : M A :=
  fun w => match o with
           | Some a => Some (a, w)
           | None => None
           end.

Notation "x <- m ;; k" := (bind m (fun x => k))
  (at level 61, m at next level, right associativity).

(** Modelled from the spec: raylib's [GetRandomValue(min, max)] is not in
    [src/]; it is the spec's random source, "uniform integer sampling".
    The result is a value of the closed range: the next raw draw folded
    into it, as raylib folds [rand()] (the lower bound when the oracle is
    exhausted). *)
Definition GetRandomValue (min max : Z) : M Z :=
  fun w =>
    let lo := Z.min min max in
    let span := (Z.abs (max - min) + 1)%Z in
    match w with
    | [] => Some (lo, [])
    | r :: w' => Some ((lo + r mod span)%Z, w')
    end.

(** ** raylib and raymath helpers the simulation calls *)

(** Modelled from the spec: raymath's [Clamp] is not in [src/]; it is the
    spec's "clamp to screen bounds".  The definition is raymath's: the
    lower bound is applied first, then the upper one. *)
Definition Clamp (value min max : Q) : Q :=
  let result := if value <? min then min else value in
  if max <? result then max else result.

(** Modelled from the spec: raylib's [CheckCollisionPointRec] is not in
    [src/]; it is the spec's "point-in-hitbox" test.  The definition is
    raylib 5's: the left and top edges belong to the rectangle, the right
    and bottom edges do not. *)
Definition CheckCollisionPointRec (point : Vector2) (r : Rectangle) : bool :=
  (rec_x r <=? vec_x point) && (vec_x point <? rec_x r + rec_width r) &&
  (rec_y r <=? vec_y point) && (vec_y point <? rec_y r + rec_height r).

(** Modelled from the spec: raylib's [CheckCollisionCircleRec] is not in
    [src/]; it is the spec's "circle-rectangle intersection test".  The
    definition is raylib 5's. *)
Definition CheckCollisionCircleRec (center : Vector2) (radius : Q)
  (r : Rectangle) : bool :=
  let recCenterX := rec_x r + rec_width r / 2 in
  let recCenterY := rec_y r + rec_height r / 2 in
  let dx := fabsf (vec_x center - recCenterX) in
  let dy := fabsf (vec_y center - recCenterY) in
  if rec_width r / 2 + radius <? dx then false
  else if rec_height r / 2 + radius <? dy then false
  else if dx <=? rec_width r / 2 then true
  else if dy <=? rec_height r / 2 then true
  else
    let cornerDistanceSq :=
      (dx - rec_width r / 2) * (dx - rec_width r / 2) +
      (dy - rec_height r / 2) * (dy - rec_height r / 2) in
    cornerDistanceSq <=? radius * radius.

(** Modelled from the spec: raylib's [ColorAlpha] is not in [src/]; it
    gives the colour of a "particle burst" its opacity.  The definition is
    raylib's: the alpha is clamped to [0, 1] and scaled to a byte. *)
Definition ColorAlpha (color : Color) (alpha : Q) : Color :=
  let alpha := if alpha <? 0 then 0 else if 1 <? alpha then 1 else alpha in
  mkColor (col_r color) (col_g color) (col_b color)
    (int_of_float (255 * alpha)).

(** ** Particle subsystem *)

(** The loop of [CreateParticleEffect]: [n] is the number of iterations
    [count] still allows; the loop also stops when the pool is full.  The
    two velocity draws are taken in the order they are written. *)
Fixpoint CreateParticleEffect_loop (n : nat) (game : Game)
  (position : Vector2) (color : Color) : M Game :=
  match n with
  | O => ret game
  | S n' =>
    if (activeParticles game <? MAX_PARTICLES)%Z then
      let particleIndex := activeParticles game in
      rvx <- GetRandomValue (-200) 200 ;;
      rvy <- GetRandomValue (-200) 200 ;;
      rlife <- GetRandomValue 30 90 ;;
      rsize <- GetRandomValue 2 6 ;;
      let p := mkParticle position
                 (mkVector2 (inject_Z rvx / 100) (inject_Z rvy / 100))
                 0 (inject_Z rlife / 100) color (inject_Z rsize) in
      let game := set_particles game
                    (array_set (particles game) particleIndex p) in
      let game := set_activeParticles game
                    (int_incr (activeParticles game)) in
      CreateParticleEffect_loop n' game position color
    else ret game
  end.

Definition CreateParticleEffect (game : Game) (position : Vector2)
  (color : Color) (count : Z) : M Game :=
  CreateParticleEffect_loop (Z.to_nat count) game position color.

(** The loop of [UpdateAndDrawParticles] over the indices [i], [i+1], ...
    ([n] of them): the array and the cursor [particlesToKeep] are the loop
    state.  The fade colour and the drawing call are not state. *)
Fixpoint UpdateAndDrawParticles_loop (n : nat) (i : Z) (deltaTime : Q)
  (parts : list Particle) (particlesToKeep : Z) : list Particle * Z :=
  match n with
  | O => (parts, particlesToKeep)
  | S n' =>
    let p := array_get parts i in
    let p := mkParticle (p_position p) (p_velocity p)
               (p_lifeTime p + deltaTime) (p_maxLifeTime p) (p_color p)
               (p_size p) in
    let parts := array_set parts i p in
    if p_maxLifeTime p <=? p_lifeTime p then
      UpdateAndDrawParticles_loop n' (i + 1)%Z deltaTime parts
        particlesToKeep
    else
      let p := mkParticle
                 (mkVector2 (vec_x (p_position p) + vec_x (p_velocity p))
                            (vec_y (p_position p) + vec_y (p_velocity p)))
                 (p_velocity p) (p_lifeTime p) (p_maxLifeTime p) (p_color p)
                 (p_size p) in
      let parts := array_set parts i p in
      let parts := if (i =? particlesToKeep)%Z then parts
                   else array_set parts particlesToKeep p in
      UpdateAndDrawParticles_loop n' (i + 1)%Z deltaTime parts
        (particlesToKeep + 1)%Z
  end.

Definition UpdateAndDrawParticles (inp : Input) (game : Game) : Game :=
  let deltaTime := GetFrameTime inp in
  let '(parts, particlesToKeep) :=
    UpdateAndDrawParticles_loop (Z.to_nat (activeParticles game)) 0
      deltaTime (particles game) 0 in
  set_activeParticles (set_particles game parts) particlesToKeep.

(** ** Match lifecycle *)

Definition ResetBall (inp : Input) (game : Game) (serverIsPlayer : bool)
  : M Game :=
  let game := set_ball game
                (set_ball_position (ball game)
                   (mkVector2 (inject_Z (SCREEN_WIDTH ÷ 2))
                              (inject_Z (SCREEN_HEIGHT ÷ 2)))) in
  let initialSpeed := BALL_INITIAL_SPEED * ballSpeedMultiplier game in
  r <- GetRandomValue (-100) 100 ;;
  let game := set_ball game
                (set_ball_velocity (ball game)
                   (mkVector2
                      (if serverIsPlayer then initialSpeed
                       else - initialSpeed)
                      (inject_Z r / 100 * initialSpeed))) in
  let game := set_lastScoreTime game (GetTime inp) in
  let game := set_scoreAnimScale game 1.5 in
  let particleColor := if serverIsPlayer then paddle_color (aiPaddle game)
                       else paddle_color (playerPaddle game) in
  CreateParticleEffect game (ball_position (ball game)) particleColor 30.

Definition InitGame (inp : Input) (game : Game) (mode : GameMode) : M Game :=
  let game := set_mode game mode in
  let game := set_state game STATE_PLAYING in
  let game := set_playerScore game 0 in
  let game := set_aiScore game 0 in
  let game := set_winScore game 10 in
  let game := set_ball game (set_ball_radius (ball game) BALL_RADIUS) in
  let game := set_ball game (set_ball_color (ball game) COLOR_BALL) in
  let game := set_playerPaddle game
                (set_paddle_rect (playerPaddle game)
                   (mkRectangle 10
                      (inject_Z ((SCREEN_HEIGHT - PADDLE_HEIGHT) ÷ 2))
                      PADDLE_WIDTH PADDLE_HEIGHT)) in
  let game := set_playerPaddle game
                (set_paddle_speed (playerPaddle game) PADDLE_SPEED) in
  let game := set_playerPaddle game
                (set_paddle_color (playerPaddle game) COLOR_PLAYER_ONE) in
  let game := set_aiPaddle game
                (set_paddle_rect (aiPaddle game)
                   (mkRectangle (inject_Z (SCREEN_WIDTH - 10 - PADDLE_WIDTH))
                      (inject_Z ((SCREEN_HEIGHT - PADDLE_HEIGHT) ÷ 2))
                      PADDLE_WIDTH PADDLE_HEIGHT)) in
  let game := set_aiPaddle game
                (set_paddle_speed (aiPaddle game) PADDLE_SPEED) in
  let game := set_aiPaddle game
                (set_paddle_color (aiPaddle game)
                   (match mode with
                    | MODE_AI => COLOR_AI
                    | MODE_MULTIPLAYER => COLOR_PLAYER_TWO
                    end)) in
  game <- ResetBall inp game true ;;
  let game := set_activeParticles game 0 in
  let game := set_scoreAnimScale game 1 in
  let game := set_lastScoreTime game 0 in
  let game := set_screenShake game 0 in
  let game := set_shakeOffset game (mkVector2 0 0) in
  ret game.

(** ** Collision test *)

(** [CheckPaddleCollision].  [rayLength] is a square root, positive exactly
    when its argument [rayLengthSq] is; the normalised [ballDir] is never
    read afterwards and is not computed.  The [game] argument is unused by
    the source as well. *)
Definition CheckPaddleCollision (ball : Ball) (paddle : Paddle) (game : Game)
  : bool :=
  let paddleRect := paddle_rect paddle in
  let paddleRect := mkRectangle (rec_x paddleRect - ball_radius ball)
                      (rec_y paddleRect)
                      (rec_width paddleRect + ball_radius ball * 2)
                      (rec_height paddleRect) in
  let movingTowardPaddle :=
    ((rec_x paddleRect <? inject_Z (SCREEN_WIDTH ÷ 2)) &&
     (vec_x (ball_velocity ball) <? 0)) ||
    ((inject_Z (SCREEN_WIDTH ÷ 2) <? rec_x paddleRect) &&
     (0 <? vec_x (ball_velocity ball))) in
  if negb movingTowardPaddle then false
  else
    let ballPrev :=
      mkVector2 (vec_x (ball_position ball) - vec_x (ball_velocity ball))
                (vec_y (ball_position ball) - vec_y (ball_velocity ball)) in
    let ballDir :=
      mkVector2 (vec_x (ball_position ball) - vec_x ballPrev)
                (vec_y (ball_position ball) - vec_y ballPrev) in
    let rayLengthSq :=
      vec_x ballDir * vec_x ballDir + vec_y ballDir * vec_y ballDir in
    let hitBox := mkRectangle (rec_x paddleRect - ball_radius ball)
                    (rec_y paddleRect - ball_radius ball)
                    (rec_width paddleRect + ball_radius ball * 2)
                    (rec_height paddleRect + ball_radius ball * 2) in
    if (0 <? rayLengthSq) &&
       (CheckCollisionPointRec (ball_position ball) hitBox ||
        CheckCollisionCircleRec (ball_position ball) (ball_radius ball)
          paddleRect)
    then true
    else CheckCollisionCircleRec (ball_position ball) (ball_radius ball)
           paddleRect.

(** ** AI controller *)

(** The ternary that computes [bounceDistance] from [predictedY] (written
    twice in [UpdateAI]). *)
Definition bounceDistance_of (predictedY : Q) : Q :=
  if predictedY <? 0 then - predictedY
  else if inject_Z SCREEN_HEIGHT <? predictedY
       then 2 * inject_Z SCREEN_HEIGHT - predictedY
       else 0.

(** The [while (bounceDistance > 0)] loop; [None] when [fuel] runs out. *)
Fixpoint bounce_loop (fuel : nat) (predictedY bounceDistance : Q)
  : option Q :=
  match fuel with
  | O => None
  | S fuel' =>
    if 0 <? bounceDistance then
      if predictedY <? 0 then
        let predictedY := - predictedY in
        bounce_loop fuel' predictedY (bounceDistance_of predictedY)
      else if inject_Z SCREEN_HEIGHT <? predictedY then
        let predictedY := 2 * inject_Z SCREEN_HEIGHT - predictedY in
        bounce_loop fuel' predictedY (bounceDistance_of predictedY)
      else Some predictedY
    else Some predictedY
  end.

(** The prediction block of [UpdateAI]: the value of [predictedY] when the
    target is computed. *)
Definition UpdateAI_predictedY (fuel : nat) (aiPaddle : Paddle) (ball : Ball)
  : option Q :=
  let predictedY := vec_y (ball_position ball) in
  if 0 <? vec_x (ball_velocity ball) then
    let distanceToIntercept :=
      rec_x (paddle_rect aiPaddle) - vec_x (ball_position ball) in
    match fdiv distanceToIntercept (vec_x (ball_velocity ball)) with
    | None => None
    | Some timeToIntercept =>
      if 0 <? timeToIntercept then
        let predictedY :=
          vec_y (ball_position ball) +
          vec_y (ball_velocity ball) * timeToIntercept in
        bounce_loop fuel predictedY (bounceDistance_of predictedY)
      else Some predictedY
    end
  else Some predictedY.

(** [UpdateAI(&game->aiPaddle, &game->ball, game)]: only the speed
    multiplier is read from [game], so the aliasing of the first two
    arguments with [game] is harmless; the result is the updated paddle. *)
Definition UpdateAI (fuel : nat) (aiPaddle : Paddle) (ball : Ball)
  (game : Game) : M Paddle :=
  let difficulty := 0.7 * (1 + (ballSpeedMultiplier game - 1) * 0.5) in
  let difficulty := Clamp difficulty 0.5 0.95 in
  predictedY <- lift (UpdateAI_predictedY fuel aiPaddle ball) ;;
  let targetY := predictedY - rec_height (paddle_rect aiPaddle) / 2 in
  r <- GetRandomValue 0 100 ;;
  targetY <- (if (r <? int_of_float (30 * (1 - difficulty)))%Z then
                e <- GetRandomValue (-30) 30 ;;
                ret (targetY + inject_Z e * (1 - difficulty))
              else ret targetY) ;;
  let targetY := Clamp targetY 0
                   (inject_Z SCREEN_HEIGHT - rec_height (paddle_rect aiPaddle))
  in
  let distanceToTarget := targetY - rec_y (paddle_rect aiPaddle) in
  let aiPaddle :=
    if 1 <? fabsf distanceToTarget then
      let moveStep := distanceToTarget * 0.1 * difficulty in
      let maxStep := paddle_speed aiPaddle * difficulty in
      let moveStep :=
        if maxStep <? fabsf moveStep
        then maxStep * (if 0 <? distanceToTarget then 1 else -1)
        else moveStep in
      set_paddle_y aiPaddle (rec_y (paddle_rect aiPaddle) + moveStep)
    else aiPaddle in
  ret (set_paddle_y aiPaddle
         (Clamp (rec_y (paddle_rect aiPaddle)) 0
            (inject_Z SCREEN_HEIGHT - rec_height (paddle_rect aiPaddle)))).

(** ** The tick: [UpdateGame]

    The STATE_PLAYING case is a straight sequence of blocks; each block is
    a definition of its own, in source order. *)

(** Player 1 paddle: movement from the held keys, then the clamp. *)
Definition UpdateGame_playerPaddle (inp : Input) (game : Game) : Game :=
  let playerMovement := 0 in
  let playerMovement :=
    if IsKeyDown inp KEY_W
    then playerMovement - paddle_speed (playerPaddle game)
    else playerMovement in
  let playerMovement :=
    if IsKeyDown inp KEY_S
    then playerMovement + paddle_speed (playerPaddle game)
    else playerMovement in
  let game := set_playerPaddle game
                (set_paddle_y (playerPaddle game)
                   (rec_y (paddle_rect (playerPaddle game)) + playerMovement))
  in
  set_playerPaddle game
    (set_paddle_y (playerPaddle game)
       (Clamp (rec_y (paddle_rect (playerPaddle game))) 0
          (inject_Z SCREEN_HEIGHT -
           rec_height (paddle_rect (playerPaddle game))))).

(** Second paddle: the AI controller, or player 2's keys and the clamp. *)
Definition UpdateGame_secondPaddle (fuel : nat) (inp : Input) (game : Game)
  : M Game :=
  match mode game with
  | MODE_AI =>
    p <- UpdateAI fuel (aiPaddle game) (ball game) game ;;
    ret (set_aiPaddle game p)
  | MODE_MULTIPLAYER =>
    let player2Movement := 0 in
    let player2Movement :=
      if IsKeyDown inp KEY_UP
      then player2Movement - paddle_speed (aiPaddle game)
      else player2Movement in
    let player2Movement :=
      if IsKeyDown inp KEY_DOWN
      then player2Movement + paddle_speed (aiPaddle game)
      else player2Movement in
    let game := set_aiPaddle game
                  (set_paddle_y (aiPaddle game)
                     (rec_y (paddle_rect (aiPaddle game)) + player2Movement))
    in
    ret (set_aiPaddle game
           (set_paddle_y (aiPaddle game)
              (Clamp (rec_y (paddle_rect (aiPaddle game))) 0
                 (inject_Z SCREEN_HEIGHT -
                  rec_height (paddle_rect (aiPaddle game))))))
  end.

(** Ball integration: one explicit Euler step. *)
Definition UpdateGame_moveBall (game : Game) : Game :=
  let b := ball game in
  set_ball game
    (set_ball_position b
       (mkVector2 (vec_x (ball_position b) + vec_x (ball_velocity b))
                  (vec_y (ball_position b) + vec_y (ball_velocity b)))).

Definition set_ball_y (b : Ball) (v : Q) : Ball :=
  set_ball_position b (mkVector2 (vec_x (ball_position b)) v).

(** Ball against the top and bottom walls. *)
Definition UpdateGame_walls (game : Game) : Game :=
  let b := ball game in
  if (vec_y (ball_position b) - ball_radius b <=? 0) ||
     (inject_Z SCREEN_HEIGHT <=? vec_y (ball_position b) + ball_radius b)
  then
    let b := set_ball_velocity b
               (mkVector2 (vec_x (ball_velocity b))
                          (vec_y (ball_velocity b) * -1)) in
    let b := if vec_y (ball_position b) <? ball_radius b
             then set_ball_y b (ball_radius b + WALL_BOUNCE_BUFFER)
             else b in
    let b := if inject_Z SCREEN_HEIGHT - ball_radius b <?
                vec_y (ball_position b)
             then set_ball_y b
                    (inject_Z SCREEN_HEIGHT - ball_radius b -
                     WALL_BOUNCE_BUFFER)
             else b in
    set_ball game b
  else game.

(** [hitPosition] of the ball on a paddle. *)
Definition hitPosition_of (b : Ball) (paddle : Paddle) : option Q :=
  fdiv (vec_y (ball_position b) -
        (rec_y (paddle_rect paddle) + rec_height (paddle_rect paddle) / 2))
       (rec_height (paddle_rect paddle) / 2).

(** What a resolved hit does.  The source writes this block twice, once
    per paddle; the two copies differ in the paddle they read and in the
    sign of the new horizontal velocity: [speed] for the player's paddle
    ([leftPaddle = true]), [-speed] for the second paddle. *)
Definition resolve_hit (game : Game) (paddle : Paddle) (leftPaddle : bool)
  : M Game :=
  hitPosition <- lift (hitPosition_of (ball game) paddle) ;;
  let adjustedMaxSpeed := MAX_BALL_SPEED * ballSpeedMultiplier game in
  let speed :=
    fminf (fabsf (vec_x (ball_velocity (ball game))) + SPEED_INCREMENT)
          adjustedMaxSpeed in
  let game := set_ball game
                (set_ball_velocity (ball game)
                   (mkVector2 (if leftPaddle then speed else - speed)
                              (hitPosition * (speed * 0.75)))) in
  let game := set_screenShake game 5 in
  CreateParticleEffect game (ball_position (ball game))
    (ColorAlpha WHITE 0.8) 15.

(** Collision with the player paddle. *)
Definition UpdateGame_playerHit (game : Game) : M Game :=
  if CheckPaddleCollision (ball game) (playerPaddle game) game
  then resolve_hit game (playerPaddle game) true
  else ret game.

(** Collision with the second paddle. *)
Definition UpdateGame_aiHit (game : Game) : M Game :=
  if CheckPaddleCollision (ball game) (aiPaddle game) game
  then resolve_hit game (aiPaddle game) false
  else ret game.

(** Ball out of bounds: scoring and re-serve. *)
Definition UpdateGame_scoring (inp : Input) (game : Game) : M Game :=
  if vec_x (ball_position (ball game)) <? inject_Z (- BALL_RADIUS) then
    let game := set_aiScore game (int_incr (aiScore game)) in
    ResetBall inp game false
  else if inject_Z (SCREEN_WIDTH + BALL_RADIUS) <?
          vec_x (ball_position (ball game)) then
    let game := set_playerScore game (int_incr (playerScore game)) in
    ResetBall inp game true
  else ret game.

(** Win condition. *)
Definition UpdateGame_gameOver (game : Game) : Game :=
  if (winScore game <=? playerScore game)%Z ||
     (winScore game <=? aiScore game)%Z
  then set_state game STATE_GAME_OVER
  else game.

Definition UpdateGame (fuel : nat) (inp : Input) (game : Game) : M Game :=
  match state game with
  | STATE_PLAYING =>
    if IsKeyPressed inp KEY_P then ret (set_state game STATE_PAUSED)
    else
      let game := UpdateGame_playerPaddle inp game in
      game <- UpdateGame_secondPaddle fuel inp game ;;
      let game := UpdateGame_moveBall game in
      let game := UpdateGame_walls game in
      game <- UpdateGame_playerHit game ;;
      game <- UpdateGame_aiHit game ;;
      game <- UpdateGame_scoring inp game ;;
      ret (UpdateGame_gameOver game)
  | STATE_PAUSED =>
    if IsKeyPressed inp KEY_P then ret (set_state game STATE_PLAYING)
    else ret game
  | STATE_GAME_OVER =>
    if IsKeyPressed inp KEY_R then InitGame inp game (mode game)
    else if IsKeyPressed inp KEY_M then ret (set_state game STATE_MODE_SELECT)
    else ret game
  | _ => ret game
  end.

(** ** Menus, drawing effects and the main loop *)

Definition UpdateSplashScreen (inp : Input) (game : Game) : Game :=
  if IsMouseButtonPressed inp || IsKeyPressed inp KEY_SPACE
  then set_state game STATE_MODE_SELECT
  else game.

(** [UpdateModeSelect]; its static local [dragging] is passed in and
    returned. *)
Definition UpdateModeSelect (inp : Input) (game : Game) (dragging : bool)
  : M (Game * bool) :=
  game <- (if IsKeyPressed inp KEY_ONE || IsKeyPressed inp KEY_KP_1
           then InitGame inp game MODE_AI
           else if IsKeyPressed inp KEY_TWO || IsKeyPressed inp KEY_KP_2
           then InitGame inp game MODE_MULTIPLAYER
           else ret game) ;;
  let sliderBg := mkRectangle (inject_Z (SCREEN_WIDTH ÷ 2 - 150))
                    (inject_Z (SCREEN_HEIGHT * 3 ÷ 4)) 300 20 in
  let sliderHitArea := mkRectangle (rec_x sliderBg) (rec_y sliderBg - 10)
                         (rec_width sliderBg) (rec_height sliderBg + 20) in
  let mousePos := GetMousePosition inp in
  let '(game, dragging) :=
    if IsMouseButtonDown inp then
      if dragging || CheckCollisionPointRec mousePos sliderHitArea then
        let relativeX := Clamp (vec_x mousePos - rec_x sliderBg) 0
                           (rec_width sliderBg) in
        let game := set_ballSpeedMultiplier game
                      (0.5 + relativeX / rec_width sliderBg * 1.5) in
        let game := set_ballSpeedMultiplier game
                      (roundf (ballSpeedMultiplier game * 10) / 10) in
        (game, true)
      else (game, dragging)
    else (game, false) in
  let mode1Bounds := mkRectangle (inject_Z (SCREEN_WIDTH ÷ 2 - 200))
                       (inject_Z (SCREEN_HEIGHT ÷ 2 - 30)) 400 60 in
  let mode2Bounds := mkRectangle (inject_Z (SCREEN_WIDTH ÷ 2 - 200))
                       (inject_Z (SCREEN_HEIGHT ÷ 2 + 30)) 400 60 in
  game <- (if IsMouseButtonPressed inp then
             if CheckCollisionPointRec mousePos mode1Bounds
             then InitGame inp game MODE_AI
             else if CheckCollisionPointRec mousePos mode2Bounds
             then InitGame inp game MODE_MULTIPLAYER
             else ret game
           else ret game) ;;
  ret (game, dragging).

Definition ToggleGameFullscreen (game : Game) : Game :=
  if negb (fullscreen game) then set_fullscreen game true
  else set_fullscreen game false.

(** The writes of [DrawGame] to the game: screen shake and particles. *)
Definition DrawGame (inp : Input) (game : Game) : M Game :=
  let game := set_screenShake game (screenShake game * 0.9) in
  game <- (if 0.1 <? screenShake game then
             rx <- GetRandomValue (-10) 10 ;;
             let game := set_shakeOffset game
                           (mkVector2 (inject_Z rx * (screenShake game / 10))
                                      (vec_y (shakeOffset game))) in
             ry <- GetRandomValue (-10) 10 ;;
             ret (set_shakeOffset game
                    (mkVector2 (vec_x (shakeOffset game))
                               (inject_Z ry * (screenShake game / 10))))
           else
             let game := set_shakeOffset game (mkVector2 0 0) in
             ret (set_screenShake game 0)) ;;
  ret (UpdateAndDrawParticles inp game).

(** The program state across frames: the game and the static [dragging]. *)
Definition App : Type := (Game * bool)%type.

(** [Game game = {0}] and the four assignments of [main] before the loop. *)
Definition initial_game : Game :=
  mkGame STATE_SPLASH MODE_AI
    (mkBall (mkVector2 0 0) (mkVector2 0 0) 0 (mkColor 0 0 0 0))
    (mkPaddle (mkRectangle 0 0 0 0) 0 (mkColor 0 0 0 0))
    (mkPaddle (mkRectangle 0 0 0 0) 0 (mkColor 0 0 0 0))
    0 0 0 false 1 0 0 0 (mkVector2 0 0)
    (repeat zero_particle (Z.to_nat MAX_PARTICLES)) 0.

Definition initial_app : App := (initial_game, false).

(** One iteration of the main loop. *)
Definition main_loop (fuel : nat) (inp : Input) (app : App) : M App :=
  let '(game, dragging) := app in
  let game := if IsKeyPressed inp KEY_F then ToggleGameFullscreen game
              else game in
  match state game with
  | STATE_SPLASH => ret (UpdateSplashScreen inp game, dragging)
  | STATE_MODE_SELECT => UpdateModeSelect inp game dragging
  | _ =>
    game <- UpdateGame fuel inp game ;;
    game <- DrawGame inp game ;;
    ret (game, dragging)
  end.

(** Running the main loop over the inputs of successive frames. *)
Fixpoint run_frames (fuel : nat) (inps : list Input) (app : App) : M App :=
  match inps with
  | [] => ret app
  | inp :: rest =>
    app <- main_loop fuel inp app ;;
    run_frames fuel rest app
  end.

(** Sequences of pool operations: [Emit] is [CreateParticleEffect], [Tick]
    is [UpdateAndDrawParticles] in a frame with the given inputs. *)
Inductive ParticleOp : Type :=
| Emit (position : Vector2) (color : Color) (count : Z)
| Tick (inp : Input).

Definition run_particle_op (op : ParticleOp) (game : Game) : M Game :=
  match op with
  | Emit position color count =>
    CreateParticleEffect game position color count
  | Tick inp => ret (UpdateAndDrawParticles inp game)
  end.

Fixpoint run_particle_ops (ops : list ParticleOp) (game : Game) : M Game :=
  match ops with
  | [] => ret game
  | op :: rest =>
    game <- run_particle_op op game ;;
    run_particle_ops rest game
  end.

(** ** Specifications of monadic code *)

(** Partial correctness: every result satisfies [P]. *)
Definition wp {A : Type} (m : M A) (P : A -> Prop) : Prop :=
  forall w a w', m w = Some (a, w') -> P a.

(** Total correctness: there is a result, and it satisfies [P]. *)
Definition tp {A : Type} (m : M A) (P : A -> Prop) : Prop :=
  forall w, exists a w', m w = Some (a, w') /\ P a.

(** The fields no block of a playing tick writes after the paddles have
    moved. *)
Definition keeps_setup (g g' : Game) : Prop :=
  mode g' = mode g /\ playerPaddle g' = playerPaddle g /\
  aiPaddle g' = aiPaddle g /\ winScore g' = winScore g /\
  fullscreen g' = fullscreen g /\
  ballSpeedMultiplier g' = ballSpeedMultiplier g.

(** ** The invariant of the running program *)

(** The phases [UpdateGame] handles: a match is under way or just over. *)
Definition in_match (g : Game) : Prop :=
  state g = STATE_PLAYING \/ state g = STATE_PAUSED \/
  state g = STATE_GAME_OVER.

(** A paddle of the game's size in the column [x], on the screen. *)
Definition paddle_ok (p : Paddle) (x : Q) : Prop :=
  rec_x (paddle_rect p) = x /\
  rec_width (paddle_rect p) = inject_Z PADDLE_WIDTH /\
  rec_height (paddle_rect p) = inject_Z PADDLE_HEIGHT /\
  0 <= rec_y (paddle_rect p) <= 600.

(** What holds of the game after every frame: the multiplier is in the
    slider's range, the pool count is within the pool, and in a match the
    paddles, the ball's radius and the win score are those of
    [InitGame]. *)
Definition game_inv (g : Game) : Prop :=
  0.5 <= ballSpeedMultiplier g <= 2 /\
  (0 <= activeParticles g <= MAX_PARTICLES)%Z /\
  (in_match g ->
   paddle_ok (playerPaddle g) 10 /\ paddle_ok (aiPaddle g) 1245 /\
   ball_radius (ball g) = inject_Z BALL_RADIUS /\ winScore g = 10%Z).

(** ** Sample inputs *)

Definition KeyboardKey_eq_dec (a b : KeyboardKey) : {a = b} + {a <> b}.
Proof. decide equality. Defined.

Definition no_keys : KeyboardKey -> bool := fun _ => false.

Definition only_key (k : KeyboardKey) : KeyboardKey -> bool :=
  fun k' => if KeyboardKey_eq_dec k k' then true else false.

(** A frame in which nothing is pressed or held. *)
Definition idle_input : Input :=
  mkInput no_keys no_keys false false (mkVector2 0 0) (1 # 60) 0.

(** A frame in which exactly the key [k] was just pressed. *)
Definition key_input (k : KeyboardKey) : Input :=
  mkInput (only_key k) no_keys false false (mkVector2 0 0) (1 # 60) 0.

(** The two paddles as [InitGame] creates them (AI mode). *)
Definition player_paddle0 : Paddle :=
  mkPaddle (mkRectangle 10 300 25 200) 12 COLOR_PLAYER_ONE.

Definition ai_paddle0 : Paddle :=
  mkPaddle (mkRectangle 1245 300 25 200) 12 COLOR_AI.

(** A ball of the game's radius at the given position and velocity. *)
Definition ball_at (x y vx vy : Q) : Ball :=
  mkBall (mkVector2 x y) (mkVector2 vx vy) 20 COLOR_BALL.

(** A menu frame in which player two's mode is chosen by key while the
    mouse button is held at the left end of the speed slider. *)
Definition slider_and_key_input : Input :=
  mkInput (only_key KEY_TWO) no_keys false true (mkVector2 490 600)
    (1 # 60) 0.


(** A game in play as after [InitGame] in AI mode (multiplier 1, serve
    without vertical speed), and the same game with another ball or
    score. *)
Definition playing_game : Game :=
  mkGame STATE_PLAYING MODE_AI (ball_at 640 400 8 0) player_paddle0
    ai_paddle0 0 0 10 false 1 1 0 0 (mkVector2 0 0)
    (repeat zero_particle (Z.to_nat MAX_PARTICLES)) 0.

Definition playing_with (b : Ball) : Game := set_ball playing_game b.

Definition match_point_game : Game :=
  set_playerScore (playing_with (ball_at 1310 400 8 0)) 9.





(** Frames in which both players hold their down keys, so that both
    paddles rest at the bottom of the court, and a two-player match played
    that way from the splash screen. *)
Definition away_keys : KeyboardKey -> bool :=
  fun k => match k with KEY_S | KEY_DOWN => true | _ => false end.

Definition away_input : Input :=
  mkInput no_keys away_keys false false (mkVector2 0 0) (1 # 60) 0.

Definition shutout_frames : list Input :=
  key_input KEY_SPACE :: key_input KEY_TWO :: repeat away_input 830.

(** ** Presentation code that keeps state or reads the game *)

(** Modelled from the spec: raymath's [Lerp] is not in [src/]; the spec
    leaves the "transient animation scalars" to the library.  The
    definition is raymath's linear interpolation. *)
Definition Lerp (start end_ amount : Q) : Q :=
  start + amount * (end_ - start).

(** [DrawModeSelect]: the horizontal position of the slider knob and the
    width of the filled part of the slider. *)
Definition DrawModeSelect_knobPos (game : Game) : Q :=
  let sliderBg := mkRectangle (inject_Z (SCREEN_WIDTH ÷ 2 - 150))
                    (inject_Z (SCREEN_HEIGHT * 3 ÷ 4)) 300 20 in
  rec_x sliderBg +
  rec_width sliderBg * (ballSpeedMultiplier game - 0.5) / 1.5.

Definition DrawModeSelect_filledSlider (game : Game) : Rectangle :=
  let sliderBg := mkRectangle (inject_Z (SCREEN_WIDTH ÷ 2 - 150))
                    (inject_Z (SCREEN_HEIGHT * 3 ÷ 4)) 300 20 in
  mkRectangle (rec_x sliderBg) (rec_y sliderBg)
    (rec_width sliderBg * (ballSpeedMultiplier game - 0.5) / 1.5)
    (rec_height sliderBg).

(** [DrawModeSelect]: the static locals [prevSpeed] and [speedAnimScale]
    that animate the speed text, passed in and returned. *)
Definition DrawModeSelect_speedAnim (game : Game) (statics : Q * Q)
  : Q * Q :=
  let '(prevSpeed, speedAnimScale) := statics in
  let '(prevSpeed, speedAnimScale) :=
    if 0.05 <? fabsf (prevSpeed - ballSpeedMultiplier game)
    then (ballSpeedMultiplier game, 1.3)
    else (prevSpeed, speedAnimScale) in
  (prevSpeed, Lerp speedAnimScale 1 0.1).

(** [DrawSplashScreen]: the static locals of the background ball and of the
    pulsing start button.  The other statics of the function are
    overwritten from the clock in every frame. *)
Record SplashAnim : Type := mkSplashAnim
  { ballPosX : Q; ballPosY : Q; ballVelX : Q; ballVelY : Q;
    pulseSize : Q; pulsing : bool }.

Definition splash_anim0 : SplashAnim := mkSplashAnim 300 400 3 2 0 true.

Definition DrawSplashScreen_anim (s : SplashAnim) : SplashAnim :=
  let ballPosX := ballPosX s + ballVelX s in
  let ballPosY := ballPosY s + ballVelY s in
  let ballVelX :=
    if (ballPosX <? 50) || (inject_Z (SCREEN_WIDTH - 50) <? ballPosX)
    then ballVelX s * -1 else ballVelX s in
  let ballVelY :=
    if (ballPosY <? 50) || (inject_Z (SCREEN_HEIGHT - 50) <? ballPosY)
    then ballVelY s * -1 else ballVelY s in
  let '(pulseSize, pulsing) :=
    if pulsing s then
      let pulseSize := pulseSize s + 0.01 in
      (pulseSize, if 0.2 <? pulseSize then false else true)
    else
      let pulseSize := pulseSize s - 0.01 in
      (pulseSize, if pulseSize <? 0 then true else false) in
  mkSplashAnim ballPosX ballPosY ballVelX ballVelY pulseSize pulsing.

(** [DrawSplashScreen]: the font size of the start text. *)
Definition DrawSplashScreen_startFontSize (s : SplashAnim) : Q :=
  40 + pulseSize s * 15.

(** [DrawGame]: the winner text of the game-over overlay. *)
Definition DrawGame_winnerLabel (game : Game) : string :=
  if (winScore game <=? playerScore game)%Z
  then match mode game with
       | MODE_AI => "YOU WIN!"%string
       | MODE_MULTIPLAYER => "PLAYER 1 WINS!"%string
       end
  else match mode game with
       | MODE_AI => "AI WINS!"%string
       | MODE_MULTIPLAYER => "PLAYER 2 WINS!"%string
       end.

(** [DrawGame]: which overlay is drawn over the court. *)
Inductive Overlay : Type :=
| NoOverlay
| PauseOverlay
| GameOverOverlay (winnerLabel : string).

Definition DrawGame_overlay (game : Game) : Overlay :=
  match state game with
  | STATE_PAUSED => PauseOverlay
  | STATE_GAME_OVER => GameOverOverlay (DrawGame_winnerLabel game)
  | _ => NoOverlay
  end.

(** ** Further invariants and specifications *)

(** Scores in a match: between 0 and 10, never both 10, and the match is
    over exactly when one of them is 10. *)
Definition score_inv (g : Game) : Prop :=
  (0 <= playerScore g <= 10)%Z /\ (0 <= aiScore g <= 10)%Z /\
  ~ (playerScore g = 10%Z /\ aiScore g = 10%Z) /\
  (state g = STATE_GAME_OVER <->
   (playerScore g = 10%Z \/ aiScore g = 10%Z)).

(** The ball in a match: inside the court extended by a radius to the left
    and right, a radius away from the top and bottom walls, with bounded
    velocity that never loses its horizontal part. *)
Definition ball_inv (g : Game) : Prop :=
  -20 <= vec_x (ball_position (ball g)) <= 1300 /\
  20 <= vec_y (ball_position (ball g)) <= 780 /\
  4 <= fabsf (vec_x (ball_velocity (ball g))) <= 30 /\
  fabsf (vec_y (ball_velocity (ball g))) <= 27.

Definition match_inv (g : Game) : Prop :=
  in_match g -> score_inv g /\ ball_inv g.

(** Two games with the same match: ball, paddles, scores, mode and speed
    multiplier. *)
Definition same_match (g g' : Game) : Prop :=
  ball g' = ball g /\ playerPaddle g' = playerPaddle g /\
  aiPaddle g' = aiPaddle g /\ playerScore g' = playerScore g /\
  aiScore g' = aiScore g /\ winScore g' = winScore g /\
  mode g' = mode g /\ ballSpeedMultiplier g' = ballSpeedMultiplier g.

(** A menu frame in which a mode is chosen, by key or by a click. *)
Definition mode_chosen (inp : Input) : bool :=
  IsKeyPressed inp KEY_ONE || IsKeyPressed inp KEY_KP_1 ||
  IsKeyPressed inp KEY_TWO || IsKeyPressed inp KEY_KP_2 ||
  IsMouseButtonPressed inp.


(** What the slider branch of [UpdateModeSelect] makes of the pointer's
    horizontal position. *)
Definition slider_value (mouseX : Q) : Q :=
  roundf ((0.5 + Clamp (mouseX - 490) 0 300 / 300 * 1.5) * 10) / 10.

(** One particle of the pool in a tick, step by step, as
    [UpdateAndDrawParticles] treats it: it ages, it is dropped if expired,
    and it moves if kept. *)
Definition particle_aged (deltaTime : Q) (p : Particle) : Particle :=
  mkParticle (p_position p) (p_velocity p) (p_lifeTime p + deltaTime)
    (p_maxLifeTime p) (p_color p) (p_size p).

Definition particle_alive (p : Particle) : bool :=
  negb (p_maxLifeTime p <=? p_lifeTime p).

Definition particle_moved (p : Particle) : Particle :=
  mkParticle
    (mkVector2 (vec_x (p_position p) + vec_x (p_velocity p))
               (vec_y (p_position p) + vec_y (p_velocity p)))
    (p_velocity p) (p_lifeTime p) (p_maxLifeTime p) (p_color p) (p_size p).

(** The live range after a tick, said with [map] and [filter]: the
    survivors of the aged particles, moved, in their order. *)
Definition survivors (deltaTime : Q) (live : list Particle)
  : list Particle :=
  map particle_moved
    (filter particle_alive (map (particle_aged deltaTime) live)).

(** The live range of a game: the first [activeParticles] slots. *)
Definition live_particles (g : Game) : list Particle :=
  firstn (Z.to_nat (activeParticles g)) (particles g).

(** A particle as [CreateParticleEffect] makes it. *)
Definition fresh_particle (position : Vector2) (color : Color)
  (p : Particle) : Prop :=
  p_position p = position /\ p_color p = color /\ p_lifeTime p = 0 /\
  -2 <= vec_x (p_velocity p) <= 2 /\ -2 <= vec_y (p_velocity p) <= 2 /\
  0.3 <= p_maxLifeTime p <= 0.9 /\ 2 <= p_size p <= 6.

(** * Properties *)

(** ** Comparisons *)

Lemma Qlt_bool_true (a b : Q) : (a <? b) = true <-> a < b.
Proof.
  unfold Qlt_bool. rewrite negb_true_iff. split; intro H.
  - apply Qnot_le_lt. intro Hle. apply Qle_bool_iff in Hle. congruence.
  - destruct (Qle_bool b a) eqn:E; [|reflexivity].
    apply Qle_bool_iff in E. lra.
Qed.

Lemma Qlt_bool_false (a b : Q) : (a <? b) = false <-> b <= a.
Proof.
  unfold Qlt_bool. rewrite negb_false_iff. apply Qle_bool_iff.
Qed.

Lemma Qle_bool_false (a b : Q) : (a <=? b) = false <-> b < a.
Proof.
  split; intro H.
  - apply Qnot_le_lt. intro Hle. apply Qle_bool_iff in Hle. congruence.
  - destruct (Qle_bool a b) eqn:E; [|reflexivity].
    apply Qle_bool_iff in E. lra.
Qed.

(** Turn boolean comparisons among the hypotheses into propositions. *)
Ltac qprop :=
  repeat match goal with
  | H : (_ <? _) = true |- _ => apply Qlt_bool_true in H
  | H : (_ <? _) = false |- _ => apply Qlt_bool_false in H
  | H : (_ <=? _) = true |- _ => apply Qle_bool_iff in H
  | H : (_ <=? _) = false |- _ => apply Qle_bool_false in H
  | H : Qlt_bool _ _ = true |- _ => apply Qlt_bool_true in H
  | H : Qlt_bool _ _ = false |- _ => apply Qlt_bool_false in H
  | H : Qle_bool _ _ = true |- _ => apply Qle_bool_iff in H
  | H : Qle_bool _ _ = false |- _ => apply Qle_bool_false in H
  end.

(** Case analysis on the first comparison the goal, or else a hypothesis,
    branches on. *)
Ltac qcase :=
  match goal with
  | |- context [if Qlt_bool ?a ?b then _ else _] =>
    let E := fresh "E" in destruct (Qlt_bool a b) eqn:E
  | |- context [if Qle_bool ?a ?b then _ else _] =>
    let E := fresh "E" in destruct (Qle_bool a b) eqn:E
  | H : context [if Qlt_bool ?a ?b then _ else _] |- _ =>
    let E := fresh "E" in destruct (Qlt_bool a b) eqn:E
  | H : context [if Qle_bool ?a ?b then _ else _] |- _ =>
    let E := fresh "E" in destruct (Qle_bool a b) eqn:E
  end.

Lemma Clamp_bounds (v lo hi : Q) : lo <= hi -> lo <= Clamp v lo hi <= hi.
Proof.
  intro H. unfold Clamp.
  destruct (v <? lo) eqn:E1.
  - destruct (hi <? lo) eqn:E2; qprop; lra.
  - destruct (hi <? v) eqn:E2; qprop; lra.
Qed.

Lemma fabsf_le (v b : Q) : fabsf v <= b <-> - b <= v <= b.
Proof. unfold fabsf. apply Qabs_Qle_condition. Qed.


Lemma fminf_spec (a b : Q) :
  (a <= b /\ fminf a b == a) \/ (b <= a /\ fminf a b == b).
Proof. unfold fminf. apply Q.min_spec_le. Qed.

Lemma int_incr_small (z : Z) :
  (-2147483648 <= z < 2147483647)%Z -> int_incr z = (z + 1)%Z.
Proof.
  intro H. unfold int_incr, int_wrap.
  rewrite Z.mod_small by lia. lia.
Qed.

(** ** Reasoning in the monad *)

Lemma wp_ret {A : Type} (a : A) (P : A -> Prop) : P a -> wp (ret a) P.
Proof. intros H w a' w' E. inversion E; subst. exact H. Qed.

Lemma wp_bind {A B : Type} (m : M A) (f : A -> M B) (Q : A -> Prop)
  (P : B -> Prop) :
  wp m Q -> (forall a, Q a -> wp (f a) P) -> wp (bind m f) P.
Proof.
  intros Hm Hf w b w' E. unfold bind in E.
  destruct (m w) as [[a w1]|] eqn:Em; [|discriminate].
  exact (Hf a (Hm _ _ _ Em) _ _ _ E).
Qed.

Lemma wp_lift {A : Type} (o : option A) (P : A -> Prop) :
  (forall a, o = Some a -> P a) -> wp (lift o) P.
Proof.
  intros H w a w' E. unfold lift in E. destruct o; [|discriminate].
  inversion E; subst. apply H. reflexivity.
Qed.

Lemma tp_ret {A : Type} (a : A) (P : A -> Prop) : P a -> tp (ret a) P.
Proof. intros H w. exists a, w. split; [reflexivity|exact H]. Qed.

Lemma tp_bind {A B : Type} (m : M A) (f : A -> M B) (Q : A -> Prop)
  (P : B -> Prop) :
  tp m Q -> (forall a, Q a -> tp (f a) P) -> tp (bind m f) P.
Proof.
  intros Hm Hf w. destruct (Hm w) as (a & w1 & Em & Ha).
  destruct (Hf a Ha w1) as (b & w2 & Ef & Hb).
  exists b, w2. split; [|exact Hb]. unfold bind. rewrite Em. exact Ef.
Qed.

Lemma tp_conseq {A : Type} (m : M A) (P Q : A -> Prop) :
  tp m P -> (forall a, P a -> Q a) -> tp m Q.
Proof.
  intros H HPQ w. destruct (H w) as (a & w' & E & Ha).
  exists a, w'. split; [exact E|apply HPQ; exact Ha].
Qed.

Lemma tp_lift {A : Type} (o : option A) (a : A) (P : A -> Prop) :
  o = Some a -> P a -> tp (lift o) P.
Proof.
  intros E H w. exists a, w. unfold lift. rewrite E.
  split; [reflexivity|exact H].
Qed.

(** A draw lies in the closed range it was asked for. *)
Lemma GetRandomValue_tp (min max : Z) :
  (min <= max)%Z ->
  tp (GetRandomValue min max) (fun v => (min <= v <= max)%Z).
Proof.
  intros H w. unfold GetRandomValue.
  rewrite Z.min_l by exact H. rewrite Z.abs_eq by lia.
  destruct w as [|r w'].
  - exists min, []. split; [reflexivity|lia].
  - exists (min + r mod (max - min + 1))%Z, w'. split; [reflexivity|].
    pose proof (Z.mod_pos_bound r (max - min + 1)). lia.
Qed.

(** ** The particle pool *)

Lemma set_particles_eta (g : Game) :
  g = set_activeParticles (set_particles g (particles g)) (activeParticles g).
Proof. destruct g; reflexivity. Qed.

(** [CreateParticleEffect] always returns, writes nothing but the pool, and
    on a pool in range adds [n] particles up to the capacity. *)
Lemma CreateParticleEffect_loop_tp (n : nat) (position : Vector2)
  (color : Color) : forall game : Game,
  tp (CreateParticleEffect_loop n game position color)
     (fun g' =>
        (exists ps k, g' = set_activeParticles (set_particles game ps) k) /\
        ((0 <= activeParticles game <= MAX_PARTICLES)%Z ->
         activeParticles g' =
         Z.min (activeParticles game + Z.of_nat n) MAX_PARTICLES)).
Proof.
  induction n as [|n IH]; intro game; cbn [CreateParticleEffect_loop].
  - apply tp_ret. split.
    + exists (particles game), (activeParticles game).
      apply set_particles_eta.
    + intro H. rewrite Z.add_0_r. symmetry. apply Z.min_l. lia.
  - destruct (activeParticles game <? MAX_PARTICLES)%Z eqn:E.
    + apply Z.ltb_lt in E.
      eapply tp_bind; [apply GetRandomValue_tp; lia | intros rvx _].
      eapply tp_bind; [apply GetRandomValue_tp; lia | intros rvy _].
      eapply tp_bind; [apply GetRandomValue_tp; lia | intros rlife _].
      eapply tp_bind; [apply GetRandomValue_tp; lia | intros rsize _].
      eapply tp_conseq; [apply IH|].
      cbn beta. intros g' [(ps & k & Hg') Hcount]. split.
      * exists ps, k. rewrite Hg'. reflexivity.
      * intro Hr.
        cbn [activeParticles set_activeParticles set_particles] in Hcount.
        unfold MAX_PARTICLES in *.
        rewrite int_incr_small in Hcount by lia.
        rewrite Hcount by lia. lia.
    + apply Z.ltb_ge in E. apply tp_ret. split.
      * exists (particles game), (activeParticles game).
        apply set_particles_eta.
      * intro H. lia.
Qed.

Lemma CreateParticleEffect_tp (game : Game) (position : Vector2)
  (color : Color) (count : Z) :
  tp (CreateParticleEffect game position color count)
     (fun g' =>
        (exists ps k, g' = set_activeParticles (set_particles game ps) k) /\
        ((0 <= activeParticles game <= MAX_PARTICLES)%Z ->
         activeParticles g' =
         Z.min (activeParticles game + Z.max 0 count) MAX_PARTICLES)).
Proof.
  unfold CreateParticleEffect.
  eapply tp_conseq; [apply CreateParticleEffect_loop_tp|].
  cbn beta. intros g' [Hf Hc]. split; [exact Hf|].
  intro H. rewrite (Hc H). f_equal. f_equal. lia.
Qed.

(** The compaction cursor advances by at most one per visited slot. *)
Lemma UpdateAndDrawParticles_loop_keep (n : nat) :
  forall (i : Z) (deltaTime : Q) (parts : list Particle) (keep : Z),
    (keep <=
     snd (UpdateAndDrawParticles_loop n i deltaTime parts keep) <=
     keep + Z.of_nat n)%Z.
Proof.
  induction n as [|n IH]; intros i deltaTime parts keep.
  - cbn. lia.
  - cbn [UpdateAndDrawParticles_loop].
    match goal with
    | |- context [if ?c then _ else _] => destruct c
    end.
    + match goal with
      | |- context [UpdateAndDrawParticles_loop n ?i' ?d ?p ?k] =>
        pose proof (IH i' d p k)
      end. lia.
    + match goal with
      | |- context [UpdateAndDrawParticles_loop n ?i' ?d ?p ?k] =>
        pose proof (IH i' d p k)
      end. lia.
Qed.

Lemma UpdateAndDrawParticles_count (inp : Input) (game : Game) :
  (0 <= activeParticles (UpdateAndDrawParticles inp game) <=
   Z.max 0 (activeParticles game))%Z.
Proof.
  unfold UpdateAndDrawParticles.
  pose proof (UpdateAndDrawParticles_loop_keep
                (Z.to_nat (activeParticles game)) 0 (GetFrameTime inp)
                (particles game) 0) as H.
  destruct (UpdateAndDrawParticles_loop _ _ _ _ _) as [parts keep].
  cbn [snd] in H. cbn [activeParticles set_activeParticles]. lia.
Qed.

Lemma UpdateAndDrawParticles_frame (inp : Input) (game : Game) :
  exists ps k,
    UpdateAndDrawParticles inp game =
    set_activeParticles (set_particles game ps) k.
Proof.
  unfold UpdateAndDrawParticles.
  destruct (UpdateAndDrawParticles_loop _ _ _ _ _) as [parts keep].
  exists parts, keep. reflexivity.
Qed.

Lemma run_particle_ops_tp (ops : list ParticleOp) : forall game : Game,
  (0 <= activeParticles game <= MAX_PARTICLES)%Z ->
  tp (run_particle_ops ops game)
     (fun g' => (0 <= activeParticles g' <= MAX_PARTICLES)%Z).
Proof.
  induction ops as [|op ops IH]; intros game H; cbn [run_particle_ops].
  - apply tp_ret. exact H.
  - eapply tp_bind with
      (Q := fun g1 => (0 <= activeParticles g1 <= MAX_PARTICLES)%Z).
    + destruct op as [position color count | inp]; cbn [run_particle_op].
      * eapply tp_conseq; [apply CreateParticleEffect_tp|].
        cbn beta. intros g1 [_ Hc]. rewrite (Hc H).
        unfold MAX_PARTICLES in *. lia.
      * apply tp_ret.
        pose proof (UpdateAndDrawParticles_count inp game). lia.
    + intros g1 H1. apply IH. exact H1.
Qed.

(** C8. Starting from an initialized game (empty pool), after any sequence
    of [CreateParticleEffect] (Emit) and [UpdateAndDrawParticles] (Tick)
    calls the sequence has run to its end and the live count
    [activeParticles] is within [0, 100]; in the state reached, an emission
    of [count] particles returns normally with the count raised by [count]
    but truncated at 100, and a tick does not increase the count. *)
Theorem C8_particle_pool_capacity :
  forall (game : Game) (ops : list ParticleOp) (w : Rng),
    activeParticles game = 0%Z ->
    exists g' w',
      run_particle_ops ops game w = Some (g', w') /\
      (0 <= activeParticles g' <= 100)%Z /\
      (forall position color count w1,
          exists g'' w2,
            CreateParticleEffect g' position color count w1 = Some (g'', w2) /\
            activeParticles g'' =
            Z.min (activeParticles g' + Z.max 0 count) 100) /\
      (forall inp,
          (activeParticles (UpdateAndDrawParticles inp g') <=
           activeParticles g')%Z).
Proof.
  intros game ops w H0.
  assert (Hr : (0 <= activeParticles game <= MAX_PARTICLES)%Z)
    by (rewrite H0; unfold MAX_PARTICLES; lia).
  destruct (run_particle_ops_tp ops game Hr w) as (g' & w' & E & Hg').
  exists g', w'. split; [exact E|]. split; [exact Hg'|]. split.
  - intros position color count w1.
    destruct (CreateParticleEffect_tp g' position color count w1)
      as (g'' & w2 & E2 & _ & Hc).
    exists g'', w2. split; [exact E2|]. exact (Hc Hg').
  - intro inp. pose proof (UpdateAndDrawParticles_count inp g').
    unfold MAX_PARTICLES in *. lia.
Qed.

(** ** Serve and match initialization *)

Lemma ResetBall_tp (inp : Input) (game : Game) (serverIsPlayer : bool) :
  tp (ResetBall inp game serverIsPlayer)
     (fun g' =>
        exists (r : Z) ps k,
          (-100 <= r <= 100)%Z /\
          g' =
          set_activeParticles
            (set_particles
               (set_scoreAnimScale
                  (set_lastScoreTime
                     (set_ball game
                        (mkBall
                           (mkVector2 (inject_Z (SCREEN_WIDTH ÷ 2))
                                      (inject_Z (SCREEN_HEIGHT ÷ 2)))
                           (mkVector2
                              (if serverIsPlayer
                               then BALL_INITIAL_SPEED *
                                    ballSpeedMultiplier game
                               else - (BALL_INITIAL_SPEED *
                                       ballSpeedMultiplier game))
                              (inject_Z r / 100 *
                               (BALL_INITIAL_SPEED *
                                ballSpeedMultiplier game)))
                           (ball_radius (ball game))
                           (ball_color (ball game))))
                     (GetTime inp))
                  1.5)
               ps) k).
Proof.
  unfold ResetBall.
  eapply tp_bind; [apply GetRandomValue_tp; lia | intros r Hr].
  eapply tp_conseq; [apply CreateParticleEffect_tp|].
  cbn beta. intros g' [(ps & k & Hg') _].
  exists r, ps, k. split; [exact Hr|]. rewrite Hg'. reflexivity.
Qed.

Lemma InitGame_tp (inp : Input) (game : Game) (m : GameMode) :
  tp (InitGame inp game m)
     (fun g' =>
        exists (r : Z) ps,
          (-100 <= r <= 100)%Z /\
          g' =
          mkGame STATE_PLAYING m
            (mkBall
               (mkVector2 (inject_Z (SCREEN_WIDTH ÷ 2))
                          (inject_Z (SCREEN_HEIGHT ÷ 2)))
               (mkVector2
                  (BALL_INITIAL_SPEED * ballSpeedMultiplier game)
                  (inject_Z r / 100 *
                   (BALL_INITIAL_SPEED * ballSpeedMultiplier game)))
               (inject_Z BALL_RADIUS) COLOR_BALL)
            (mkPaddle
               (mkRectangle 10
                  (inject_Z ((SCREEN_HEIGHT - PADDLE_HEIGHT) ÷ 2))
                  (inject_Z PADDLE_WIDTH) (inject_Z PADDLE_HEIGHT))
               PADDLE_SPEED COLOR_PLAYER_ONE)
            (mkPaddle
               (mkRectangle (inject_Z (SCREEN_WIDTH - 10 - PADDLE_WIDTH))
                  (inject_Z ((SCREEN_HEIGHT - PADDLE_HEIGHT) ÷ 2))
                  (inject_Z PADDLE_WIDTH) (inject_Z PADDLE_HEIGHT))
               PADDLE_SPEED
               (match m with
                | MODE_AI => COLOR_AI
                | MODE_MULTIPLAYER => COLOR_PLAYER_TWO
                end))
            0 0 10 (fullscreen game) (ballSpeedMultiplier game)
            1 0 0 (mkVector2 0 0) ps 0).
Proof.
  unfold InitGame.
  eapply tp_bind; [apply ResetBall_tp|].
  cbn beta. intros g1 (r & ps & k & Hr & ->).
  apply tp_ret. exists r, ps. split; [exact Hr|]. reflexivity.
Qed.

(** C7 (as the code has it). [InitGame] returns for every prior game, mode
    and oracle; it zeroes both scores, sets the win score to 10, re-creates
    the ball (centre of the screen, radius 20) and both paddles, empties
    the pool and enters STATE_PLAYING.  The serve has horizontal velocity
    [BALL_INITIAL_SPEED * ballSpeedMultiplier]: for a positive multiplier it
    is positive, so the ball, which lies between the paddles, moves away
    from the player's (left) paddle and toward the right paddle.  A restart
    from STATE_GAME_OVER (key R) is exactly [InitGame] with the mode kept,
    and a mode key pressed in the menu with the mouse untouched is exactly
    [InitGame] with that mode. *)
Theorem C7_InitGame_serves_from_player :
  forall (inp : Input) (game : Game) (m : GameMode) (w : Rng),
    (exists g' w',
        InitGame inp game m w = Some (g', w') /\
        playerScore g' = 0%Z /\ aiScore g' = 0%Z /\ winScore g' = 10%Z /\
        state g' = STATE_PLAYING /\ mode g' = m /\
        activeParticles g' = 0%Z /\
        ball_position (ball g') = mkVector2 640 400 /\
        ball_radius (ball g') = 20 /\
        playerPaddle g' =
          mkPaddle (mkRectangle 10 300 25 200) 12 COLOR_PLAYER_ONE /\
        aiPaddle g' =
          mkPaddle (mkRectangle 1245 300 25 200) 12
            (match m with
             | MODE_AI => COLOR_AI
             | MODE_MULTIPLAYER => COLOR_PLAYER_TWO
             end) /\
        vec_x (ball_velocity (ball g')) =
          BALL_INITIAL_SPEED * ballSpeedMultiplier game /\
        (0 < ballSpeedMultiplier game ->
         0 < vec_x (ball_velocity (ball g')) /\
         rec_x (paddle_rect (playerPaddle g')) <
           vec_x (ball_position (ball g')) /\
         vec_x (ball_position (ball g')) <
           rec_x (paddle_rect (aiPaddle g')))) /\
    (forall fuel,
        state game = STATE_GAME_OVER -> IsKeyPressed inp KEY_R = true ->
        UpdateGame fuel inp game w = InitGame inp game (mode game) w) /\
    (forall dragging,
        IsKeyPressed inp KEY_ONE = true ->
        IsMouseButtonDown inp = false -> IsMouseButtonPressed inp = false ->
        UpdateModeSelect inp game dragging w =
        (g' <- InitGame inp game MODE_AI ;; ret (g', false)) w) /\
    (forall dragging,
        IsKeyPressed inp KEY_ONE = false ->
        IsKeyPressed inp KEY_KP_1 = false ->
        IsKeyPressed inp KEY_TWO = true ->
        IsMouseButtonDown inp = false -> IsMouseButtonPressed inp = false ->
        UpdateModeSelect inp game dragging w =
        (g' <- InitGame inp game MODE_MULTIPLAYER ;; ret (g', false)) w).
Proof.
  intros inp game m w. split; [|split; [|split]].
  - destruct (InitGame_tp inp game m w) as (g' & w' & E & r & ps & Hr & ->).
    eexists. exists w'. split; [exact E|].
    cbn [playerScore aiScore winScore state mode activeParticles ball
         ball_position ball_radius playerPaddle aiPaddle ball_velocity
         vec_x paddle_rect rec_x].
    repeat (split; [reflexivity|]).
    intro Hm. unfold BALL_INITIAL_SPEED.
    split; [lra|]. split; reflexivity.
  - intros fuel Hs HR. unfold UpdateGame. rewrite Hs, HR. reflexivity.
  - intros dragging H1 Hd Hp. unfold UpdateModeSelect.
    rewrite H1, Hd, Hp. cbn [orb]. unfold bind.
    destruct (InitGame inp game MODE_AI w) as [[g1 w1]|]; reflexivity.
  - intros dragging H1 H1' H2 Hd Hp. unfold UpdateModeSelect.
    rewrite H1, H1', H2, Hd, Hp. cbn [orb]. unfold bind.
    destruct (InitGame inp game MODE_MULTIPLAYER w) as [[g1 w1]|];
      reflexivity.
Qed.

Lemma C7_InitGame_serves_from_player_witness :
  0 < ballSpeedMultiplier initial_game /\
  exists g' w',
    InitGame idle_input initial_game MODE_AI [] = Some (g', w') /\
    state g' = STATE_PLAYING /\
    0 < vec_x (ball_velocity (ball g')).
Proof.
  split; [reflexivity|].
  destruct (C7_InitGame_serves_from_player idle_input initial_game MODE_AI [])
    as [(g' & w' & E & _ & _ & _ & Hs & _ & _ & _ & _ & _ & _ & _ & Hv) _].
  exists g', w'. split; [exact E|]. split; [exact Hs|].
  apply Hv. reflexivity.
Defined.

(** C7 as stated fails: the serve of [InitGame] is not directed at the
    player's paddle.  From the initial game (multiplier 1) the ball starts
    at x = 640 with horizontal velocity +8, while the player's paddle is on
    its left, at x = 10. *)
Lemma C7_counterexample :
  exists g' w',
    InitGame idle_input initial_game MODE_AI [] = Some (g', w') /\
    rec_x (paddle_rect (playerPaddle g')) < vec_x (ball_position (ball g')) /\
    vec_x (ball_velocity (ball g')) == 8 /\
    ~ vec_x (ball_velocity (ball g')) < 0.
Proof.
  eexists. eexists. split; [vm_compute; reflexivity|].
  cbn [playerPaddle paddle_rect rec_x ball ball_position ball_velocity vec_x].
  split; [reflexivity|]. split; [reflexivity|]. intro H. discriminate H.
Qed.

(** ** The AI controller *)

(** From a [bounceDistance] computed by the ternary, the folding loop needs
    at most two iterations: three units of fuel always suffice. *)
Lemma bounce_loop_total (fuel : nat) (p : Q) :
  (3 <= fuel)%nat ->
  exists y, bounce_loop fuel p (bounceDistance_of p) = Some y.
Proof.
  intro Hf. destruct fuel as [|[|[|fuel]]]; try lia.
  cbn [bounce_loop]. unfold bounceDistance_of, SCREEN_HEIGHT.
  change (inject_Z 800) with 800.
  repeat (qcase; qprop; try (exfalso; lra)); eexists; reflexivity.
Qed.

(** What the loop achieves: a projection less than one screen height
    outside the screen is folded back into it. *)
Lemma bounce_loop_folds_near (fuel : nat) (p : Q) :
  (3 <= fuel)%nat ->
  - (2 * inject_Z SCREEN_HEIGHT) < p < 2 * inject_Z SCREEN_HEIGHT ->
  exists y, bounce_loop fuel p (bounceDistance_of p) = Some y /\
            0 <= y <= inject_Z SCREEN_HEIGHT.
Proof.
  intros Hf. destruct fuel as [|[|[|fuel]]]; try lia.
  cbn [bounce_loop]. unfold bounceDistance_of, SCREEN_HEIGHT.
  change (inject_Z 800) with 800. intros Hp.
  repeat (qcase; qprop; try (exfalso; lra));
    (eexists; split; [reflexivity|lra]).
Qed.

(** Where it stops short: at two screen heights or more below the top the
    ternary yields a non-positive [bounceDistance] and the loop is not
    entered. *)
Lemma bounce_loop_far_bottom (fuel : nat) (p : Q) :
  2 * inject_Z SCREEN_HEIGHT <= p ->
  bounce_loop (S fuel) p (bounceDistance_of p) = Some p.
Proof.
  cbn [bounce_loop]. unfold bounceDistance_of, SCREEN_HEIGHT.
  change (inject_Z 800) with 800. intros Hp.
  repeat (qcase; qprop; try (exfalso; lra)); reflexivity.
Qed.

Lemma fdiv_nonzero (a b : Q) : ~ b == 0 -> fdiv a b = Some (a / b).
Proof.
  intro H. unfold fdiv. destruct (Qeq_bool b 0) eqn:E; [|reflexivity].
  apply Qeq_bool_iff in E. contradiction.
Qed.

Lemma UpdateAI_predictedY_total (fuel : nat) (aiPaddle : Paddle)
  (b : Ball) :
  (3 <= fuel)%nat ->
  exists y, UpdateAI_predictedY fuel aiPaddle b = Some y.
Proof.
  intro Hf. unfold UpdateAI_predictedY.
  destruct (0 <? vec_x (ball_velocity b)) eqn:E; [|eexists; reflexivity].
  qprop. rewrite fdiv_nonzero by lra.
  qcase; [|eexists; reflexivity].
  apply bounce_loop_total. exact Hf.
Qed.

(** [UpdateAI] moves the paddle only vertically and leaves it inside the
    screen; with fuel for the folding loop it returns. *)
Lemma UpdateAI_wp (fuel : nat) (aiPaddle : Paddle) (b : Ball) (game : Game) :
  wp (UpdateAI fuel aiPaddle b game)
     (fun p =>
        p = set_paddle_y aiPaddle (rec_y (paddle_rect p)) /\
        (rec_height (paddle_rect aiPaddle) <= inject_Z SCREEN_HEIGHT ->
         0 <= rec_y (paddle_rect p) <=
         inject_Z SCREEN_HEIGHT - rec_height (paddle_rect aiPaddle))).
Proof.
  unfold UpdateAI. cbv zeta.
  eapply wp_bind with (Q := fun _ => True);
    [apply wp_lift; intros; exact I|].
  intros predictedY _.
  eapply wp_bind with (Q := fun _ => True);
    [intros ? ? ? ?; exact I|]. intros r _.
  eapply wp_bind with (Q := fun _ => True);
    [intros ? ? ? ?; exact I|].
  intros targetY _. apply wp_ret.
  match goal with
  | |- context [if ?c then _ else _] => destruct c
  end; (split; [reflexivity|]); intro Hh;
    cbn [set_paddle_y set_paddle_rect set_rec_y paddle_rect rec_y rec_height];
    apply Clamp_bounds; lra.
Qed.

Lemma UpdateAI_total (fuel : nat) (aiPaddle : Paddle) (b : Ball)
  (game : Game) :
  (3 <= fuel)%nat -> tp (UpdateAI fuel aiPaddle b game) (fun _ => True).
Proof.
  intros Hf. unfold UpdateAI. cbv zeta.
  destruct (UpdateAI_predictedY_total fuel aiPaddle b Hf) as [y Hy].
  eapply tp_bind with (Q := fun _ => True);
    [eapply tp_lift; [exact Hy|exact I]|].
  intros predictedY _.
  eapply tp_bind; [apply GetRandomValue_tp; lia|]. intros r _.
  eapply tp_bind with (Q := fun _ => True).
  { match goal with
    | |- context [if ?c then _ else _] => destruct c
    end.
    - eapply tp_bind; [apply GetRandomValue_tp; lia|].
      intros e _. apply tp_ret. exact I.
    - apply tp_ret. exact I. }
  intros targetY _. apply tp_ret. exact I.
Qed.

(** C9. The prediction block of [UpdateAI] always yields a value, and so
    does [UpdateAI] as a whole: the division by the ball's horizontal
    velocity, which has no result on a zero divisor, is reached only under
    the test that this velocity is strictly positive, where it is the
    ordinary quotient; when the velocity is zero or negative the block
    yields the ball's current vertical position. *)
Theorem C9_intercept_division_guarded :
  forall (fuel : nat) (aiPaddle : Paddle) (b : Ball),
    (3 <= fuel)%nat ->
    (exists y, UpdateAI_predictedY fuel aiPaddle b = Some y) /\
    (vec_x (ball_velocity b) <= 0 ->
     UpdateAI_predictedY fuel aiPaddle b = Some (vec_y (ball_position b))) /\
    (0 < vec_x (ball_velocity b) ->
     fdiv (rec_x (paddle_rect aiPaddle) - vec_x (ball_position b))
          (vec_x (ball_velocity b)) =
     Some ((rec_x (paddle_rect aiPaddle) - vec_x (ball_position b)) /
           vec_x (ball_velocity b))) /\
    (fdiv (rec_x (paddle_rect aiPaddle) - vec_x (ball_position b)) 0 = None)
    /\
    (forall (game : Game) (w : Rng),
        exists p w', UpdateAI fuel aiPaddle b game w = Some (p, w')).
Proof.
  intros fuel aiPaddle b Hf. split; [|split; [|split; [|split]]].
  5:{ intros game w.
      destruct (UpdateAI_total fuel aiPaddle b game Hf w) as (p & w' & E & _).
      exists p, w'. exact E. }
  - apply UpdateAI_predictedY_total. exact Hf.
  - intro Hv. unfold UpdateAI_predictedY.
    destruct (0 <? vec_x (ball_velocity b)) eqn:E; [|reflexivity].
    qprop. lra.
  - intro Hv. apply fdiv_nonzero. lra.
  - reflexivity.
Qed.

Lemma C9_intercept_division_guarded_witness :
  (3 <= 3)%nat /\
  UpdateAI_predictedY 3 ai_paddle0 (ball_at 640 400 (-8) 3) = Some 400.
Proof.
  split; [lia|].
  apply (proj1 (proj2 (C9_intercept_division_guarded 3 ai_paddle0
                         (ball_at 640 400 (-8) 3) (le_n 3)))).
  cbn. discriminate.
Defined.

(** C6 evaluated on the code.  The ball is at (45, 760) with velocity
    (8, 6) and the AI paddle stands at x = 1245: the time to intercept is
    150 and the projection is 1660.  There [bounceDistance] is
    2 * 800 - 1660 = -60, the folding loop is not entered, and the
    predicted interception stays at 1660, outside [0, 800]. *)
Theorem C6_predictedY_out_of_range :
  forall fuel : nat,
    exists y,
      UpdateAI_predictedY (S fuel) ai_paddle0 (ball_at 45 760 8 6) = Some y /\
      y == 1660 /\ ~ (0 <= y <= inject_Z SCREEN_HEIGHT).
Proof.
  intro fuel. eexists. split; [vm_compute; reflexivity|].
  split; [reflexivity|]. intros [_ H]. apply H. reflexivity.
Qed.

(** ** Paddle collisions *)

Lemma CheckCollisionPointRec_y (point : Vector2) (r : Rectangle) :
  CheckCollisionPointRec point r = true ->
  rec_y r <= vec_y point /\ vec_y point < rec_y r + rec_height r.
Proof.
  unfold CheckCollisionPointRec. intro H.
  apply andb_prop in H. destruct H as [H H4].
  apply andb_prop in H. destruct H as [H H3].
  qprop. split; assumption.
Qed.

Lemma CheckCollisionPointRec_x (point : Vector2) (r : Rectangle) :
  CheckCollisionPointRec point r = true ->
  rec_x r <= vec_x point /\ vec_x point < rec_x r + rec_width r.
Proof.
  unfold CheckCollisionPointRec. intro H.
  apply andb_prop in H. destruct H as [H H4].
  apply andb_prop in H. destruct H as [H H3].
  apply andb_prop in H. destruct H as [H1 H2].
  qprop. split; assumption.
Qed.

Lemma CheckCollisionCircleRec_y (center : Vector2) (radius : Q)
  (r : Rectangle) :
  CheckCollisionCircleRec center radius r = true ->
  fabsf (vec_y center - (rec_y r + rec_height r / 2)) <=
  rec_height r / 2 + radius.
Proof.
  unfold CheckCollisionCircleRec. cbv zeta. intro H.
  destruct (rec_width r / 2 + radius <?
            fabsf (vec_x center - (rec_x r + rec_width r / 2)));
    [discriminate|].
  destruct (rec_height r / 2 + radius <?
            fabsf (vec_y center - (rec_y r + rec_height r / 2))) eqn:E;
    [discriminate|].
  qprop. exact E.
Qed.

Lemma CheckCollisionCircleRec_x (center : Vector2) (radius : Q)
  (r : Rectangle) :
  CheckCollisionCircleRec center radius r = true ->
  fabsf (vec_x center - (rec_x r + rec_width r / 2)) <=
  rec_width r / 2 + radius.
Proof.
  unfold CheckCollisionCircleRec. cbv zeta. intro H.
  destruct (rec_width r / 2 + radius <?
            fabsf (vec_x center - (rec_x r + rec_width r / 2))) eqn:E;
    [discriminate|].
  qprop. exact E.
Qed.

(** A hit is accepted by the point test on the doubly inflated [hitBox] or
    by the circle test on the inflated [paddleRect], and only while the ball
    moves toward the paddle's side. *)
Lemma CheckPaddleCollision_cases (b : Ball) (paddle : Paddle) (game : Game) :
  CheckPaddleCollision b paddle game = true ->
  let paddleRect :=
    mkRectangle (rec_x (paddle_rect paddle) - ball_radius b)
      (rec_y (paddle_rect paddle))
      (rec_width (paddle_rect paddle) + ball_radius b * 2)
      (rec_height (paddle_rect paddle)) in
  let hitBox :=
    mkRectangle (rec_x paddleRect - ball_radius b)
      (rec_y paddleRect - ball_radius b)
      (rec_width paddleRect + ball_radius b * 2)
      (rec_height paddleRect + ball_radius b * 2) in
  ((rec_x paddleRect < inject_Z (SCREEN_WIDTH ÷ 2) /\
    vec_x (ball_velocity b) < 0) \/
   (inject_Z (SCREEN_WIDTH ÷ 2) < rec_x paddleRect /\
    0 < vec_x (ball_velocity b))) /\
  (CheckCollisionPointRec (ball_position b) hitBox = true \/
   CheckCollisionCircleRec (ball_position b) (ball_radius b) paddleRect
   = true).
Proof.
  unfold CheckPaddleCollision. cbv zeta.
  cbn [rec_x rec_y rec_width rec_height vec_x vec_y].
  intro H.
  match type of H with
  | (if negb ?m then _ else _) = _ => destruct m eqn:Em
  end; cbn [negb] in H; [|discriminate].
  split.
  - apply orb_prop in Em. destruct Em as [Em|Em];
      apply andb_prop in Em; destruct Em as [E1 E2]; qprop; auto.
  - match type of H with
    | (if ?c then _ else _) = _ => destruct c eqn:Ec
    end.
    + apply andb_prop in Ec. destruct Ec as [_ Ec].
      apply orb_prop in Ec. exact Ec.
    + right. exact H.
Qed.

(** C5 evaluated on the code.  The player's paddle spans y = 300..500
    (vertical centre 400); a ball of radius 20 centred at (30, 515) and
    moving left overlaps its lower end and is accepted by
    [CheckPaddleCollision], and the hit offset the tick computes for it,
    which the source comments as a normalized hit position, is
    (515 - 400) / 100 = 1.15, outside [-1, 1]: nothing clamps it. *)
Theorem C5_hit_offset_out_of_range :
  CheckPaddleCollision (ball_at 30 515 (-8) 0) player_paddle0 initial_game
  = true /\
  CheckCollisionCircleRec (mkVector2 30 515) 20
    (mkRectangle (10 - 20) 300 (25 + 20 * 2) 200) = true /\
  exists h,
    hitPosition_of (ball_at 30 515 (-8) 0) player_paddle0 = Some h /\
    h == 1.15 /\ ~ (-1 <= h <= 1).
Proof.
  split; [reflexivity|]. split; [reflexivity|].
  eexists. split; [vm_compute; reflexivity|].
  split; [reflexivity|]. intros [_ H]. apply H. reflexivity.
Qed.

(** The speed a resolved hit gives the ball. *)
Lemma resolve_hit_inv (game : Game) (paddle : Paddle) (leftPaddle : bool)
  (w : Rng) (g' : Game) (w' : Rng) :
  resolve_hit game paddle leftPaddle w = Some (g', w') ->
  exists h ps k,
    hitPosition_of (ball game) paddle = Some h /\
    g' =
    set_activeParticles
      (set_particles
         (set_screenShake
            (set_ball game
               (set_ball_velocity (ball game)
                  (mkVector2
                     (if leftPaddle
                      then fminf (fabsf (vec_x (ball_velocity (ball game))) +
                                  SPEED_INCREMENT)
                                 (MAX_BALL_SPEED * ballSpeedMultiplier game)
                      else - fminf (fabsf (vec_x (ball_velocity (ball game)))
                                    + SPEED_INCREMENT)
                                   (MAX_BALL_SPEED * ballSpeedMultiplier game))
                     (h *
                      (fminf (fabsf (vec_x (ball_velocity (ball game))) +
                              SPEED_INCREMENT)
                             (MAX_BALL_SPEED * ballSpeedMultiplier game) *
                       0.75)))))
            5)
         ps) k.
Proof.
  unfold resolve_hit, bind, lift. intro E.
  destruct (hitPosition_of (ball game) paddle) as [h|]; [|discriminate].
  cbv zeta in E.
  match type of E with
  | CreateParticleEffect ?g ?p ?c ?n w = _ =>
    destruct (CreateParticleEffect_tp g p c n w)
      as (g1 & w1 & E1 & (ps & k & Hg1) & _)
  end.
  rewrite E in E1. injection E1 as Eg Ew.
  exists h, ps, k. split; [reflexivity|]. rewrite Eg. exact Hg1.
Qed.

Lemma resolve_hit_total (game : Game) (paddle : Paddle) (leftPaddle : bool)
  (w : Rng) :
  ~ rec_height (paddle_rect paddle) == 0 ->
  exists g' w', resolve_hit game paddle leftPaddle w = Some (g', w').
Proof.
  intro Hh. unfold resolve_hit, bind, lift, hitPosition_of.
  rewrite fdiv_nonzero.
  - cbv zeta.
    match goal with
    | |- exists g' w', CreateParticleEffect ?g ?p ?c ?n w = _ =>
      destruct (CreateParticleEffect_tp g p c n w) as (g1 & w1 & E1 & _)
    end.
    exists g1, w1. exact E1.
  - intro H0. apply Hh.
    unfold Qdiv in H0. change (/ 2) with (1 # 2) in H0. lra.
Qed.


(** ** The blocks of a playing tick *)

Lemma keeps_setup_refl (g : Game) : keeps_setup g g.
Proof. unfold keeps_setup. repeat split. Qed.

Lemma keeps_setup_trans (g1 g2 g3 : Game) :
  keeps_setup g1 g2 -> keeps_setup g2 g3 -> keeps_setup g1 g3.
Proof.
  unfold keeps_setup.
  intros (A1 & A2 & A3 & A4 & A5 & A6) (B1 & B2 & B3 & B4 & B5 & B6).
  repeat split; congruence.
Qed.

Lemma UpdateGame_playerPaddle_spec (inp : Input) (game : Game) :
  exists y,
    UpdateGame_playerPaddle inp game =
    set_playerPaddle game (set_paddle_y (playerPaddle game) y) /\
    (rec_height (paddle_rect (playerPaddle game)) <= inject_Z SCREEN_HEIGHT ->
     0 <= y <=
     inject_Z SCREEN_HEIGHT - rec_height (paddle_rect (playerPaddle game))).
Proof.
  unfold UpdateGame_playerPaddle. cbv zeta.
  eexists. split; [reflexivity|].
  intro Hh.
  cbn [playerPaddle set_playerPaddle set_paddle_y set_paddle_rect set_rec_y
       paddle_rect rec_y rec_height].
  apply Clamp_bounds. lra.
Qed.

Lemma UpdateGame_secondPaddle_inv (fuel : nat) (inp : Input) (game : Game)
  (w : Rng) (g1 : Game) (w1 : Rng) :
  UpdateGame_secondPaddle fuel inp game w = Some (g1, w1) ->
  exists y,
    g1 = set_aiPaddle game (set_paddle_y (aiPaddle game) y) /\
    (rec_height (paddle_rect (aiPaddle game)) <= inject_Z SCREEN_HEIGHT ->
     0 <= y <=
     inject_Z SCREEN_HEIGHT - rec_height (paddle_rect (aiPaddle game))).
Proof.
  unfold UpdateGame_secondPaddle. destruct (mode game).
  - intro E. unfold bind in E.
    destruct (UpdateAI fuel (aiPaddle game) (ball game) game w)
      as [[p w2]|] eqn:Ep; [|discriminate].
    destruct (UpdateAI_wp fuel (aiPaddle game) (ball game) game _ _ _ Ep)
      as [Hp Hb].
    inversion E; subst. exists (rec_y (paddle_rect p)).
    split; [|exact Hb]. rewrite <- Hp. reflexivity.
  - cbv zeta. intro E. inversion E; subst.
    eexists. split; [reflexivity|]. intro Hh.
    cbn [aiPaddle set_aiPaddle set_paddle_y set_paddle_rect set_rec_y
         paddle_rect rec_y rec_height].
    apply Clamp_bounds. lra.
Qed.

Lemma UpdateGame_secondPaddle_total (fuel : nat) (inp : Input) (game : Game)
  (w : Rng) :
  (3 <= fuel)%nat ->
  exists g1 w1, UpdateGame_secondPaddle fuel inp game w = Some (g1, w1).
Proof.
  intro Hf. unfold UpdateGame_secondPaddle. destruct (mode game).
  - destruct (UpdateAI_total fuel (aiPaddle game) (ball game) game Hf w)
      as (p & w1 & E & _).
    unfold bind. rewrite E. eexists. eexists. reflexivity.
  - eexists. eexists. reflexivity.
Qed.

Lemma UpdateGame_moveBall_setup (game : Game) :
  keeps_setup game (UpdateGame_moveBall game).
Proof. unfold keeps_setup. repeat split. Qed.

Lemma UpdateGame_walls_setup (game : Game) :
  keeps_setup game (UpdateGame_walls game).
Proof.
  unfold UpdateGame_walls, keeps_setup. cbv zeta.
  match goal with
  | |- context [if ?c then _ else _] => destruct c
  end; repeat split.
Qed.

(** The wall block on a ball of radius at most 399: the horizontal data
    are kept; when the ball reaches a wall the vertical velocity is negated
    and the ball ends at least a radius away from both walls. *)
Lemma UpdateGame_walls_spec (game : Game) :
  let b := ball game in
  let b' := ball (UpdateGame_walls game) in
  vec_x (ball_position b') = vec_x (ball_position b) /\
  vec_x (ball_velocity b') = vec_x (ball_velocity b) /\
  ball_radius b' = ball_radius b /\
  ((vec_y (ball_position b) - ball_radius b <= 0 \/
    inject_Z SCREEN_HEIGHT <= vec_y (ball_position b) + ball_radius b) ->
   vec_y (ball_velocity b') = vec_y (ball_velocity b) * -1 /\
   (0 <= ball_radius b <= 399 ->
    ball_radius b <= vec_y (ball_position b') <=
    inject_Z SCREEN_HEIGHT - ball_radius b)) /\
  (~ (vec_y (ball_position b) - ball_radius b <= 0 \/
      inject_Z SCREEN_HEIGHT <= vec_y (ball_position b) + ball_radius b) ->
   b' = b).
Proof.
  cbv zeta. unfold UpdateGame_walls. cbv zeta.
  unfold SCREEN_HEIGHT, WALL_BOUNCE_BUFFER. change (inject_Z 800) with 800.
  destruct (vec_y (ball_position (ball game)) - ball_radius (ball game) <=? 0)
    eqn:E1;
  [|destruct (800 <=? vec_y (ball_position (ball game)) +
                      ball_radius (ball game)) eqn:E2];
  cbn [orb]; qprop.
  3:{ split; [reflexivity|]. split; [reflexivity|]. split; [reflexivity|].
      split; [intros [H|H]; exfalso; lra | intros _; reflexivity]. }
  all: cbn [ball set_ball ball_position ball_velocity ball_radius
            set_ball_velocity set_ball_y set_ball_position vec_x vec_y].
  all: repeat (qcase;
               cbn [ball set_ball ball_position ball_velocity ball_radius
                    set_ball_velocity set_ball_y set_ball_position
                    vec_x vec_y] in *;
               qprop).
  all: split; [reflexivity|]; split; [reflexivity|]; split; [reflexivity|].
  all: split;
    [intros _; split; [reflexivity|intros Hr; lra]
    |intros Hn; exfalso; apply Hn; first [left; lra | right; lra]].
Qed.

(** A hit block writes the ball's velocity, the screen shake and the pool;
    without a collision it writes nothing. *)
Lemma hit_block_inv (game : Game) (paddle : Paddle) (leftPaddle : bool)
  (w : Rng) (g' : Game) (w' : Rng) :
  (if CheckPaddleCollision (ball game) paddle game
   then resolve_hit game paddle leftPaddle
   else ret game) w = Some (g', w') ->
  keeps_setup game g' /\
  state g' = state game /\
  playerScore g' = playerScore game /\ aiScore g' = aiScore game /\
  ball_position (ball g') = ball_position (ball game) /\
  ball_radius (ball g') = ball_radius (ball game) /\
  (CheckPaddleCollision (ball game) paddle game = false ->
   g' = game /\ w' = w).
Proof.
  destruct (CheckPaddleCollision (ball game) paddle game).
  - intro E. apply resolve_hit_inv in E.
    destruct E as (h & ps & k & _ & ->).
    unfold keeps_setup. repeat split; discriminate.
  - intro E. inversion E; subst.
    split; [apply keeps_setup_refl|]. repeat split.
Qed.

Lemma hit_block_total (game : Game) (paddle : Paddle) (leftPaddle : bool)
  (w : Rng) :
  ~ rec_height (paddle_rect paddle) == 0 ->
  exists g' w',
    (if CheckPaddleCollision (ball game) paddle game
     then resolve_hit game paddle leftPaddle
     else ret game) w = Some (g', w').
Proof.
  intro Hh. destruct (CheckPaddleCollision (ball game) paddle game).
  - apply resolve_hit_total. exact Hh.
  - eexists. eexists. reflexivity.
Qed.

(** The scoring block: inside the court it writes nothing; otherwise one
    score is incremented and the ball is served from the centre. *)
Lemma UpdateGame_scoring_inv (inp : Input) (game : Game) (w : Rng)
  (g' : Game) (w' : Rng) :
  UpdateGame_scoring inp game w = Some (g', w') ->
  keeps_setup game g' /\
  state g' = state game /\
  ball_radius (ball g') = ball_radius (ball game) /\
  ((inject_Z (- BALL_RADIUS) <= vec_x (ball_position (ball game)) <=
    inject_Z (SCREEN_WIDTH + BALL_RADIUS) /\ g' = game /\ w' = w) \/
   ((vec_x (ball_position (ball game)) < inject_Z (- BALL_RADIUS) \/
     inject_Z (SCREEN_WIDTH + BALL_RADIUS) <
     vec_x (ball_position (ball game))) /\
    ball_position (ball g') =
    mkVector2 (inject_Z (SCREEN_WIDTH ÷ 2)) (inject_Z (SCREEN_HEIGHT ÷ 2)))).
Proof.
  unfold UpdateGame_scoring.
  destruct (vec_x (ball_position (ball game)) <? inject_Z (- BALL_RADIUS))
    eqn:E1;
    [|destruct (inject_Z (SCREEN_WIDTH + BALL_RADIUS) <?
                vec_x (ball_position (ball game))) eqn:E2];
    cbv zeta; intro E; qprop.
  - destruct (ResetBall_tp inp (set_aiScore game (int_incr (aiScore game)))
                false w) as (g1 & w1 & E' & r & ps & k & _ & Hg1).
    rewrite E in E'. injection E' as Eg Ew. rewrite Eg, Hg1.
    unfold keeps_setup. repeat split. right. split; [left; exact E1|].
    reflexivity.
  - destruct (ResetBall_tp inp
                (set_playerScore game (int_incr (playerScore game)))
                true w) as (g1 & w1 & E' & r & ps & k & _ & Hg1).
    rewrite E in E'. injection E' as Eg Ew. rewrite Eg, Hg1.
    unfold keeps_setup. repeat split. right. split; [right; exact E2|].
    reflexivity.
  - inversion E; subst. split; [apply keeps_setup_refl|].
    split; [reflexivity|]. split; [reflexivity|]. left.
    repeat split; assumption.
Qed.

Lemma UpdateGame_scoring_total (inp : Input) (game : Game) (w : Rng) :
  exists g' w', UpdateGame_scoring inp game w = Some (g', w').
Proof.
  unfold UpdateGame_scoring. cbv zeta.
  destruct (vec_x (ball_position (ball game)) <? inject_Z (- BALL_RADIUS));
    [|destruct (inject_Z (SCREEN_WIDTH + BALL_RADIUS) <?
                vec_x (ball_position (ball game)))].
  - destruct (ResetBall_tp inp (set_aiScore game (int_incr (aiScore game)))
                false w) as (g1 & w1 & E' & _).
    exists g1, w1. exact E'.
  - destruct (ResetBall_tp inp
                (set_playerScore game (int_incr (playerScore game)))
                true w) as (g1 & w1 & E' & _).
    exists g1, w1. exact E'.
  - eexists. eexists. reflexivity.
Qed.

(** The win check writes the phase only, and writes STATE_GAME_OVER when a
    score has reached the win score. *)
Lemma UpdateGame_gameOver_spec (game : Game) :
  let g' := UpdateGame_gameOver game in
  keeps_setup game g' /\ ball g' = ball game /\
  playerScore g' = playerScore game /\ aiScore g' = aiScore game /\
  (((winScore g' <= playerScore g')%Z \/ (winScore g' <= aiScore g')%Z) ->
   state g' = STATE_GAME_OVER) /\
  (~ ((winScore g' <= playerScore g')%Z \/ (winScore g' <= aiScore g')%Z) ->
   state g' = state game).
Proof.
  cbv zeta. unfold UpdateGame_gameOver, keeps_setup.
  destruct (winScore game <=? playerScore game)%Z eqn:E1;
    [|destruct (winScore game <=? aiScore game)%Z eqn:E2]; cbn [orb].
  - repeat split. intro H. exfalso. apply H. left.
    apply Z.leb_le in E1. exact E1.
  - repeat split. intro H. exfalso. apply H. right.
    apply Z.leb_le in E2. exact E2.
  - apply Z.leb_gt in E1. apply Z.leb_gt in E2.
    repeat split. intros [H|H]; exfalso; lia.
Qed.

(** ** The playing tick as a whole *)

(** A playing tick in which the pause key is not pressed runs the blocks
    in sequence. *)
Lemma UpdateGame_playing_inv (fuel : nat) (inp : Input) (game : Game)
  (w : Rng) (g' : Game) (w' : Rng) :
  state game = STATE_PLAYING -> IsKeyPressed inp KEY_P = false ->
  UpdateGame fuel inp game w = Some (g', w') ->
  exists g1 w1 g3 w3 g4 w4 g5,
    UpdateGame_secondPaddle fuel inp (UpdateGame_playerPaddle inp game) w
    = Some (g1, w1) /\
    UpdateGame_playerHit (UpdateGame_walls (UpdateGame_moveBall g1)) w1
    = Some (g3, w3) /\
    UpdateGame_aiHit g3 w3 = Some (g4, w4) /\
    UpdateGame_scoring inp g4 w4 = Some (g5, w') /\
    g' = UpdateGame_gameOver g5.
Proof.
  intros Hs Hp. unfold UpdateGame. rewrite Hs, Hp. cbv zeta. unfold bind.
  destruct (UpdateGame_secondPaddle fuel inp
              (UpdateGame_playerPaddle inp game) w)
    as [[g1 w1]|] eqn:E1; [|discriminate].
  destruct (UpdateGame_playerHit (UpdateGame_walls (UpdateGame_moveBall g1))
              w1) as [[g3 w3]|] eqn:E3; [|discriminate].
  destruct (UpdateGame_aiHit g3 w3) as [[g4 w4]|] eqn:E4; [|discriminate].
  destruct (UpdateGame_scoring inp g4 w4) as [[g5 w5]|] eqn:E5;
    [|discriminate].
  intro E. inversion E; subst.
  exists g1, w1, g3, w3, g4, w4, g5. repeat split; assumption.
Qed.

(** With fuel for the AI loop and paddles of non-zero height, the playing
    tick returns. *)
Lemma UpdateGame_playing_total (fuel : nat) (inp : Input) (game : Game)
  (w : Rng) :
  state game = STATE_PLAYING -> (3 <= fuel)%nat ->
  ~ rec_height (paddle_rect (playerPaddle game)) == 0 ->
  ~ rec_height (paddle_rect (aiPaddle game)) == 0 ->
  exists g' w', UpdateGame fuel inp game w = Some (g', w').
Proof.
  intros Hs Hf Hh1 Hh2. unfold UpdateGame. rewrite Hs.
  destruct (IsKeyPressed inp KEY_P); [eexists; eexists; reflexivity|].
  cbv zeta. unfold bind.
  destruct (UpdateGame_playerPaddle_spec inp game) as (y1 & Ey1 & _).
  destruct (UpdateGame_secondPaddle_total fuel inp
              (UpdateGame_playerPaddle inp game) w Hf) as (g1 & w1 & E1).
  rewrite E1.
  destruct (UpdateGame_secondPaddle_inv _ _ _ _ _ _ E1) as (y2 & Eg1 & _).
  pose proof (UpdateGame_moveBall_setup g1) as K1.
  pose proof (UpdateGame_walls_setup (UpdateGame_moveBall g1)) as K2.
  pose proof (keeps_setup_trans _ _ _ K1 K2) as K.
  destruct K as (_ & Kp & Ka & _).
  assert (Hp2 : rec_height (paddle_rect (playerPaddle g1)) =
                rec_height (paddle_rect (playerPaddle game))).
  { rewrite Eg1, Ey1. reflexivity. }
  assert (Ha2 : rec_height (paddle_rect (aiPaddle g1)) =
                rec_height (paddle_rect (aiPaddle game))).
  { rewrite Eg1, Ey1. reflexivity. }
  destruct (hit_block_total (UpdateGame_walls (UpdateGame_moveBall g1))
              (playerPaddle (UpdateGame_walls (UpdateGame_moveBall g1)))
              true w1) as (g3 & w3 & E3).
  { rewrite Kp, Hp2. exact Hh1. }
  unfold UpdateGame_playerHit. rewrite E3.
  destruct (hit_block_inv _ _ _ _ _ _ E3) as ((_ & _ & Ka3 & _) & _).
  destruct (hit_block_total g3 (aiPaddle g3) false w3) as (g4 & w4 & E4).
  { rewrite Ka3, Ka, Ha2. exact Hh2. }
  unfold UpdateGame_aiHit. rewrite E4.
  destruct (UpdateGame_scoring_total inp g4 w4) as (g5 & w5 & E5).
  rewrite E5. eexists. eexists. reflexivity.
Qed.

(** What a playing tick without pause does to everything but the ball. *)
Lemma UpdateGame_playing_summary (fuel : nat) (inp : Input) (game : Game)
  (w : Rng) (g' : Game) (w' : Rng) :
  state game = STATE_PLAYING -> IsKeyPressed inp KEY_P = false ->
  UpdateGame fuel inp game w = Some (g', w') ->
  mode g' = mode game /\ winScore g' = winScore game /\
  fullscreen g' = fullscreen game /\
  ballSpeedMultiplier g' = ballSpeedMultiplier game /\
  (exists y,
      playerPaddle g' = set_paddle_y (playerPaddle game) y /\
      (rec_height (paddle_rect (playerPaddle game)) <= inject_Z SCREEN_HEIGHT
       -> 0 <= y <= inject_Z SCREEN_HEIGHT -
                     rec_height (paddle_rect (playerPaddle game)))) /\
  (exists y,
      aiPaddle g' = set_paddle_y (aiPaddle game) y /\
      (rec_height (paddle_rect (aiPaddle game)) <= inject_Z SCREEN_HEIGHT
       -> 0 <= y <= inject_Z SCREEN_HEIGHT -
                     rec_height (paddle_rect (aiPaddle game)))) /\
  (((winScore g' <= playerScore g')%Z \/ (winScore g' <= aiScore g')%Z) ->
   state g' = STATE_GAME_OVER) /\
  (~ ((winScore g' <= playerScore g')%Z \/ (winScore g' <= aiScore g')%Z) ->
   state g' = STATE_PLAYING).
Proof.
  intros Hs Hp E.
  destruct (UpdateGame_playing_inv _ _ _ _ _ _ Hs Hp E)
    as (g1 & w1 & g3 & w3 & g4 & w4 & g5 & E1 & E3 & E4 & E5 & ->).
  destruct (UpdateGame_playerPaddle_spec inp game) as (y1 & Ey1 & Hy1).
  destruct (UpdateGame_secondPaddle_inv _ _ _ _ _ _ E1) as (y2 & Eg1 & Hy2).
  pose proof (UpdateGame_moveBall_setup g1) as K1.
  pose proof (UpdateGame_walls_setup (UpdateGame_moveBall g1)) as K2.
  destruct (hit_block_inv _ _ _ _ _ _ E3) as (K3 & S3 & _).
  destruct (hit_block_inv _ _ _ _ _ _ E4) as (K4 & S4 & _).
  destruct (UpdateGame_scoring_inv _ _ _ _ _ E5) as (K5 & S5 & _).
  destruct (UpdateGame_gameOver_spec g5) as (K6 & _ & _ & _ & Hover & Hgo).
  cbv zeta in Hover, Hgo.
  pose proof (keeps_setup_trans _ _ _ K1
               (keeps_setup_trans _ _ _ K2
                  (keeps_setup_trans _ _ _ K3
                     (keeps_setup_trans _ _ _ K4
                        (keeps_setup_trans _ _ _ K5 K6))))) as K.
  destruct K as (Km & Kp & Ka & Kw & Kf & Kb).
  assert (Sg1 : state g1 = STATE_PLAYING).
  { rewrite Eg1, Ey1. exact Hs. }
  assert (Sg5 : state g5 = STATE_PLAYING).
  { rewrite S5, S4, S3.
    unfold UpdateGame_walls. cbv zeta.
    match goal with
    | |- context [if ?c then _ else _] => destruct c
    end; exact Sg1. }
  rewrite Ey1 in Hy2.
  cbn [aiPaddle set_aiPaddle set_playerPaddle paddle_rect rec_height
       set_paddle_y set_paddle_rect set_rec_y] in Hy2.
  split; [rewrite Km, Eg1, Ey1; reflexivity|].
  split; [rewrite Kw, Eg1, Ey1; reflexivity|].
  split; [rewrite Kf, Eg1, Ey1; reflexivity|].
  split; [rewrite Kb, Eg1, Ey1; reflexivity|].
  split;
    [exists y1; rewrite Kp, Eg1, Ey1; split; [reflexivity|exact Hy1]|].
  split;
    [exists y2; rewrite Ka, Eg1, Ey1; split; [reflexivity|exact Hy2]|].
  split; [exact Hover|].
  intro Hn. rewrite (Hgo Hn). exact Sg5.
Qed.

(** [UpdateGame] never writes the speed multiplier. *)
Lemma UpdateGame_multiplier (fuel : nat) (inp : Input) (game : Game)
  (w : Rng) (g' : Game) (w' : Rng) :
  UpdateGame fuel inp game w = Some (g', w') ->
  ballSpeedMultiplier g' = ballSpeedMultiplier game.
Proof.
  intro E. destruct (state game) eqn:Hs.
  - unfold UpdateGame in E. rewrite Hs in E. inversion E; subst. reflexivity.
  - unfold UpdateGame in E. rewrite Hs in E. inversion E; subst. reflexivity.
  - destruct (IsKeyPressed inp KEY_P) eqn:Hp.
    + unfold UpdateGame in E. rewrite Hs, Hp in E.
      inversion E; subst. reflexivity.
    + apply (UpdateGame_playing_summary _ _ _ _ _ _ Hs Hp E).
  - unfold UpdateGame in E. rewrite Hs in E.
    destruct (IsKeyPressed inp KEY_P); inversion E; subst; reflexivity.
  - unfold UpdateGame in E. rewrite Hs in E.
    destruct (IsKeyPressed inp KEY_R).
    + destruct (InitGame_tp inp game (mode game) w)
        as (g1 & w1 & E1 & r & ps & _ & Hg1).
      rewrite E in E1. injection E1 as Eg Ew. rewrite Eg, Hg1. reflexivity.
    + destruct (IsKeyPressed inp KEY_M); inversion E; subst; reflexivity.
Qed.

(** A playing tick returns and leaves both paddles on the screen, for
    paddles whose height is positive and at most the screen height; the
    pausing tick moves nothing. *)
Lemma UpdateGame_paddles_on_screen :
  forall (fuel : nat) (inp : Input) (game : Game) (w : Rng),
    let hp := rec_height (paddle_rect (playerPaddle game)) in
    let ha := rec_height (paddle_rect (aiPaddle game)) in
    state game = STATE_PLAYING -> (3 <= fuel)%nat ->
    0 < hp <= inject_Z SCREEN_HEIGHT ->
    0 < ha <= inject_Z SCREEN_HEIGHT ->
    (IsKeyPressed inp KEY_P = true ->
     0 <= rec_y (paddle_rect (playerPaddle game)) <=
       inject_Z SCREEN_HEIGHT - hp /\
     0 <= rec_y (paddle_rect (aiPaddle game)) <=
       inject_Z SCREEN_HEIGHT - ha) ->
    exists g' w',
      UpdateGame fuel inp game w = Some (g', w') /\
      rec_height (paddle_rect (playerPaddle g')) = hp /\
      rec_height (paddle_rect (aiPaddle g')) = ha /\
      0 <= rec_y (paddle_rect (playerPaddle g')) <=
        inject_Z SCREEN_HEIGHT - hp /\
      0 <= rec_y (paddle_rect (aiPaddle g')) <=
        inject_Z SCREEN_HEIGHT - ha.
Proof.
  intros fuel inp game w hp ha Hs Hf Hhp Hha Hpause.
  destruct (IsKeyPressed inp KEY_P) eqn:Hp.
  - exists (set_state game STATE_PAUSED), w. split.
    + unfold UpdateGame. rewrite Hs, Hp. reflexivity.
    + destruct (Hpause eq_refl) as [H1 H2].
      cbn [playerPaddle aiPaddle set_state].
      split; [reflexivity|]. split; [reflexivity|]. split; assumption.
  - destruct (UpdateGame_playing_total fuel inp game w Hs Hf)
      as (g' & w' & E).
    { subst hp. lra. }
    { subst ha. lra. }
    exists g', w'. split; [exact E|].
    destruct (UpdateGame_playing_summary _ _ _ _ _ _ Hs Hp E)
      as (_ & _ & _ & _ & (y1 & -> & Hy1) & (y2 & -> & Hy2) & _).
    cbn [set_paddle_y set_paddle_rect set_rec_y paddle_rect rec_y
         rec_height].
    split; [reflexivity|]. split; [reflexivity|].
    split; [apply Hy1; apply Hhp|apply Hy2; apply Hha].
Qed.

(** C2. (1) When [UpdateGame] runs a playing tick through its scoring step
    (the pause key is not pressed) and hands back a game in which either
    score has reached [winScore], that game is in STATE_GAME_OVER; such a
    tick does hand back a game when the AI loop has fuel and the paddles
    have non-zero height.  (2) In STATE_PAUSED the call returns the game
    itself, with the phase set to STATE_PLAYING when the pause key is
    pressed.  (3) In STATE_GAME_OVER the call is [InitGame] with the same
    mode when the restart key is pressed; otherwise it returns the game
    itself, with the phase set to STATE_MODE_SELECT when the menu key is
    pressed.  (4) Hence in both phases, restart apart, the ball, both
    paddles, both scores and the oracle are unchanged. *)
Theorem C2_win_detection_and_frozen_phases :
  forall (fuel : nat) (inp : Input) (game : Game) (w : Rng),
    (state game = STATE_PLAYING -> IsKeyPressed inp KEY_P = false ->
     (forall g' w',
         UpdateGame fuel inp game w = Some (g', w') ->
         (winScore g' <= playerScore g')%Z \/ (winScore g' <= aiScore g')%Z ->
         state g' = STATE_GAME_OVER) /\
     ((3 <= fuel)%nat ->
      ~ rec_height (paddle_rect (playerPaddle game)) == 0 ->
      ~ rec_height (paddle_rect (aiPaddle game)) == 0 ->
      exists g' w', UpdateGame fuel inp game w = Some (g', w'))) /\
    (state game = STATE_PAUSED ->
     UpdateGame fuel inp game w =
     Some (if IsKeyPressed inp KEY_P then set_state game STATE_PLAYING
           else game, w)) /\
    (state game = STATE_GAME_OVER ->
     UpdateGame fuel inp game w =
     if IsKeyPressed inp KEY_R then InitGame inp game (mode game) w
     else Some (if IsKeyPressed inp KEY_M
                then set_state game STATE_MODE_SELECT
                else game, w)) /\
    (state game = STATE_PAUSED \/
     (state game = STATE_GAME_OVER /\ IsKeyPressed inp KEY_R = false) ->
     exists g',
       UpdateGame fuel inp game w = Some (g', w) /\
       ball g' = ball game /\
       playerPaddle g' = playerPaddle game /\ aiPaddle g' = aiPaddle game /\
       playerScore g' = playerScore game /\ aiScore g' = aiScore game).
Proof.
  intros fuel inp game w. split; [|split; [|split]].
  - intros Hs Hp. split.
    + intros g' w' E Hwin.
      apply (UpdateGame_playing_summary _ _ _ _ _ _ Hs Hp E). exact Hwin.
    + intros Hf H1 H2. apply UpdateGame_playing_total; assumption.
  - intro Hs. unfold UpdateGame. rewrite Hs.
    destruct (IsKeyPressed inp KEY_P); reflexivity.
  - intro Hs. unfold UpdateGame. rewrite Hs.
    destruct (IsKeyPressed inp KEY_R); [reflexivity|].
    destruct (IsKeyPressed inp KEY_M); reflexivity.
  - intros [Hs|[Hs HR]]; unfold UpdateGame; rewrite Hs.
    + destruct (IsKeyPressed inp KEY_P); eexists;
        (split; [reflexivity|repeat split]).
    + rewrite HR. destruct (IsKeyPressed inp KEY_M); eexists;
        (split; [reflexivity|repeat split]).
Qed.

(** [DrawGame] writes the screen shake and the pool only. *)
Lemma DrawGame_inv (inp : Input) (game : Game) (w : Rng) (g' : Game)
  (w' : Rng) :
  DrawGame inp game w = Some (g', w') ->
  exists sh so ps k,
    g' =
    set_activeParticles
      (set_particles (set_shakeOffset (set_screenShake game sh) so) ps) k.
Proof.
  unfold DrawGame. cbv zeta. unfold bind.
  match goal with
  | |- context [if ?c then _ else _] => destruct c
  end.
  - cbn [screenShake set_screenShake].
    destruct (GetRandomValue (-10) 10 w) as [[rx w1]|]; [|discriminate].
    destruct (GetRandomValue (-10) 10 w1) as [[ry w2]|]; [|discriminate].
    intro E. inversion E; subst.
    match goal with
    | |- context [UpdateAndDrawParticles inp ?g] =>
      destruct (UpdateAndDrawParticles_frame inp g) as (ps & k & ->)
    end.
    eexists. eexists. exists ps, k. reflexivity.
  - intro E. inversion E; subst.
    match goal with
    | |- context [UpdateAndDrawParticles inp ?g] =>
      destruct (UpdateAndDrawParticles_frame inp g) as (ps & k & ->)
    end.
    eexists. eexists. exists ps, k. reflexivity.
Qed.

(** In the menu, the multiplier is written by the slider branch only. *)
Lemma UpdateModeSelect_multiplier (inp : Input) (game : Game)
  (dragging : bool) (w : Rng) (g' : Game) (d' : bool) (w' : Rng) :
  UpdateModeSelect inp game dragging w = Some ((g', d'), w') ->
  ballSpeedMultiplier g' <> ballSpeedMultiplier game ->
  IsMouseButtonDown inp = true /\
  (dragging = true \/
   CheckCollisionPointRec (GetMousePosition inp)
     (mkRectangle 490 590 300 40) = true).
Proof.
  unfold UpdateModeSelect. cbv zeta. unfold bind. intros E Hne.
  assert (Hinit : forall g m w0 g1 w1,
             InitGame inp g m w0 = Some (g1, w1) ->
             ballSpeedMultiplier g1 = ballSpeedMultiplier g).
  { intros g m w0 g1 w1 E0.
    destruct (InitGame_tp inp g m w0) as (g2 & w2 & E2 & r & ps & _ & Hg2).
    rewrite E0 in E2. injection E2 as Eg Ew. rewrite Eg, Hg2. reflexivity. }
  match type of E with
  | match ?m w with _ => _ end = _ =>
    destruct (m w) as [[g1 w1]|] eqn:E1; [|discriminate]
  end.
  assert (Hfirst : forall g0 w0,
             (if IsKeyPressed inp KEY_ONE || IsKeyPressed inp KEY_KP_1
              then InitGame inp game MODE_AI
              else if IsKeyPressed inp KEY_TWO || IsKeyPressed inp KEY_KP_2
                   then InitGame inp game MODE_MULTIPLAYER
                   else ret game) w = Some (g0, w0) ->
             ballSpeedMultiplier g0 = ballSpeedMultiplier game).
  { intros g0 w0.
    destruct (IsKeyPressed inp KEY_ONE || IsKeyPressed inp KEY_KP_1);
      [apply Hinit|].
    destruct (IsKeyPressed inp KEY_TWO || IsKeyPressed inp KEY_KP_2);
      [apply Hinit|].
    intro E0. inversion E0; subst. reflexivity. }
  apply Hfirst in E1.
  assert (Hlast : forall g2 g3 w3,
             (if IsMouseButtonPressed inp
              then if CheckCollisionPointRec (GetMousePosition inp)
                        (mkRectangle (inject_Z (SCREEN_WIDTH ÷ 2 - 200))
                           (inject_Z (SCREEN_HEIGHT ÷ 2 - 30)) 400 60)
                   then InitGame inp g2 MODE_AI
                   else if CheckCollisionPointRec (GetMousePosition inp)
                             (mkRectangle
                                (inject_Z (SCREEN_WIDTH ÷ 2 - 200))
                                (inject_Z (SCREEN_HEIGHT ÷ 2 + 30)) 400 60)
                        then InitGame inp g2 MODE_MULTIPLAYER
                        else ret g2
              else ret g2) w1 = Some (g3, w3) ->
             ballSpeedMultiplier g3 = ballSpeedMultiplier g2).
  { intros g2 g3 w3.
    destruct (IsMouseButtonPressed inp);
      [|intro E0; inversion E0; subst; reflexivity].
    match goal with
    | |- (if ?c then _ else _) _ = _ -> _ => destruct c; [apply Hinit|]
    end.
    match goal with
    | |- (if ?c then _ else _) _ = _ -> _ => destruct c; [apply Hinit|]
    end.
    intro E0. inversion E0; subst. reflexivity. }
  destruct (IsMouseButtonDown inp) eqn:Hd.
  - split; [reflexivity|].
    destruct dragging; [left; reflexivity|]. right.
    cbn [orb] in E.
    match type of E with
    | context [if CheckCollisionPointRec ?p ?r then _ else _] =>
      change r with (mkRectangle 490 590 300 40) in E;
        destruct (CheckCollisionPointRec p (mkRectangle 490 590 300 40))
          eqn:Hc
    end; [reflexivity|].
    exfalso. apply Hne.
    match type of E with
    | match ?m w1 with _ => _ end = _ =>
      destruct (m w1) as [[g3 w3]|] eqn:E3; [|discriminate]
    end.
    apply Hlast in E3. inversion E; subst. congruence.
  - exfalso. apply Hne.
    match type of E with
    | match ?m w1 with _ => _ end = _ =>
      destruct (m w1) as [[g3 w3]|] eqn:E3; [|discriminate]
    end.
    apply Hlast in E3. inversion E; subst. congruence.
Qed.

(** C10. [InitGame] returns with the speed multiplier it found, whatever
    the prior game, the mode and the oracle; so does every [UpdateGame]
    call, the restart from STATE_GAME_OVER included; and a frame of the
    main loop that changes the multiplier is a frame of the mode-select
    menu in which the mouse button is down and the slider is being dragged
    or the pointer is over the slider's hit area. *)
Theorem C10_multiplier_frame :
  (forall (inp : Input) (game : Game) (m : GameMode) (w : Rng),
      exists g' w',
        InitGame inp game m w = Some (g', w') /\
        ballSpeedMultiplier g' = ballSpeedMultiplier game) /\
  (forall (fuel : nat) (inp : Input) (game : Game) (w : Rng) g' w',
      UpdateGame fuel inp game w = Some (g', w') ->
      ballSpeedMultiplier g' = ballSpeedMultiplier game) /\
  (forall (fuel : nat) (inp : Input) (app : App) (w : Rng) app' w',
      main_loop fuel inp app w = Some (app', w') ->
      ballSpeedMultiplier (fst app') <> ballSpeedMultiplier (fst app) ->
      state (fst app) = STATE_MODE_SELECT /\
      IsMouseButtonDown inp = true /\
      (snd app = true \/
       CheckCollisionPointRec (GetMousePosition inp)
         (mkRectangle 490 590 300 40) = true)).
Proof.
  split; [|split].
  - intros inp game m w.
    destruct (InitGame_tp inp game m w) as (g' & w' & E & r & ps & _ & Hg').
    exists g', w'. split; [exact E|]. rewrite Hg'. reflexivity.
  - intros fuel inp game w g' w' E.
    exact (UpdateGame_multiplier _ _ _ _ _ _ E).
  - intros fuel inp [game dragging] w [g' d'] w' E Hne.
    cbn [fst snd] in *. unfold main_loop in E.
    assert (Hf : ballSpeedMultiplier
                   (if IsKeyPressed inp KEY_F
                    then ToggleGameFullscreen game else game) =
                 ballSpeedMultiplier game).
    { destruct (IsKeyPressed inp KEY_F); [|reflexivity].
      unfold ToggleGameFullscreen.
      destruct (negb (fullscreen game)); reflexivity. }
    assert (Hst : state
                    (if IsKeyPressed inp KEY_F
                     then ToggleGameFullscreen game else game) =
                  state game).
    { destruct (IsKeyPressed inp KEY_F); [|reflexivity].
      unfold ToggleGameFullscreen.
      destruct (negb (fullscreen game)); reflexivity. }
    set (g0 := if IsKeyPressed inp KEY_F
               then ToggleGameFullscreen game else game) in *.
    assert (Hplay : (g1 <- UpdateGame fuel inp g0 ;;
                     g2 <- DrawGame inp g1 ;; ret (g2, dragging)) w
                    = Some (g', d', w') -> False).
    { unfold bind. intro E0.
      destruct (UpdateGame fuel inp g0 w) as [[g1 w1]|] eqn:E1;
        [|discriminate].
      destruct (DrawGame inp g1 w1) as [[g2 w2]|] eqn:E2; [|discriminate].
      inversion E0; subst.
      apply UpdateGame_multiplier in E1. apply DrawGame_inv in E2.
      destruct E2 as (sh & so & ps & k & ->).
      apply Hne. cbn [ballSpeedMultiplier set_activeParticles set_particles
                      set_shakeOffset set_screenShake].
      congruence. }
    destruct (state g0) eqn:Hs0.
    + exfalso. apply Hne. inversion E; subst.
      unfold UpdateSplashScreen.
      destruct (IsMouseButtonPressed inp || IsKeyPressed inp KEY_SPACE);
        exact Hf.
    + split; [congruence|].
      apply (UpdateModeSelect_multiplier inp g0 dragging w g' d' w' E).
      congruence.
    + exfalso. exact (Hplay E).
    + exfalso. exact (Hplay E).
    + exfalso. exact (Hplay E).
Qed.

(** ** Wall bounces *)

(** The ball after integration and wall resolution depends on the ball
    only. *)
Lemma walls_moveBall_ball (g1 g2 : Game) :
  ball g1 = ball g2 ->
  ball (UpdateGame_walls (UpdateGame_moveBall g1)) =
  ball (UpdateGame_walls (UpdateGame_moveBall g2)).
Proof.
  intro H. unfold UpdateGame_walls, UpdateGame_moveBall. cbv zeta.
  cbn [ball set_ball]. rewrite H.
  match goal with
  | |- context [if ?c then _ else _] => destruct c
  end; reflexivity.
Qed.

(** The paddle blocks do not write the ball. *)
Lemma paddles_keep_ball (fuel : nat) (inp : Input) (game : Game) (w : Rng)
  (g1 : Game) (w1 : Rng) :
  UpdateGame_secondPaddle fuel inp (UpdateGame_playerPaddle inp game) w
  = Some (g1, w1) ->
  ball g1 = ball game /\
  (exists y, playerPaddle g1 = set_paddle_y (playerPaddle game) y) /\
  (exists y, aiPaddle g1 = set_paddle_y (aiPaddle game) y).
Proof.
  intro E1.
  destruct (UpdateGame_playerPaddle_spec inp game) as (y1 & Ey1 & _).
  destruct (UpdateGame_secondPaddle_inv _ _ _ _ _ _ E1) as (y2 & Eg1 & _).
  rewrite Eg1, Ey1. split; [reflexivity|].
  split; [exists y1|exists y2]; reflexivity.
Qed.



(** ** The invariant is kept by every frame *)

Lemma CreateParticleEffect_pool (game : Game) (position : Vector2)
  (color : Color) (count : Z) (w : Rng) (g' : Game) (w' : Rng) :
  CreateParticleEffect game position color count w = Some (g', w') ->
  (0 <= activeParticles game <= MAX_PARTICLES)%Z ->
  (0 <= activeParticles g' <= MAX_PARTICLES)%Z.
Proof.
  intros E H.
  destruct (CreateParticleEffect_tp game position color count w)
    as (g1 & w1 & E1 & _ & Hc).
  rewrite E in E1. injection E1 as Eg Ew. rewrite Eg, (Hc H).
  unfold MAX_PARTICLES in *. lia.
Qed.

Lemma ResetBall_pool (inp : Input) (game : Game) (serverIsPlayer : bool)
  (w : Rng) (g' : Game) (w' : Rng) :
  ResetBall inp game serverIsPlayer w = Some (g', w') ->
  (0 <= activeParticles game <= MAX_PARTICLES)%Z ->
  (0 <= activeParticles g' <= MAX_PARTICLES)%Z.
Proof.
  unfold ResetBall. cbv zeta. unfold bind.
  destruct (GetRandomValue (-100) 100 w) as [[r w1]|]; [|discriminate].
  intros E H. apply (CreateParticleEffect_pool _ _ _ _ _ _ _ E). exact H.
Qed.

Lemma hit_block_pool (game : Game) (paddle : Paddle) (leftPaddle : bool)
  (w : Rng) (g' : Game) (w' : Rng) :
  (if CheckPaddleCollision (ball game) paddle game
   then resolve_hit game paddle leftPaddle
   else ret game) w = Some (g', w') ->
  (0 <= activeParticles game <= MAX_PARTICLES)%Z ->
  (0 <= activeParticles g' <= MAX_PARTICLES)%Z.
Proof.
  destruct (CheckPaddleCollision (ball game) paddle game).
  - unfold resolve_hit, bind, lift.
    destruct (hitPosition_of (ball game) paddle) as [h|]; [|discriminate].
    cbv zeta. intros E H.
    apply (CreateParticleEffect_pool _ _ _ _ _ _ _ E). exact H.
  - intros E H. inversion E; subst. exact H.
Qed.

Lemma UpdateGame_scoring_pool (inp : Input) (game : Game) (w : Rng)
  (g' : Game) (w' : Rng) :
  UpdateGame_scoring inp game w = Some (g', w') ->
  (0 <= activeParticles game <= MAX_PARTICLES)%Z ->
  (0 <= activeParticles g' <= MAX_PARTICLES)%Z.
Proof.
  unfold UpdateGame_scoring. cbv zeta.
  destruct (vec_x (ball_position (ball game)) <? inject_Z (- BALL_RADIUS));
    [|destruct (inject_Z (SCREEN_WIDTH + BALL_RADIUS) <?
                vec_x (ball_position (ball game)))];
    intros E H.
  - apply (ResetBall_pool _ _ _ _ _ _ E). exact H.
  - apply (ResetBall_pool _ _ _ _ _ _ E). exact H.
  - inversion E; subst. exact H.
Qed.

(** A playing tick keeps the ball's radius and the pool in range. *)
Lemma UpdateGame_playing_radius_pool (fuel : nat) (inp : Input)
  (game : Game) (w : Rng) (g' : Game) (w' : Rng) :
  state game = STATE_PLAYING -> IsKeyPressed inp KEY_P = false ->
  UpdateGame fuel inp game w = Some (g', w') ->
  ball_radius (ball g') = ball_radius (ball game) /\
  ((0 <= activeParticles game <= MAX_PARTICLES)%Z ->
   (0 <= activeParticles g' <= MAX_PARTICLES)%Z).
Proof.
  intros Hs Hp E.
  destruct (UpdateGame_playing_inv _ _ _ _ _ _ Hs Hp E)
    as (g1 & w1 & g3 & w3 & g4 & w4 & g5 & E1 & E3 & E4 & E5 & ->).
  destruct (UpdateGame_playerPaddle_spec inp game) as (y1 & Ey1 & _).
  destruct (UpdateGame_secondPaddle_inv _ _ _ _ _ _ E1) as (y2 & Eg1 & _).
  destruct (UpdateGame_walls_spec (UpdateGame_moveBall g1))
    as (_ & _ & R2 & _). cbv zeta in R2.
  destruct (hit_block_inv _ _ _ _ _ _ E3) as (_ & _ & _ & _ & _ & R3 & _).
  destruct (hit_block_inv _ _ _ _ _ _ E4) as (_ & _ & _ & _ & _ & R4 & _).
  destruct (UpdateGame_scoring_inv _ _ _ _ _ E5) as (_ & _ & R5 & _).
  destruct (UpdateGame_gameOver_spec g5) as (_ & B6 & _).
  split.
  - rewrite B6, R5, R4, R3, R2, Eg1, Ey1. reflexivity.
  - intro H.
    assert (H1 : (0 <= activeParticles
                        (UpdateGame_walls (UpdateGame_moveBall g1))
                  <= MAX_PARTICLES)%Z).
    { unfold UpdateGame_walls. cbv zeta.
      match goal with
      | |- context [if ?c then _ else _] => destruct c
      end; rewrite Eg1, Ey1; exact H. }
    pose proof (hit_block_pool _ _ _ _ _ _ E3 H1) as H3.
    pose proof (hit_block_pool _ _ _ _ _ _ E4 H3) as H4.
    pose proof (UpdateGame_scoring_pool _ _ _ _ _ E5 H4) as H5.
    unfold UpdateGame_gameOver.
    match goal with
    | |- context [if ?c then _ else _] => destruct c
    end; exact H5.
Qed.

Lemma paddle_ok_set_y (p : Paddle) (x y : Q) :
  paddle_ok p x ->
  (rec_height (paddle_rect p) <= inject_Z SCREEN_HEIGHT ->
   0 <= y <= inject_Z SCREEN_HEIGHT - rec_height (paddle_rect p)) ->
  paddle_ok (set_paddle_y p y) x.
Proof.
  intros (Hx & Hw & Hh & _) Hy. unfold paddle_ok.
  cbn [set_paddle_y set_paddle_rect set_rec_y paddle_rect rec_x rec_y
       rec_width rec_height].
  repeat (split; [assumption|]).
  rewrite Hh in Hy. change (inject_Z PADDLE_HEIGHT) with 200 in Hy.
  change (inject_Z SCREEN_HEIGHT) with 800 in Hy.
  assert (H : 200 <= 800) by discriminate. specialize (Hy H). lra.
Qed.

Lemma InitGame_game_inv (inp : Input) (game : Game) (m : GameMode)
  (w : Rng) (g' : Game) (w' : Rng) :
  InitGame inp game m w = Some (g', w') ->
  0.5 <= ballSpeedMultiplier game <= 2 ->
  game_inv g' /\ state g' = STATE_PLAYING.
Proof.
  intros E Hm.
  destruct (InitGame_tp inp game m w) as (g1 & w1 & E1 & r & ps & _ & Hg1).
  rewrite E in E1. injection E1 as Eg Ew. rewrite Eg, Hg1.
  split; [|reflexivity]. unfold game_inv, paddle_ok.
  cbn [ballSpeedMultiplier activeParticles playerPaddle aiPaddle ball
       ball_radius winScore paddle_rect rec_x rec_y rec_width rec_height].
  split; [exact Hm|]. split; [unfold MAX_PARTICLES; lia|].
  intros _. repeat split; discriminate.
Qed.

Lemma UpdateGame_game_inv (fuel : nat) (inp : Input) (game : Game) (w : Rng)
  (g' : Game) (w' : Rng) :
  UpdateGame fuel inp game w = Some (g', w') ->
  in_match game -> game_inv game ->
  game_inv g' /\ (in_match g' \/ state g' = STATE_MODE_SELECT).
Proof.
  intros E Hin (Hm & Hpool & Hmatch).
  destruct (Hmatch Hin) as (Hp1 & Hp2 & Hr & Hw).
  destruct Hin as [Hs|[Hs|Hs]].
  - destruct (IsKeyPressed inp KEY_P) eqn:Hp.
    + unfold UpdateGame in E. rewrite Hs, Hp in E. inversion E; subst.
      split; [|left; right; left; reflexivity].
      split; [exact Hm|]. split; [exact Hpool|]. intros _.
      exact (conj Hp1 (conj Hp2 (conj Hr Hw))).
    + destruct (UpdateGame_playing_summary _ _ _ _ _ _ Hs Hp E)
        as (_ & Kw & _ & Kb & (y1 & Hy1 & By1) & (y2 & Hy2 & By2)
            & Hover & Hplay).
      destruct (UpdateGame_playing_radius_pool _ _ _ _ _ _ Hs Hp E)
        as (Hrad & Hpool').
      split.
      * split; [rewrite Kb; exact Hm|]. split; [exact (Hpool' Hpool)|].
        intros _. rewrite Hy1, Hy2, Hrad, Kw.
        split; [apply paddle_ok_set_y; assumption|].
        split; [apply paddle_ok_set_y; assumption|].
        split; assumption.
      * left.
        destruct (Z_le_dec (winScore g') (playerScore g')) as [H1|H1];
          [right; right; apply Hover; left; exact H1|].
        destruct (Z_le_dec (winScore g') (aiScore g')) as [H2|H2];
          [right; right; apply Hover; right; exact H2|].
        left. apply Hplay. intros [H|H]; contradiction.
  - unfold UpdateGame in E. rewrite Hs in E.
    destruct (IsKeyPressed inp KEY_P); inversion E; subst.
    + split; [|left; left; reflexivity].
      split; [exact Hm|]. split; [exact Hpool|]. intros _.
      exact (conj Hp1 (conj Hp2 (conj Hr Hw))).
    + split; [|left; right; left; exact Hs].
      split; [exact Hm|]. split; [exact Hpool|]. intros _.
      exact (conj Hp1 (conj Hp2 (conj Hr Hw))).
  - unfold UpdateGame in E. rewrite Hs in E.
    destruct (IsKeyPressed inp KEY_R).
    + destruct (InitGame_game_inv _ _ _ _ _ _ E Hm) as [Hi Hst].
      split; [exact Hi|]. left. left. exact Hst.
    + destruct (IsKeyPressed inp KEY_M); inversion E; subst.
      * split; [|right; reflexivity].
        split; [exact Hm|]. split; [exact Hpool|].
        intros [H|[H|H]]; discriminate H.
      * split; [|left; right; right; exact Hs].
        split; [exact Hm|]. split; [exact Hpool|]. intros _.
        exact (conj Hp1 (conj Hp2 (conj Hr Hw))).
Qed.

Lemma DrawGame_game_inv (inp : Input) (game : Game) (w : Rng) (g' : Game)
  (w' : Rng) :
  DrawGame inp game w = Some (g', w') ->
  game_inv game -> game_inv g' /\ state g' = state game.
Proof.
  unfold DrawGame. cbv zeta. unfold bind. intros E (Hm & Hpool & Hmatch).
  assert (Hgen : forall g0,
             ballSpeedMultiplier g0 = ballSpeedMultiplier game ->
             activeParticles g0 = activeParticles game ->
             state g0 = state game -> playerPaddle g0 = playerPaddle game ->
             aiPaddle g0 = aiPaddle game -> ball g0 = ball game ->
             winScore g0 = winScore game ->
             game_inv (UpdateAndDrawParticles inp g0) /\
             state (UpdateAndDrawParticles inp g0) = state game).
  { intros g0 A1 A2 A3 A4 A5 A6 A7.
    pose proof (UpdateAndDrawParticles_count inp g0) as Hc.
    destruct (UpdateAndDrawParticles_frame inp g0) as (ps & k & Hf).
    rewrite Hf in *.
    cbn [activeParticles set_activeParticles] in Hc.
    unfold game_inv, in_match.
    cbn [ballSpeedMultiplier activeParticles state playerPaddle aiPaddle
         ball winScore set_activeParticles set_particles].
    rewrite A1, A3, A4, A5, A6, A7. rewrite A2 in Hc.
    split; [|reflexivity].
    split; [exact Hm|]. split; [lia|]. exact Hmatch. }
  match type of E with
  | context [if ?c then _ else _] => destruct c
  end.
  - cbn [screenShake set_screenShake] in E.
    destruct (GetRandomValue (-10) 10 w) as [[rx w1]|]; [|discriminate].
    destruct (GetRandomValue (-10) 10 w1) as [[ry w2]|]; [|discriminate].
    inversion E; subst. apply Hgen; reflexivity.
  - inversion E; subst. apply Hgen; reflexivity.
Qed.

(** [roundf] keeps a value between two integers between them. *)
Lemma roundf_bounds (a b : Z) (v : Q) :
  (0 <= a)%Z -> inject_Z a <= v <= inject_Z b ->
  inject_Z a <= roundf v <= inject_Z b.
Proof.
  intros Ha [H1 H2]. unfold roundf.
  assert (H0 : 0 <= v).
  { apply Qle_trans with (inject_Z a); [|exact H1].
    change (inject_Z 0 <= inject_Z a). rewrite <- Zle_Qle. exact Ha. }
  apply Qle_bool_iff in H0. rewrite H0. split.
  - rewrite <- Zle_Qle. rewrite <- (Qfloor_Z a).
    apply Qfloor_resp_le. lra.
  - rewrite <- Zle_Qle.
    assert (Hlt : (Qfloor (v + 0.5) < b + 1)%Z).
    { rewrite Zlt_Qlt. rewrite inject_Z_plus.
      pose proof (Qfloor_le (v + 0.5)) as Hf.
      change (inject_Z 1) with 1. lra. }
    lia.
Qed.

Lemma UpdateModeSelect_game_inv (inp : Input) (game : Game)
  (dragging : bool) (w : Rng) (g' : Game) (d' : bool) (w' : Rng) :
  UpdateModeSelect inp game dragging w = Some ((g', d'), w') ->
  state game = STATE_MODE_SELECT -> game_inv game ->
  game_inv g' /\ (state g' = STATE_MODE_SELECT \/ state g' = STATE_PLAYING).
Proof.
  unfold UpdateModeSelect. cbv zeta. unfold bind. intros E Hs Hinv.
  assert (Hstart : game_inv game /\
                   (state game = STATE_MODE_SELECT \/
                    state game = STATE_PLAYING))
    by (split; [exact Hinv|left; exact Hs]).
  clear Hs Hinv.
  assert (Hinit : forall g m w0 g1 w1,
             InitGame inp g m w0 = Some (g1, w1) ->
             game_inv g ->
             game_inv g1 /\
             (state g1 = STATE_MODE_SELECT \/ state g1 = STATE_PLAYING)).
  { intros g m w0 g1 w1 E0 (Hm & _).
    destruct (InitGame_game_inv _ _ _ _ _ _ E0 Hm) as [Hi Hst].
    split; [exact Hi|right; exact Hst]. }
  match type of E with
  | match ?m w with _ => _ end = _ =>
    destruct (m w) as [[g1 w1]|] eqn:E1; [|discriminate]
  end.
  assert (H1 : game_inv g1 /\
               (state g1 = STATE_MODE_SELECT \/ state g1 = STATE_PLAYING)).
  { destruct (IsKeyPressed inp KEY_ONE || IsKeyPressed inp KEY_KP_1);
      [exact (Hinit _ _ _ _ _ E1 (proj1 Hstart))|].
    destruct (IsKeyPressed inp KEY_TWO || IsKeyPressed inp KEY_KP_2);
      [exact (Hinit _ _ _ _ _ E1 (proj1 Hstart))|].
    inversion E1; subst. exact Hstart. }
  clear E1 Hstart.
  assert (Hslide : forall x,
             game_inv
               (set_ballSpeedMultiplier
                  (set_ballSpeedMultiplier g1
                     (0.5 + Clamp x 0 300 / 300 * 1.5))
                  (roundf
                     (ballSpeedMultiplier
                        (set_ballSpeedMultiplier g1
                           (0.5 + Clamp x 0 300 / 300 * 1.5)) * 10) / 10))
             /\
             state
               (set_ballSpeedMultiplier
                  (set_ballSpeedMultiplier g1
                     (0.5 + Clamp x 0 300 / 300 * 1.5))
                  (roundf
                     (ballSpeedMultiplier
                        (set_ballSpeedMultiplier g1
                           (0.5 + Clamp x 0 300 / 300 * 1.5)) * 10) / 10))
             = state g1).
  { intro x. split; [|reflexivity].
    destruct H1 as ((_ & Hpool & Hmatch) & _).
    unfold game_inv, in_match.
    cbn [ballSpeedMultiplier set_ballSpeedMultiplier activeParticles state
         playerPaddle aiPaddle ball winScore].
    split; [|split; [exact Hpool|exact Hmatch]].
    assert (Hc : 0 <= Clamp x 0 300 <= 300)
      by (apply Clamp_bounds; discriminate).
    assert (Hv : inject_Z 5 <= (0.5 + Clamp x 0 300 / 300 * 1.5) * 10
                 <= inject_Z 20).
    { unfold Qdiv. change (/ 300) with (1 # 300).
      change (inject_Z 5) with 5. change (inject_Z 20) with 20. lra. }
    apply roundf_bounds in Hv; [|lia].
    change (inject_Z 5) with 5 in Hv. change (inject_Z 20) with 20 in Hv.
    set (r := roundf ((0.5 + Clamp x 0 300 / 300 * 1.5) * 10)) in *.
    unfold Qdiv. change (/ 10) with (1 # 10). lra. }
  assert (Hlast : forall g2 g3 w3,
             game_inv g2 /\
             (state g2 = STATE_MODE_SELECT \/ state g2 = STATE_PLAYING) ->
             (if IsMouseButtonPressed inp
              then if CheckCollisionPointRec (GetMousePosition inp)
                        (mkRectangle (inject_Z (SCREEN_WIDTH ÷ 2 - 200))
                           (inject_Z (SCREEN_HEIGHT ÷ 2 - 30)) 400 60)
                   then InitGame inp g2 MODE_AI
                   else if CheckCollisionPointRec (GetMousePosition inp)
                             (mkRectangle
                                (inject_Z (SCREEN_WIDTH ÷ 2 - 200))
                                (inject_Z (SCREEN_HEIGHT ÷ 2 + 30)) 400 60)
                        then InitGame inp g2 MODE_MULTIPLAYER
                        else ret g2
              else ret g2) w1 = Some (g3, w3) ->
             game_inv g3 /\
             (state g3 = STATE_MODE_SELECT \/ state g3 = STATE_PLAYING)).
  { intros g2 g3 w3 H2.
    destruct (IsMouseButtonPressed inp);
      [|intro E0; inversion E0; subst; exact H2].
    match goal with
    | |- (if ?c then _ else _) _ = _ -> _ =>
      destruct c; [intro E0; exact (Hinit _ _ _ _ _ E0 (proj1 H2))|]
    end.
    match goal with
    | |- (if ?c then _ else _) _ = _ -> _ =>
      destruct c; [intro E0; exact (Hinit _ _ _ _ _ E0 (proj1 H2))|]
    end.
    intro E0. inversion E0; subst. exact H2. }
  cbn [rec_x rec_y rec_width rec_height] in E.
  destruct (IsMouseButtonDown inp).
  - destruct (dragging ||
              CheckCollisionPointRec (GetMousePosition inp)
                (mkRectangle (inject_Z (SCREEN_WIDTH ÷ 2 - 150))
                   (inject_Z (SCREEN_HEIGHT * 3 ÷ 4) - 10) 300 (20 + 20))).
    + match type of E with
      | match ?m w1 with _ => _ end = _ =>
        destruct (m w1) as [[g3 w3]|] eqn:E3; [|discriminate]
      end.
      inversion E; subst.
      refine (Hlast _ _ _ _ E3).
      destruct (Hslide (vec_x (GetMousePosition inp) -
                        inject_Z (SCREEN_WIDTH ÷ 2 - 150))) as [Hi Hst].
      split; [exact Hi|]. rewrite Hst. exact (proj2 H1).
    + match type of E with
      | match ?m w1 with _ => _ end = _ =>
        destruct (m w1) as [[g3 w3]|] eqn:E3; [|discriminate]
      end.
      inversion E; subst. exact (Hlast _ _ _ H1 E3).
  - match type of E with
    | match ?m w1 with _ => _ end = _ =>
      destruct (m w1) as [[g3 w3]|] eqn:E3; [|discriminate]
    end.
    inversion E; subst. exact (Hlast _ _ _ H1 E3).
Qed.

Lemma game_inv_initial : game_inv initial_game.
Proof.
  unfold game_inv, in_match. cbn [initial_game ballSpeedMultiplier
    activeParticles state].
  split; [split; discriminate|]. split; [unfold MAX_PARTICLES; lia|].
  intros [H|[H|H]]; discriminate H.
Qed.

(** One frame of the main loop keeps the invariant. *)
Lemma main_loop_game_inv (fuel : nat) (inp : Input) (app : App) (w : Rng)
  (app' : App) (w' : Rng) :
  main_loop fuel inp app w = Some (app', w') ->
  game_inv (fst app) -> game_inv (fst app').
Proof.
  destruct app as [game dragging]. destruct app' as [g' d'].
  cbn [fst]. unfold main_loop. intros E Hinv.
  assert (H0 : game_inv (if IsKeyPressed inp KEY_F
                         then ToggleGameFullscreen game else game)).
  { destruct (IsKeyPressed inp KEY_F); [|exact Hinv].
    unfold ToggleGameFullscreen.
    destruct (negb (fullscreen game)); exact Hinv. }
  set (g0 := if IsKeyPressed inp KEY_F
             then ToggleGameFullscreen game else game) in *.
  assert (Hplay : in_match g0 ->
                  (g1 <- UpdateGame fuel inp g0 ;;
                   g2 <- DrawGame inp g1 ;; ret (g2, dragging)) w
                  = Some (g', d', w') -> game_inv g').
  { unfold bind. intros Hin E0.
    destruct (UpdateGame fuel inp g0 w) as [[g1 w1]|] eqn:E1;
      [|discriminate].
    destruct (DrawGame inp g1 w1) as [[g2 w2]|] eqn:E2; [|discriminate].
    inversion E0; subst.
    destruct (UpdateGame_game_inv _ _ _ _ _ _ E1 Hin H0) as [H1 _].
    exact (proj1 (DrawGame_game_inv _ _ _ _ _ E2 H1)). }
  destruct (state g0) eqn:Hs0.
  - inversion E; subst. destruct H0 as (Hm & Hpool & _).
    unfold UpdateSplashScreen.
    destruct (IsMouseButtonPressed inp || IsKeyPressed inp KEY_SPACE).
    + split; [exact Hm|]. split; [exact Hpool|].
      intros [H|[H|H]]; discriminate H.
    + split; [exact Hm|]. split; [exact Hpool|].
      intros [H|[H|H]]; rewrite Hs0 in H; discriminate H.
  - exact (proj1 (UpdateModeSelect_game_inv _ _ _ _ _ _ _ E Hs0 H0)).
  - apply Hplay; [left; exact Hs0|exact E].
  - apply Hplay; [right; left; exact Hs0|exact E].
  - apply Hplay; [right; right; exact Hs0|exact E].
Qed.

(** Every sequence of frames keeps the invariant. *)
Lemma run_frames_game_inv (fuel : nat) (inps : list Input) :
  forall (app : App) (w : Rng) (app' : App) (w' : Rng),
    run_frames fuel inps app w = Some (app', w') ->
    game_inv (fst app) -> game_inv (fst app').
Proof.
  induction inps as [|inp inps IH]; intros app w app' w' E Hinv.
  - inversion E; subst. exact Hinv.
  - cbn [run_frames] in E. unfold bind in E.
    destruct (main_loop fuel inp app w) as [[app1 w1]|] eqn:E1;
      [|discriminate].
    apply (IH _ _ _ _ E). exact (main_loop_game_inv _ _ _ _ _ _ E1 Hinv).
Qed.

(** From the initial state of [main], whatever the inputs of the frames. *)
Lemma reachable_game_inv (fuel : nat) (inps : list Input) (w : Rng)
  (app' : App) (w' : Rng) :
  run_frames fuel inps initial_app w = Some (app', w') ->
  game_inv (fst app').
Proof.
  intro E. apply (run_frames_game_inv _ _ _ _ _ _ E). exact game_inv_initial.
Qed.

(** C3. On a playing tick, for paddles whose height is positive and at
    most the screen height (200 in the game), every input, every oracle,
    every ball and either mode: the tick returns, it keeps the paddle
    heights, and both paddles end with their vertical position in
    [0, SCREEN_HEIGHT - height] (0 to 600 in the game); the tick that
    pauses the game moves nothing, so there the paddles stay in that range
    if they were in it.  In particular, from every state the program
    reaches in STATE_PLAYING, every tick returns with both paddles' vertical
    positions in [0, 600]. *)
Theorem C3_paddles_stay_on_screen :
  (forall (fuel : nat) (inp : Input) (game : Game) (w : Rng),
      let hp := rec_height (paddle_rect (playerPaddle game)) in
      let ha := rec_height (paddle_rect (aiPaddle game)) in
      state game = STATE_PLAYING -> (3 <= fuel)%nat ->
      0 < hp <= inject_Z SCREEN_HEIGHT ->
      0 < ha <= inject_Z SCREEN_HEIGHT ->
      (IsKeyPressed inp KEY_P = true ->
       0 <= rec_y (paddle_rect (playerPaddle game)) <=
         inject_Z SCREEN_HEIGHT - hp /\
       0 <= rec_y (paddle_rect (aiPaddle game)) <=
         inject_Z SCREEN_HEIGHT - ha) ->
      exists g' w',
        UpdateGame fuel inp game w = Some (g', w') /\
        rec_height (paddle_rect (playerPaddle g')) = hp /\
        rec_height (paddle_rect (aiPaddle g')) = ha /\
        0 <= rec_y (paddle_rect (playerPaddle g')) <=
          inject_Z SCREEN_HEIGHT - hp /\
        0 <= rec_y (paddle_rect (aiPaddle g')) <=
          inject_Z SCREEN_HEIGHT - ha) /\
  (forall (fuel : nat) (inps : list Input) (w0 : Rng) (app : App) (w : Rng)
          (inp : Input),
      run_frames fuel inps initial_app w0 = Some (app, w) ->
      state (fst app) = STATE_PLAYING -> (3 <= fuel)%nat ->
      exists g' w',
        UpdateGame fuel inp (fst app) w = Some (g', w') /\
        0 <= rec_y (paddle_rect (playerPaddle g')) <= 600 /\
        0 <= rec_y (paddle_rect (aiPaddle g')) <= 600).
Proof.
  split; [exact UpdateGame_paddles_on_screen|].
  intros fuel inps w0 app w inp Erun Hs Hf.
  destruct (reachable_game_inv _ _ _ _ _ Erun) as (_ & _ & Hmatch).
  destruct (Hmatch (or_introl Hs))
    as ((_ & _ & Hh1 & Hy1) & (_ & _ & Hh2 & Hy2) & _).
  assert (H200 : 0 < 200 <= 800) by (split; [reflexivity|discriminate]).
  destruct (UpdateGame_paddles_on_screen fuel inp (fst app) w Hs Hf)
    as (g' & w' & E & _ & _ & B1 & B2).
  - rewrite Hh1. exact H200.
  - rewrite Hh2. exact H200.
  - intros _. rewrite Hh1, Hh2.
    change (inject_Z SCREEN_HEIGHT - inject_Z PADDLE_HEIGHT) with (800 - 200).
    split; lra.
  - exists g', w'. split; [exact E|].
    rewrite Hh1 in B1. rewrite Hh2 in B2.
    change (inject_Z SCREEN_HEIGHT - inject_Z PADDLE_HEIGHT)
      with (800 - 200) in B1, B2.
    split; lra.
Qed.

(** ** The statements at concrete games *)



Lemma C2_win_detection_and_frozen_phases_witness :
  state match_point_game = STATE_PLAYING /\
  IsKeyPressed idle_input KEY_P = false /\
  exists g' w',
    UpdateGame 3 idle_input match_point_game [] = Some (g', w') /\
    ((winScore g' <= playerScore g')%Z \/ (winScore g' <= aiScore g')%Z) /\
    state g' = STATE_GAME_OVER.
Proof.
  split; [reflexivity|]. split; [reflexivity|].
  destruct (C2_win_detection_and_frozen_phases 3 idle_input match_point_game
              []) as [H _].
  destruct (H eq_refl eq_refl) as [Hwin _].
  eexists. eexists.
  assert (E : UpdateGame 3 idle_input match_point_game [] = Some _)
    by (vm_compute; reflexivity).
  split; [exact E|].
  assert (Hw : (10 <= 10)%Z \/ (10 <= 0)%Z) by (left; discriminate).
  split; [exact Hw|]. exact (Hwin _ _ E Hw).
Defined.

Lemma C3_paddles_stay_on_screen_witness :
  state playing_game = STATE_PLAYING /\ (3 <= 3)%nat /\
  0 < rec_height (paddle_rect (playerPaddle playing_game))
    <= inject_Z SCREEN_HEIGHT /\
  0 < rec_height (paddle_rect (aiPaddle playing_game))
    <= inject_Z SCREEN_HEIGHT /\
  (exists g' w',
      UpdateGame 3 (key_input KEY_P) playing_game [] = Some (g', w') /\
      0 <= rec_y (paddle_rect (playerPaddle g')) <= 600 /\
      0 <= rec_y (paddle_rect (aiPaddle g')) <= 600) /\
  (exists g' w',
      UpdateGame 3 idle_input playing_game [] = Some (g', w') /\
      0 <= rec_y (paddle_rect (playerPaddle g')) <= 600 /\
      0 <= rec_y (paddle_rect (aiPaddle g')) <= 600) /\
  (exists app w g' w',
      run_frames 3 [key_input KEY_SPACE; key_input KEY_ONE] initial_app []
      = Some (app, w) /\
      state (fst app) = STATE_PLAYING /\
      UpdateGame 3 idle_input (fst app) w = Some (g', w') /\
      0 <= rec_y (paddle_rect (playerPaddle g')) <= 600 /\
      0 <= rec_y (paddle_rect (aiPaddle g')) <= 600).
Proof.
  assert (H200 : 0 < 200 <= 800) by (split; [reflexivity|discriminate]).
  assert (H300 : 0 <= 300 <= 600) by (split; discriminate).
  destruct C3_paddles_stay_on_screen as [Hgen Hreach].
  split; [reflexivity|]. split; [apply le_n|].
  split; [exact H200|]. split; [exact H200|]. split; [|split].
  - destruct (Hgen 3%nat (key_input KEY_P) playing_game []
                eq_refl (le_n 3) H200 H200 (fun _ => conj H300 H300))
      as (g' & w' & E & _ & _ & H1 & H2).
    exists g', w'. split; [exact E|]. split; [exact H1|exact H2].
  - destruct (Hgen 3%nat idle_input playing_game []
                eq_refl (le_n 3) H200 H200)
      as (g' & w' & E & _ & _ & H1 & H2).
    + intro Hk. discriminate Hk.
    + exists g', w'. split; [exact E|]. split; [exact H1|exact H2].
  - eexists. eexists.
    assert (Erun : run_frames 3 [key_input KEY_SPACE; key_input KEY_ONE]
                     initial_app [] = Some (_, _))
      by (vm_compute; reflexivity).
    destruct (Hreach 3%nat _ _ _ _ idle_input Erun eq_refl (le_n 3))
      as (g' & w' & E & H1 & H2).
    exists g', w'. split; [exact Erun|]. split; [reflexivity|].
    split; [exact E|]. split; [exact H1|exact H2].
Defined.



Lemma C8_particle_pool_capacity_witness :
  activeParticles initial_game = 0%Z /\
  exists g' w',
    run_particle_ops
      [Emit (mkVector2 640 400) WHITE 150; Tick idle_input;
       Emit (mkVector2 640 400) WHITE 5] initial_game [] = Some (g', w') /\
    (0 <= activeParticles g' <= 100)%Z.
Proof.
  split; [reflexivity|].
  destruct (C8_particle_pool_capacity initial_game
              [Emit (mkVector2 640 400) WHITE 150; Tick idle_input;
               Emit (mkVector2 640 400) WHITE 5] [] eq_refl)
    as (g' & w' & E & Hr & _).
  exists g', w'. split; [exact E|exact Hr].
Defined.

Lemma C10_multiplier_frame_witness :
  exists app' w',
    main_loop 3 slider_and_key_input
      (set_state initial_game STATE_MODE_SELECT, false) [] = Some (app', w') /\
    ballSpeedMultiplier (fst app') <> ballSpeedMultiplier initial_game /\
    IsMouseButtonDown slider_and_key_input = true /\
    CheckCollisionPointRec (GetMousePosition slider_and_key_input)
      (mkRectangle 490 590 300 40) = true.
Proof.
  destruct C10_multiplier_frame as (_ & _ & Hloop).
  eexists. eexists.
  assert (E : main_loop 3 slider_and_key_input
                (set_state initial_game STATE_MODE_SELECT, false) []
              = Some _) by (vm_compute; reflexivity).
  split; [exact E|].
  assert (Hne : (5 # 10) <> 1) by discriminate.
  split; [exact Hne|].
  destruct (Hloop _ _ _ _ _ _ E Hne) as (_ & Hd & [Hs|Hs]).
  - discriminate Hs.
  - split; [exact Hd|exact Hs].
Defined.

(** * Further properties of the code *)

(** ** Paddle hits *)

(** Where a hit is accepted (radius 20, paddle height 200) the hit offset
    exists and is at most 1.2 in magnitude. *)
Lemma hit_offset_range (b : Ball) (paddle : Paddle) (game : Game) :
  ball_radius b = inject_Z BALL_RADIUS ->
  rec_height (paddle_rect paddle) = inject_Z PADDLE_HEIGHT ->
  CheckPaddleCollision b paddle game = true ->
  exists h,
    hitPosition_of b paddle = Some h /\ - (6 # 5) <= h <= 6 # 5 /\
    h == (vec_y (ball_position b) - (rec_y (paddle_rect paddle) + 100))
         / 100.
Proof.
  intros Hr Hh Hc.
  apply CheckPaddleCollision_cases in Hc. cbv zeta in Hc.
  destruct Hc as [_ Hc]. rewrite Hr, Hh in Hc.
  cbn [rec_x rec_y rec_width rec_height] in Hc.
  unfold hitPosition_of, fdiv. rewrite Hh.
  change (Qeq_bool (inject_Z PADDLE_HEIGHT / 2) 0) with false. cbv iota.
  eexists. split; [reflexivity|].
  change (inject_Z PADDLE_HEIGHT / 2) with (200 # 2) in *.
  change (inject_Z PADDLE_HEIGHT) with 200 in *.
  change (inject_Z BALL_RADIUS) with 20 in *.
  unfold Qdiv. change (/ (200 # 2)) with (2 # 200).
  change (/ 100) with (1 # 100).
  split; [|lra].
  destruct Hc as [Hc|Hc].
  - apply CheckCollisionPointRec_y in Hc.
    cbn [rec_y rec_height] in Hc. lra.
  - apply CheckCollisionCircleRec_y in Hc.
    cbn [rec_y rec_height] in Hc. change (200 / 2) with (200 # 2) in Hc.
    apply fabsf_le in Hc. lra.
Qed.

(** The two outcomes of a hit block. *)
Lemma hit_block_cases (game : Game) (paddle : Paddle) (leftPaddle : bool)
  (w : Rng) (g' : Game) (w' : Rng) :
  (if CheckPaddleCollision (ball game) paddle game
   then resolve_hit game paddle leftPaddle
   else ret game) w = Some (g', w') ->
  (CheckPaddleCollision (ball game) paddle game = false /\
   g' = game /\ w' = w) \/
  (CheckPaddleCollision (ball game) paddle game = true /\
   exists h,
     hitPosition_of (ball game) paddle = Some h /\
     screenShake g' = 5 /\
     ball g' =
     set_ball_velocity (ball game)
       (mkVector2
          (if leftPaddle
           then fminf (fabsf (vec_x (ball_velocity (ball game))) +
                       SPEED_INCREMENT)
                      (MAX_BALL_SPEED * ballSpeedMultiplier game)
           else - fminf (fabsf (vec_x (ball_velocity (ball game))) +
                         SPEED_INCREMENT)
                        (MAX_BALL_SPEED * ballSpeedMultiplier game))
          (h *
           (fminf (fabsf (vec_x (ball_velocity (ball game))) +
                   SPEED_INCREMENT)
                  (MAX_BALL_SPEED * ballSpeedMultiplier game) * 0.75)))).
Proof.
  destruct (CheckPaddleCollision (ball game) paddle game).
  - intro E. right. split; [reflexivity|].
    apply resolve_hit_inv in E. destruct E as (h & ps & k & Hh & ->).
    exists h. split; [exact Hh|]. split; reflexivity.
  - intro E. inversion E; subst. left. repeat split.
Qed.

(** The speed a hit gives, for a multiplier in the slider's range and a
    horizontal speed of at least 4. *)
Lemma hit_speed_bounds (vx m : Q) :
  0.5 <= m <= 2 -> 4 <= fabsf vx ->
  let speed := fminf (fabsf vx + SPEED_INCREMENT) (MAX_BALL_SPEED * m) in
  4 <= speed /\ speed <= 30 /\ speed <= MAX_BALL_SPEED * m /\
  speed <= fabsf vx + SPEED_INCREMENT.
Proof.
  intros Hm Hv. cbv zeta. unfold SPEED_INCREMENT, MAX_BALL_SPEED.
  destruct (fminf_spec (fabsf vx + 0.2) (15 * m)) as [[H ->]|[H ->]];
    repeat split; lra.
Qed.

(** The three outcomes of the scoring block. *)
Lemma UpdateGame_scoring_cases (inp : Input) (game : Game) (w : Rng)
  (g' : Game) (w' : Rng) :
  UpdateGame_scoring inp game w = Some (g', w') ->
  (-20 <= vec_x (ball_position (ball game)) <= 1300 /\
   g' = game /\ w' = w) \/
  (exists r : Z,
      (-100 <= r <= 100)%Z /\
      ((vec_x (ball_position (ball game)) < -20 /\
        playerScore g' = playerScore game /\
        aiScore g' = int_incr (aiScore game) /\
        vec_x (ball_velocity (ball g')) =
          - (BALL_INITIAL_SPEED * ballSpeedMultiplier game)) \/
       (1300 < vec_x (ball_position (ball game)) /\
        playerScore g' = int_incr (playerScore game) /\
        aiScore g' = aiScore game /\
        vec_x (ball_velocity (ball g')) =
          BALL_INITIAL_SPEED * ballSpeedMultiplier game)) /\
      ball_position (ball g') = mkVector2 640 400 /\
      vec_y (ball_velocity (ball g')) =
        inject_Z r / 100 * (BALL_INITIAL_SPEED * ballSpeedMultiplier game) /\
      scoreAnimScale g' = 1.5 /\ lastScoreTime g' = GetTime inp).
Proof.
  unfold UpdateGame_scoring.
  change (inject_Z (- BALL_RADIUS)) with (-20).
  change (inject_Z (SCREEN_WIDTH + BALL_RADIUS)) with 1300.
  destruct (vec_x (ball_position (ball game)) <? -20) eqn:E1;
    [|destruct (1300 <? vec_x (ball_position (ball game))) eqn:E2];
    cbv zeta; intro E; qprop.
  - destruct (ResetBall_tp inp (set_aiScore game (int_incr (aiScore game)))
                false w) as (g1 & w1 & E' & r & ps & k & Hr & Hg1).
    rewrite E in E'. injection E' as Eg Ew. rewrite Eg, Hg1.
    right. exists r. split; [exact Hr|].
    split; [left; repeat split; exact E1|]. repeat split.
  - destruct (ResetBall_tp inp
                (set_playerScore game (int_incr (playerScore game)))
                true w) as (g1 & w1 & E' & r & ps & k & Hr & Hg1).
    rewrite E in E'. injection E' as Eg Ew. rewrite Eg, Hg1.
    right. exists r. split; [exact Hr|].
    split; [right; repeat split; exact E2|]. repeat split.
  - inversion E; subst. left. repeat split; assumption.
Qed.

(** The serve: its vertical speed is at most its horizontal speed. *)
Lemma serve_vertical_bound (r : Z) (m : Q) :
  (-100 <= r <= 100)%Z -> 0 <= m ->
  fabsf (inject_Z r / 100 * (BALL_INITIAL_SPEED * m)) <=
  BALL_INITIAL_SPEED * m.
Proof.
  intros Hr Hm. unfold BALL_INITIAL_SPEED. apply fabsf_le.
  assert (H1 : inject_Z (-100) <= inject_Z r)
    by (rewrite <- Zle_Qle; lia).
  assert (H2 : inject_Z r <= inject_Z 100)
    by (rewrite <- Zle_Qle; lia).
  change (inject_Z (-100)) with (-100) in H1.
  change (inject_Z 100) with 100 in H2.
  unfold Qdiv. change (/ 100) with (1 # 100). split; nra.
Qed.

(** A hit block keeps the velocity bounds of a match. *)
Lemma hit_block_velocity (game : Game) (paddle : Paddle) (leftPaddle : bool)
  (w : Rng) (g' : Game) (w' : Rng) :
  (if CheckPaddleCollision (ball game) paddle game
   then resolve_hit game paddle leftPaddle
   else ret game) w = Some (g', w') ->
  0.5 <= ballSpeedMultiplier game <= 2 ->
  ball_radius (ball game) = inject_Z BALL_RADIUS ->
  rec_height (paddle_rect paddle) = inject_Z PADDLE_HEIGHT ->
  4 <= fabsf (vec_x (ball_velocity (ball game))) <= 30 ->
  fabsf (vec_y (ball_velocity (ball game))) <= 27 ->
  4 <= fabsf (vec_x (ball_velocity (ball g'))) <= 30 /\
  fabsf (vec_y (ball_velocity (ball g'))) <= 27.
Proof.
  intros E Hm Hr Hh Hvx Hvy.
  destruct (hit_block_cases _ _ _ _ _ _ E)
    as [(_ & -> & _)|(Hc & h & Hhit & _ & Hb)].
  - split; assumption.
  - destruct (hit_offset_range _ _ _ Hr Hh Hc) as (h' & Hhit' & Hrange & _).
    rewrite Hhit in Hhit'. injection Hhit' as <-.
    destruct (hit_speed_bounds (vec_x (ball_velocity (ball game)))
                (ballSpeedMultiplier game) Hm (proj1 Hvx))
      as (S1 & S2 & _ & _).
    rewrite Hb. cbn [ball_velocity set_ball_velocity vec_x vec_y].
    set (speed := fminf (fabsf (vec_x (ball_velocity (ball game))) +
                         SPEED_INCREMENT)
                        (MAX_BALL_SPEED * ballSpeedMultiplier game)) in *.
    split.
    + destruct leftPaddle; unfold fabsf.
      * rewrite Qabs_pos by lra. split; assumption.
      * rewrite Qabs_opp, Qabs_pos by lra. split; assumption.
    + apply fabsf_le. split; nra.
Qed.

(** What a playing tick (not the pausing one) establishes for the ball and
    the scores, from a game in a match with both scores below 10. *)
Lemma UpdateGame_playing_match (fuel : nat) (inp : Input) (game : Game)
  (w : Rng) (g' : Game) (w' : Rng) :
  state game = STATE_PLAYING -> IsKeyPressed inp KEY_P = false ->
  UpdateGame fuel inp game w = Some (g', w') ->
  game_inv game ->
  (0 <= playerScore game < 10)%Z -> (0 <= aiScore game < 10)%Z ->
  4 <= fabsf (vec_x (ball_velocity (ball game))) <= 30 ->
  fabsf (vec_y (ball_velocity (ball game))) <= 27 ->
  score_inv g' /\ ball_inv g'.
Proof.
  intros Hs Hp E (Hm & _ & Hmatch) Hps Has Hvx Hvy.
  destruct (Hmatch (or_introl Hs))
    as ((_ & _ & Hh1 & _) & (_ & _ & Hh2 & _) & Hr & Hw).
  destruct (UpdateGame_playing_inv _ _ _ _ _ _ Hs Hp E)
    as (g1 & w1 & g3 & w3 & g4 & w4 & g5 & E1 & E3 & E4 & E5 & ->).
  destruct (paddles_keep_ball _ _ _ _ _ _ E1)
    as (Hb1 & (y1 & Hp1) & (y2 & Ha1)).
  destruct (UpdateGame_playerPaddle_spec inp game) as (y0 & Ey0 & _).
  destruct (UpdateGame_secondPaddle_inv _ _ _ _ _ _ E1) as (y3 & Eg1 & _).
  assert (Hm1 : ballSpeedMultiplier g1 = ballSpeedMultiplier game)
    by (rewrite Eg1, Ey0; reflexivity).
  assert (Hsc1 : playerScore g1 = playerScore game /\
                 aiScore g1 = aiScore game /\ winScore g1 = winScore game)
    by (rewrite Eg1, Ey0; repeat split).
  set (mid := UpdateGame_walls (UpdateGame_moveBall g1)) in *.
  pose proof (UpdateGame_moveBall_setup g1) as K1.
  pose proof (UpdateGame_walls_setup (UpdateGame_moveBall g1)) as K2.
  fold mid in K2.
  destruct (keeps_setup_trans _ _ _ K1 K2) as (_ & Kp & Ka & Kw & _ & Km).
  destruct (UpdateGame_walls_spec (UpdateGame_moveBall g1))
    as (_ & Wvx & Wr & Wcross & Wfree).
  cbv zeta in Wvx, Wr, Wcross, Wfree. fold mid in Wvx, Wr, Wcross, Wfree.
  cbn [UpdateGame_moveBall ball set_ball ball_position ball_velocity
       ball_radius set_ball_position vec_x vec_y] in Wvx, Wr, Wcross, Wfree.
  rewrite Hb1 in Wvx, Wr, Wcross, Wfree. rewrite Hr in Wr, Wcross, Wfree.
  change (inject_Z BALL_RADIUS) with 20 in Wr, Wcross, Wfree.
  change (inject_Z SCREEN_HEIGHT) with 800 in Wcross, Wfree.
  assert (Hmid : 20 <= vec_y (ball_position (ball mid)) <= 780 /\
                 fabsf (vec_y (ball_velocity (ball mid))) <= 27).
  { set (y := vec_y (ball_position (ball game)) +
              vec_y (ball_velocity (ball game))) in *.
    destruct (Qlt_le_dec 0 (y - 20)) as [L1|L1];
      [destruct (Qlt_le_dec (y + 20) 800) as [L2|L2]|].
    - rewrite Wfree by (intros [H|H]; lra).
      cbn [ball_position ball_velocity set_ball_position vec_y].
      fold y. split; [lra|exact Hvy].
    - destruct (Wcross (or_intror L2)) as [Hv Hy]. rewrite Hv.
      split; [apply Hy; lra|].
      apply fabsf_le. apply fabsf_le in Hvy. lra.
    - destruct (Wcross (or_introl L1)) as [Hv Hy]. rewrite Hv.
      split; [apply Hy; lra|].
      apply fabsf_le. apply fabsf_le in Hvy. lra. }
  destruct Hmid as [Ymid VYmid].
  assert (VXmid : 4 <= fabsf (vec_x (ball_velocity (ball mid))) <= 30)
    by (rewrite Wvx; exact Hvx).
  assert (Rmid : ball_radius (ball mid) = inject_Z BALL_RADIUS)
    by (rewrite Wr; reflexivity).
  assert (Mmid : 0.5 <= ballSpeedMultiplier mid <= 2)
    by (rewrite Km, Hm1; exact Hm).
  (* player hit *)
  unfold UpdateGame_playerHit in E3.
  destruct (hit_block_inv _ _ _ _ _ _ E3)
    as ((_ & _ & Ka3 & Kw3 & _ & Km3) & _ & Sp3 & Sa3 & P3 & R3 & _).
  destruct (hit_block_velocity _ _ _ _ _ _ E3 Mmid Rmid) as [VX3 VY3];
    [rewrite Kp, Hp1; exact Hh1|exact VXmid|exact VYmid|].
  (* second paddle hit *)
  unfold UpdateGame_aiHit in E4.
  destruct (hit_block_inv _ _ _ _ _ _ E4)
    as ((_ & _ & _ & Kw4 & _ & Km4) & _ & Sp4 & Sa4 & P4 & R4 & _).
  destruct (hit_block_velocity _ _ _ _ _ _ E4) as [VX4 VY4];
    [rewrite Km3; exact Mmid|rewrite R3; exact Rmid
    |rewrite Ka3, Ka, Ha1; exact Hh2|exact VX3|exact VY3|].
  assert (M4 : 0.5 <= ballSpeedMultiplier g4 <= 2)
    by (rewrite Km4, Km3; exact Mmid).
  assert (Y4 : 20 <= vec_y (ball_position (ball g4)) <= 780)
    by (rewrite P4, P3; exact Ymid).
  assert (S4 : playerScore g4 = playerScore game /\
               aiScore g4 = aiScore game /\ winScore g4 = 10%Z).
  { rewrite Sp4, Sp3, Sa4, Sa3, Kw4, Kw3.
    assert (Hsm : playerScore mid = playerScore g1 /\
                  aiScore mid = aiScore g1).
    { unfold mid, UpdateGame_walls. cbv zeta.
      match goal with
      | |- context [if ?c then _ else _] => destruct c
      end; split; reflexivity. }
    destruct Hsm as [-> ->]. rewrite Kw.
    destruct Hsc1 as (-> & -> & ->). repeat split. exact Hw. }
  destruct S4 as (Sp & Sa & Sw).
  (* scoring and win check *)
  destruct (UpdateGame_gameOver_spec g5)
    as ((_ & _ & _ & Kw6 & _) & B6 & Sp6 & Sa6 & Hover & Hgo).
  cbv zeta in Kw6, B6, Sp6, Sa6, Hover, Hgo.
  destruct (UpdateGame_scoring_inv _ _ _ _ _ E5)
    as ((_ & _ & _ & Kw5 & _ & Km5) & St5 & _).
  assert (St4 : state g4 = STATE_PLAYING).
  { destruct (hit_block_inv _ _ _ _ _ _ E4) as (_ & -> & _).
    destruct (hit_block_inv _ _ _ _ _ _ E3) as (_ & -> & _).
    unfold mid, UpdateGame_walls. cbv zeta.
    match goal with
    | |- context [if ?c then _ else _] => destruct c
    end; rewrite Eg1, Ey0; exact Hs. }
  assert (Hfinal :
            ((0 <= playerScore g5 <= 10)%Z /\ (0 <= aiScore g5 <= 10)%Z /\
             ~ (playerScore g5 = 10%Z /\ aiScore g5 = 10%Z)) /\
            (-20 <= vec_x (ball_position (ball g5)) <= 1300 /\
             20 <= vec_y (ball_position (ball g5)) <= 780 /\
             4 <= fabsf (vec_x (ball_velocity (ball g5))) <= 30 /\
             fabsf (vec_y (ball_velocity (ball g5))) <= 27)).
  { destruct (UpdateGame_scoring_cases _ _ _ _ _ E5)
      as [(Hx & -> & _)|(r & Hr5 & Hside & Hpos & Hvy5 & _)].
    - rewrite Sp, Sa. split; [repeat split; lia|].
      repeat split; try apply Hx; try apply Y4; try apply VX4; exact VY4.
    - assert (Hserve : fabsf (vec_y (ball_velocity (ball g5))) <= 27).
      { rewrite Hvy5.
        pose proof (serve_vertical_bound r (ballSpeedMultiplier g4) Hr5)
          as Hsv.
        unfold BALL_INITIAL_SPEED in *. lra. }
      rewrite Hpos. cbn [vec_x vec_y].
      destruct Hside as [(_ & Hp5 & Ha5 & Hv5)|(_ & Hp5 & Ha5 & Hv5)];
        rewrite Hp5, Ha5, Hv5, Sp, Sa;
        rewrite int_incr_small by lia;
        unfold BALL_INITIAL_SPEED, fabsf.
      + rewrite Qabs_opp, Qabs_pos by lra.
        split; [repeat split; lia|].
        repeat split; try lra; try discriminate. exact Hserve.
      + rewrite Qabs_pos by lra.
        split; [repeat split; lia|].
        repeat split; try lra; try discriminate. exact Hserve. }
  destruct Hfinal as ((Hp5 & Ha5 & Hnb) & Hball).
  assert (W5 : winScore (UpdateGame_gameOver g5) = 10%Z)
    by (rewrite Kw6, Kw5; exact Sw).
  split.
  - unfold score_inv. rewrite Sp6, Sa6.
    split; [exact Hp5|]. split; [exact Ha5|]. split; [exact Hnb|].
    rewrite W5, Sp6, Sa6 in Hover, Hgo. split.
    + intro Hst.
      destruct (Z.eq_dec (playerScore g5) 10) as [H1|H1]; [left; exact H1|].
      destruct (Z.eq_dec (aiScore g5) 10) as [H2|H2]; [right; exact H2|].
      exfalso. rewrite Hgo in Hst by lia.
      rewrite St5, St4 in Hst. discriminate Hst.
    + intros [H|H]; apply Hover; lia.
  - unfold ball_inv. rewrite B6. exact Hball.
Qed.

(** ** The score and the ball in every reachable match *)

Lemma InitGame_match_inv (inp : Input) (game : Game) (m : GameMode)
  (w : Rng) (g' : Game) (w' : Rng) :
  InitGame inp game m w = Some (g', w') ->
  0.5 <= ballSpeedMultiplier game <= 2 ->
  match_inv g'.
Proof.
  intros E Hm _.
  destruct (InitGame_tp inp game m w) as (g1 & w1 & E1 & r & ps & Hr & Hg1).
  rewrite E in E1. injection E1 as Eg Ew. rewrite Eg, Hg1.
  pose proof (serve_vertical_bound r (ballSpeedMultiplier game) Hr) as Hsv.
  unfold score_inv, ball_inv.
  cbn [playerScore aiScore state ball ball_position ball_velocity vec_x
       vec_y].
  split.
  - split; [lia|]. split; [lia|]. split; [intros [H _]; discriminate H|].
    split; [intro H; discriminate H|intros [H|H]; discriminate H].
  - unfold BALL_INITIAL_SPEED, fabsf in *.
    rewrite Qabs_pos by lra.
    split; [split; discriminate|]. split; [split; discriminate|].
    split; [lra|]. lra.
Qed.

(** A game that is not over has both scores below 10. *)
Lemma score_inv_running (g : Game) :
  score_inv g -> state g <> STATE_GAME_OVER ->
  (0 <= playerScore g < 10)%Z /\ (0 <= aiScore g < 10)%Z.
Proof.
  intros (Hp & Ha & _ & Hiff) Hs.
  assert (H1 : playerScore g <> 10%Z)
    by (intro H; apply Hs, Hiff; left; exact H).
  assert (H2 : aiScore g <> 10%Z)
    by (intro H; apply Hs, Hiff; right; exact H).
  lia.
Qed.

Lemma UpdateGame_match_inv (fuel : nat) (inp : Input) (game : Game)
  (w : Rng) (g' : Game) (w' : Rng) :
  UpdateGame fuel inp game w = Some (g', w') ->
  in_match game -> game_inv game -> match_inv game -> match_inv g'.
Proof.
  intros E Hin Hinv Hmi.
  destruct (Hmi Hin) as [Hsc Hb].
  destruct Hin as [Hs|[Hs|Hs]].
  - assert (Hrun : state game <> STATE_GAME_OVER)
      by (rewrite Hs; discriminate).
    destruct (score_inv_running _ Hsc Hrun) as [Hp Ha].
    destruct (IsKeyPressed inp KEY_P) eqn:Hk.
    + unfold UpdateGame in E. rewrite Hs, Hk in E. inversion E; subst.
      intros _. split; [|exact Hb].
      destruct Hsc as (S1 & S2 & S3 & _).
      split; [exact S1|]. split; [exact S2|]. split; [exact S3|].
      cbn [state set_state playerScore aiScore].
      split; [intro H; discriminate H|intros [H|H]; lia].
    + destruct Hb as (_ & _ & Hvx & Hvy). intros _.
      exact (UpdateGame_playing_match _ _ _ _ _ _ Hs Hk E Hinv Hp Ha
               Hvx Hvy).
  - assert (Hrun : state game <> STATE_GAME_OVER)
      by (rewrite Hs; discriminate).
    destruct (score_inv_running _ Hsc Hrun) as [Hp Ha].
    unfold UpdateGame in E. rewrite Hs in E.
    destruct (IsKeyPressed inp KEY_P); inversion E; subst.
    + intros _. split; [|exact Hb].
      destruct Hsc as (S1 & S2 & S3 & _).
      split; [exact S1|]. split; [exact S2|]. split; [exact S3|].
      cbn [state set_state playerScore aiScore].
      split; [intro H; discriminate H|intros [H|H]; lia].
    + intros _. split; [exact Hsc|exact Hb].
  - unfold UpdateGame in E. rewrite Hs in E.
    destruct (IsKeyPressed inp KEY_R).
    + exact (InitGame_match_inv _ _ _ _ _ _ E (proj1 Hinv)).
    + destruct (IsKeyPressed inp KEY_M); inversion E; subst.
      * intros [H|[H|H]]; discriminate H.
      * intros _. split; [exact Hsc|exact Hb].
Qed.

Lemma DrawGame_match_inv (inp : Input) (game : Game) (w : Rng) (g' : Game)
  (w' : Rng) :
  DrawGame inp game w = Some (g', w') -> match_inv game -> match_inv g'.
Proof.
  intros E Hmi.
  destruct (DrawGame_inv _ _ _ _ _ E) as (sh & so & ps & k & ->).
  exact Hmi.
Qed.

(** The stored multiplier after the slider branch is [slider_value] of the
    pointer: one of the tenths 0.5, 0.6, ..., 2.0. *)
Lemma slider_value_tenths (mouseX : Q) :
  exists k : Z, (5 <= k <= 20)%Z /\ slider_value mouseX = inject_Z k / 10.
Proof.
  unfold slider_value.
  assert (Hc : 0 <= Clamp (mouseX - 490) 0 300 <= 300)
    by (apply Clamp_bounds; discriminate).
  assert (Hv : inject_Z 5 <=
               (0.5 + Clamp (mouseX - 490) 0 300 / 300 * 1.5) * 10
               <= inject_Z 20).
  { unfold Qdiv. change (/ 300) with (1 # 300).
    change (inject_Z 5) with 5. change (inject_Z 20) with 20. lra. }
  apply roundf_bounds in Hv; [|lia].
  unfold roundf in *.
  set (v := (0.5 + Clamp (mouseX - 490) 0 300 / 300 * 1.5) * 10) in *.
  destruct (Qle_bool 0 v).
  - exists (Qfloor (v + 0.5)). rewrite <- !Zle_Qle in Hv.
    split; [exact Hv|reflexivity].
  - exists (Qceiling (v - 0.5)). rewrite <- !Zle_Qle in Hv.
    split; [exact Hv|reflexivity].
Qed.

Lemma slider_value_range (mouseX : Q) : 0.5 <= slider_value mouseX <= 2.
Proof.
  destruct (slider_value_tenths mouseX) as (k & Hk & ->).
  assert (H5 : inject_Z 5 <= inject_Z k) by (rewrite <- Zle_Qle; lia).
  assert (H20 : inject_Z k <= inject_Z 20) by (rewrite <- Zle_Qle; lia).
  change (inject_Z 5) with 5 in H5. change (inject_Z 20) with 20 in H20.
  unfold Qdiv. change (/ 10) with (1 # 10). lra.
Qed.

(** Induction over the steps of [UpdateModeSelect]: what [InitGame] and the
    slider's write keep, the menu frame keeps. *)
Lemma UpdateModeSelect_ind (P : Game -> Prop) (inp : Input) (game : Game)
  (dragging : bool) (w : Rng) (g' : Game) (d' : bool) (w' : Rng) :
  UpdateModeSelect inp game dragging w = Some ((g', d'), w') ->
  (forall g m w0 g1 w1,
      P g -> InitGame inp g m w0 = Some (g1, w1) -> P g1) ->
  (forall g,
      P g ->
      P (set_ballSpeedMultiplier g
           (slider_value (vec_x (GetMousePosition inp))))) ->
  P game -> P g'.
Proof.
  unfold UpdateModeSelect. cbv zeta. unfold bind. intros E Hinit Hslide H0.
  match type of E with
  | match ?m w with _ => _ end = _ =>
    destruct (m w) as [[g1 w1]|] eqn:E1; [|discriminate]
  end.
  assert (H1 : P g1).
  { destruct (IsKeyPressed inp KEY_ONE || IsKeyPressed inp KEY_KP_1);
      [exact (Hinit _ _ _ _ _ H0 E1)|].
    destruct (IsKeyPressed inp KEY_TWO || IsKeyPressed inp KEY_KP_2);
      [exact (Hinit _ _ _ _ _ H0 E1)|].
    inversion E1; subst. exact H0. }
  clear E1 H0.
  assert (Hlast : forall g2 g3 w3,
             P g2 ->
             (if IsMouseButtonPressed inp
              then if CheckCollisionPointRec (GetMousePosition inp)
                        (mkRectangle (inject_Z (SCREEN_WIDTH ÷ 2 - 200))
                           (inject_Z (SCREEN_HEIGHT ÷ 2 - 30)) 400 60)
                   then InitGame inp g2 MODE_AI
                   else if CheckCollisionPointRec (GetMousePosition inp)
                             (mkRectangle
                                (inject_Z (SCREEN_WIDTH ÷ 2 - 200))
                                (inject_Z (SCREEN_HEIGHT ÷ 2 + 30)) 400 60)
                        then InitGame inp g2 MODE_MULTIPLAYER
                        else ret g2
              else ret g2) w1 = Some (g3, w3) ->
             P g3).
  { intros g2 g3 w3 H2.
    destruct (IsMouseButtonPressed inp);
      [|intro E0; inversion E0; subst; exact H2].
    match goal with
    | |- (if ?c then _ else _) _ = _ -> _ =>
      destruct c; [intro E0; exact (Hinit _ _ _ _ _ H2 E0)|]
    end.
    match goal with
    | |- (if ?c then _ else _) _ = _ -> _ =>
      destruct c; [intro E0; exact (Hinit _ _ _ _ _ H2 E0)|]
    end.
    intro E0. inversion E0; subst. exact H2. }
  cbn [rec_x rec_y rec_width rec_height] in E.
  destruct (IsMouseButtonDown inp).
  - destruct (dragging ||
              CheckCollisionPointRec (GetMousePosition inp)
                (mkRectangle (inject_Z (SCREEN_WIDTH ÷ 2 - 150))
                   (inject_Z (SCREEN_HEIGHT * 3 ÷ 4) - 10) 300 (20 + 20))).
    + match type of E with
      | match ?m w1 with _ => _ end = _ =>
        destruct (m w1) as [[g3 w3]|] eqn:E3; [|discriminate]
      end.
      inversion E; subst.
      refine (Hlast _ _ _ _ E3). exact (Hslide _ H1).
    + match type of E with
      | match ?m w1 with _ => _ end = _ =>
        destruct (m w1) as [[g3 w3]|] eqn:E3; [|discriminate]
      end.
      inversion E; subst. exact (Hlast _ _ _ H1 E3).
  - match type of E with
    | match ?m w1 with _ => _ end = _ =>
      destruct (m w1) as [[g3 w3]|] eqn:E3; [|discriminate]
    end.
    inversion E; subst. exact (Hlast _ _ _ H1 E3).
Qed.

Lemma UpdateModeSelect_match_inv (inp : Input) (game : Game)
  (dragging : bool) (w : Rng) (g' : Game) (d' : bool) (w' : Rng) :
  UpdateModeSelect inp game dragging w = Some ((g', d'), w') ->
  game_inv game -> match_inv game -> match_inv g'.
Proof.
  intros E Hinv Hmi.
  refine (proj2 (UpdateModeSelect_ind
                   (fun g => 0.5 <= ballSpeedMultiplier g <= 2 /\
                             match_inv g)
                   _ _ _ _ _ _ _ E _ _ (conj (proj1 Hinv) Hmi))).
  - intros g m w0 g1 w1 [Hm _] E0. split.
    + destruct (InitGame_game_inv _ _ _ _ _ _ E0 Hm) as [(Hm1 & _) _].
      exact Hm1.
    + exact (InitGame_match_inv _ _ _ _ _ _ E0 Hm).
  - intros g [_ Hg]. split; [|exact Hg].
    cbn [ballSpeedMultiplier set_ballSpeedMultiplier].
    apply slider_value_range.
Qed.

Lemma match_inv_initial : match_inv initial_game.
Proof. intros [H|[H|H]]; discriminate H. Qed.

Lemma main_loop_match_inv (fuel : nat) (inp : Input) (app : App) (w : Rng)
  (app' : App) (w' : Rng) :
  main_loop fuel inp app w = Some (app', w') ->
  game_inv (fst app) -> match_inv (fst app) -> match_inv (fst app').
Proof.
  destruct app as [game dragging]. destruct app' as [g' d'].
  cbn [fst]. unfold main_loop. intros E Hinv Hmi.
  assert (H0 : game_inv (if IsKeyPressed inp KEY_F
                         then ToggleGameFullscreen game else game) /\
               match_inv (if IsKeyPressed inp KEY_F
                          then ToggleGameFullscreen game else game)).
  { destruct (IsKeyPressed inp KEY_F); [|exact (conj Hinv Hmi)].
    unfold ToggleGameFullscreen.
    destruct (negb (fullscreen game)); exact (conj Hinv Hmi). }
  set (g0 := if IsKeyPressed inp KEY_F
             then ToggleGameFullscreen game else game) in *.
  destruct H0 as [Hinv0 Hmi0].
  assert (Hplay : in_match g0 ->
                  (g1 <- UpdateGame fuel inp g0 ;;
                   g2 <- DrawGame inp g1 ;; ret (g2, dragging)) w
                  = Some (g', d', w') -> match_inv g').
  { unfold bind. intros Hin E0.
    destruct (UpdateGame fuel inp g0 w) as [[g1 w1]|] eqn:E1;
      [|discriminate].
    destruct (DrawGame inp g1 w1) as [[g2 w2]|] eqn:E2; [|discriminate].
    inversion E0; subst.
    apply (DrawGame_match_inv _ _ _ _ _ E2).
    exact (UpdateGame_match_inv _ _ _ _ _ _ E1 Hin Hinv0 Hmi0). }
  destruct (state g0) eqn:Hs0.
  - inversion E; subst. unfold UpdateSplashScreen.
    destruct (IsMouseButtonPressed inp || IsKeyPressed inp KEY_SPACE).
    + intros [H|[H|H]]; discriminate H.
    + intros [H|[H|H]]; rewrite Hs0 in H; discriminate H.
  - exact (UpdateModeSelect_match_inv _ _ _ _ _ _ _ E Hinv0 Hmi0).
  - apply Hplay; [left; exact Hs0|exact E].
  - apply Hplay; [right; left; exact Hs0|exact E].
  - apply Hplay; [right; right; exact Hs0|exact E].
Qed.

Lemma run_frames_match_inv (fuel : nat) (inps : list Input) :
  forall (app : App) (w : Rng) (app' : App) (w' : Rng),
    run_frames fuel inps app w = Some (app', w') ->
    game_inv (fst app) -> match_inv (fst app) ->
    game_inv (fst app') /\ match_inv (fst app').
Proof.
  induction inps as [|inp inps IH]; intros app w app' w' E Hinv Hmi.
  - inversion E; subst. exact (conj Hinv Hmi).
  - cbn [run_frames] in E. unfold bind in E.
    destruct (main_loop fuel inp app w) as [[app1 w1]|] eqn:E1;
      [|discriminate].
    apply (IH _ _ _ _ E).
    + exact (main_loop_game_inv _ _ _ _ _ _ E1 Hinv).
    + exact (main_loop_match_inv _ _ _ _ _ _ E1 Hinv Hmi).
Qed.

Lemma reachable_match_inv (fuel : nat) (inps : list Input) (w : Rng)
  (app' : App) (w' : Rng) :
  run_frames fuel inps initial_app w = Some (app', w') ->
  in_match (fst app') -> score_inv (fst app') /\ ball_inv (fst app').
Proof.
  intros E Hin.
  exact (proj2 (run_frames_match_inv _ _ _ _ _ _ E game_inv_initial
                  match_inv_initial) Hin).
Qed.

(** X1. In every state the program reaches during a match (playing, paused
    or game over), whatever the inputs and the random draws: both scores
    are between 0 and 10, they are never both 10, and the match is over
    exactly when one of them is 10. *)
Theorem reachable_scores :
  forall (fuel : nat) (inps : list Input) (w : Rng) (app' : App) (w' : Rng),
    run_frames fuel inps initial_app w = Some (app', w') ->
    in_match (fst app') ->
    let g := fst app' in
    (0 <= playerScore g <= 10)%Z /\ (0 <= aiScore g <= 10)%Z /\
    ~ (playerScore g = 10%Z /\ aiScore g = 10%Z) /\
    (state g = STATE_GAME_OVER <->
     (playerScore g = 10%Z \/ aiScore g = 10%Z)).
Proof.
  intros fuel inps w app' w' E Hin.
  exact (proj1 (reachable_match_inv _ _ _ _ _ E Hin)).
Qed.

Lemma reachable_scores_witness :
  exists app' w',
    run_frames 3 shutout_frames initial_app [] = Some (app', w') /\
    in_match (fst app') /\
    (0 <= playerScore (fst app') <= 10)%Z /\
    (0 <= aiScore (fst app') <= 10)%Z /\
    (state (fst app') = STATE_GAME_OVER <->
     (playerScore (fst app') = 10%Z \/ aiScore (fst app') = 10%Z)).
Proof.
  assert (E : run_frames 3 shutout_frames initial_app [] = Some (_, _))
    by (vm_compute; reflexivity).
  match type of E with
  | _ = Some (?a, ?w0) =>
    exists a, w0; assert (Hin : in_match (fst a))
        by (right; right; reflexivity)
  end.
  destruct (reachable_scores _ _ _ _ _ E Hin) as (H1 & H2 & _ & H4).
  split; [exact E|]. split; [exact Hin|].
  split; [exact H1|]. split; [exact H2|exact H4].
Defined.

(** X2. In every state the program reaches during a match the ball's
    centre is at most one radius outside the court horizontally
    ([-20, 1300]) and at least one radius away from the top and bottom
    walls ([20, 780]). *)
Theorem reachable_ball_in_court :
  forall (fuel : nat) (inps : list Input) (w : Rng) (app' : App) (w' : Rng),
    run_frames fuel inps initial_app w = Some (app', w') ->
    in_match (fst app') ->
    let b := ball (fst app') in
    - inject_Z BALL_RADIUS <= vec_x (ball_position b)
      <= inject_Z (SCREEN_WIDTH + BALL_RADIUS) /\
    inject_Z BALL_RADIUS <= vec_y (ball_position b)
      <= inject_Z (SCREEN_HEIGHT - BALL_RADIUS).
Proof.
  intros fuel inps w app' w' E Hin.
  destruct (reachable_match_inv _ _ _ _ _ E Hin) as (_ & Hx & Hy & _).
  split; [exact Hx|exact Hy].
Qed.

Lemma reachable_ball_in_court_witness :
  exists app' w',
    run_frames 3
      (key_input KEY_SPACE :: key_input KEY_TWO :: repeat idle_input 60)
      initial_app [] = Some (app', w') /\
    in_match (fst app') /\
    -20 <= vec_x (ball_position (ball (fst app'))) <= 1300 /\
    20 <= vec_y (ball_position (ball (fst app'))) <= 780.
Proof.
  assert (E : run_frames 3
                (key_input KEY_SPACE :: key_input KEY_TWO ::
                 repeat idle_input 60) initial_app [] = Some (_, _))
    by (vm_compute; reflexivity).
  match type of E with
  | _ = Some (?a, ?w0) =>
    exists a, w0; assert (Hin : in_match (fst a)) by (left; reflexivity)
  end.
  destruct (reachable_ball_in_court _ _ _ _ _ E Hin) as (H1 & H2).
  split; [exact E|]. split; [exact Hin|]. split; [exact H1|exact H2].
Defined.



(** X4. Whenever the program is in STATE_GAME_OVER, the overlay [DrawGame]
    shows names the side that has 10 points, and the other side has fewer:
    the first player's text when [playerScore] is 10, the second side's
    text (AI or player 2, by mode) when [aiScore] is 10. *)
Theorem reachable_winner_overlay :
  forall (fuel : nat) (inps : list Input) (w : Rng) (app' : App) (w' : Rng),
    run_frames fuel inps initial_app w = Some (app', w') ->
    state (fst app') = STATE_GAME_OVER ->
    let g := fst app' in
    (playerScore g = 10%Z /\ (aiScore g < 10)%Z /\
     DrawGame_overlay g =
     GameOverOverlay (match mode g with
                      | MODE_AI => "YOU WIN!"
                      | MODE_MULTIPLAYER => "PLAYER 1 WINS!"
                      end)) \/
    (aiScore g = 10%Z /\ (playerScore g < 10)%Z /\
     DrawGame_overlay g =
     GameOverOverlay (match mode g with
                      | MODE_AI => "AI WINS!"
                      | MODE_MULTIPLAYER => "PLAYER 2 WINS!"
                      end)).
Proof.
  intros fuel inps w app' w' E Hs. cbv zeta.
  assert (Hin : in_match (fst app')) by (right; right; exact Hs).
  destruct (reachable_match_inv _ _ _ _ _ E Hin)
    as ((Hp & Ha & Hnb & Hiff) & _).
  destruct (reachable_game_inv _ _ _ _ _ E) as (_ & _ & Hm).
  destruct (Hm Hin) as (_ & _ & _ & Hw).
  unfold DrawGame_overlay, DrawGame_winnerLabel. rewrite Hs, Hw.
  destruct (proj1 Hiff Hs) as [H|H].
  - left. split; [exact H|]. split; [lia|].
    rewrite H. reflexivity.
  - right. split; [exact H|]. split; [lia|].
    destruct (Z.leb_spec 10 (playerScore (fst app'))) as [L|L]; [lia|].
    reflexivity.
Qed.

Lemma reachable_winner_overlay_witness :
  exists app' w',
    run_frames 3 shutout_frames initial_app [] = Some (app', w') /\
    state (fst app') = STATE_GAME_OVER /\
    playerScore (fst app') = 10%Z /\
    DrawGame_overlay (fst app') = GameOverOverlay "PLAYER 1 WINS!".
Proof.
  assert (E : run_frames 3 shutout_frames initial_app [] = Some (_, _))
    by (vm_compute; reflexivity).
  match type of E with
  | _ = Some (?a, ?w0) => exists a, w0
  end.
  split; [exact E|]. split; [reflexivity|].
  destruct (reachable_winner_overlay _ _ _ _ _ E eq_refl)
    as [(H1 & _ & H2)|(H1 & _)].
  - split; [exact H1|exact H2].
  - discriminate H1.
Defined.

(** ** The phases of the program *)

Lemma ToggleGameFullscreen_keeps (game : Game) :
  state (ToggleGameFullscreen game) = state game /\
  same_match game (ToggleGameFullscreen game) /\
  game_inv (ToggleGameFullscreen game) = game_inv game.
Proof.
  unfold ToggleGameFullscreen.
  destruct (negb (fullscreen game)); repeat split.
Qed.

(** The frame of a match: [UpdateGame], then [DrawGame]. *)
Lemma main_loop_match_frame (fuel : nat) (inp : Input) (game : Game)
  (d : bool) (w : Rng) :
  in_match game ->
  main_loop fuel inp (game, d) w =
  (g1 <- UpdateGame fuel inp
           (if IsKeyPressed inp KEY_F then ToggleGameFullscreen game
            else game) ;;
   g2 <- DrawGame inp g1 ;; ret (g2, d)) w.
Proof.
  intro Hin. unfold main_loop.
  assert (H0 : state (if IsKeyPressed inp KEY_F
                      then ToggleGameFullscreen game else game)
               = state game).
  { destruct (IsKeyPressed inp KEY_F); [|reflexivity].
    apply ToggleGameFullscreen_keeps. }
  rewrite H0. destruct Hin as [Hs|[Hs|Hs]]; rewrite Hs; reflexivity.
Qed.

Lemma DrawGame_total (inp : Input) (game : Game) (w : Rng) :
  exists g' w', DrawGame inp game w = Some (g', w').
Proof.
  unfold DrawGame. cbv zeta. unfold bind.
  match goal with
  | |- context [if ?c then _ else _] => destruct c
  end.
  - destruct (GetRandomValue_tp (-10) 10 ltac:(lia) w)
      as (rx & w1 & -> & _).
    destruct (GetRandomValue_tp (-10) 10 ltac:(lia) w1)
      as (ry & w2 & -> & _).
    eexists. eexists. reflexivity.
  - eexists. eexists. reflexivity.
Qed.

Lemma DrawGame_keeps (inp : Input) (game : Game) (w : Rng) (g' : Game)
  (w' : Rng) :
  DrawGame inp game w = Some (g', w') ->
  state g' = state game /\ same_match game g'.
Proof.
  intro E. destruct (DrawGame_inv _ _ _ _ _ E) as (sh & so & ps & k & ->).
  repeat split.
Qed.

(** A menu frame in which no mode is chosen stays in the menu's game. *)
Lemma UpdateModeSelect_no_choice (inp : Input) (game : Game)
  (dragging : bool) (w : Rng) (g' : Game) (d' : bool) (w' : Rng) :
  UpdateModeSelect inp game dragging w = Some ((g', d'), w') ->
  mode_chosen inp = false -> state g' = state game.
Proof.
  unfold mode_chosen. intros E Hc.
  apply orb_false_elim in Hc. destruct Hc as [Hc Hm].
  apply orb_false_elim in Hc. destruct Hc as [Hc H4].
  apply orb_false_elim in Hc. destruct Hc as [Hc H3].
  apply orb_false_elim in Hc. destruct Hc as [H1 H2].
  unfold UpdateModeSelect in E. cbv zeta in E. unfold bind in E.
  rewrite H1, H2, H3, H4, Hm in E. cbn [orb ret] in E.
  destruct (IsMouseButtonDown inp).
  - match type of E with
    | context [if ?c then _ else _] => destruct c
    end; inversion E; subst; reflexivity.
  - inversion E; subst. reflexivity.
Qed.

Lemma UpdateModeSelect_state (inp : Input) (game : Game)
  (dragging : bool) (w : Rng) (g' : Game) (d' : bool) (w' : Rng) :
  UpdateModeSelect inp game dragging w = Some ((g', d'), w') ->
  state game = STATE_MODE_SELECT ->
  state g' = STATE_MODE_SELECT \/ state g' = STATE_PLAYING.
Proof.
  intros E Hs.
  refine (UpdateModeSelect_ind
            (fun g => state g = STATE_MODE_SELECT \/
                      state g = STATE_PLAYING)
            _ _ _ _ _ _ _ E _ _ (or_introl Hs)).
  - intros g m w0 g1 w1 _ E0.
    destruct (InitGame_tp inp g m w0) as (g2 & w2 & E2 & r & ps & _ & Hg2).
    rewrite E0 in E2. injection E2 as Eg Ew. rewrite Eg, Hg2.
    right. reflexivity.
  - intros g Hg. exact Hg.
Qed.

(** X5. The phase changes of one frame of the main loop, by the phase it
    starts in: the splash screen ends on a click or SPACE; the menu is left
    only for a match, and only in a frame in which a mode was chosen; a
    match is paused by P, and otherwise goes on or ends; a pause ends by P
    alone; a finished match restarts by R, returns to the menu by M (when
    R is not pressed), and otherwise stays.  No frame ever returns to the
    splash screen. *)
Theorem main_loop_transitions :
  forall (fuel : nat) (inp : Input) (game : Game) (d : bool) (w : Rng)
         (g' : Game) (d' : bool) (w' : Rng),
    main_loop fuel inp (game, d) w = Some ((g', d'), w') ->
    match state game with
    | STATE_SPLASH =>
      state g' = if IsMouseButtonPressed inp || IsKeyPressed inp KEY_SPACE
                 then STATE_MODE_SELECT else STATE_SPLASH
    | STATE_MODE_SELECT =>
      (state g' = STATE_MODE_SELECT \/ state g' = STATE_PLAYING) /\
      (mode_chosen inp = false -> state g' = STATE_MODE_SELECT)
    | STATE_PLAYING =>
      if IsKeyPressed inp KEY_P then state g' = STATE_PAUSED
      else state g' = STATE_PLAYING \/ state g' = STATE_GAME_OVER
    | STATE_PAUSED =>
      state g' = if IsKeyPressed inp KEY_P then STATE_PLAYING
                 else STATE_PAUSED
    | STATE_GAME_OVER =>
      state g' = if IsKeyPressed inp KEY_R then STATE_PLAYING
                 else if IsKeyPressed inp KEY_M then STATE_MODE_SELECT
                      else STATE_GAME_OVER
    end.
Proof.
  intros fuel inp game d w g' d' w' E.
  assert (H0 : state (if IsKeyPressed inp KEY_F
                      then ToggleGameFullscreen game else game)
               = state game).
  { destruct (IsKeyPressed inp KEY_F); [|reflexivity].
    apply ToggleGameFullscreen_keeps. }
  assert (Hframe : in_match game ->
            exists g1 w1,
              UpdateGame fuel inp
                (if IsKeyPressed inp KEY_F then ToggleGameFullscreen game
                 else game) w = Some (g1, w1) /\
              state g' = state g1).
  { intro Hin. rewrite (main_loop_match_frame _ _ _ _ _ Hin) in E.
    unfold bind in E.
    match type of E with
    | match ?m with _ => _ end = _ =>
      destruct m as [[g1 w1]|] eqn:E1; [|discriminate]
    end.
    destruct (DrawGame inp g1 w1) as [[g2 w2]|] eqn:E2; [|discriminate].
    inversion E; subst. exists g1, w1. split; [reflexivity|].
    apply (DrawGame_keeps _ _ _ _ _ E2). }
  set (g0 := if IsKeyPressed inp KEY_F then ToggleGameFullscreen game
             else game) in *.
  destruct (state game) eqn:Hs.
  - unfold main_loop in E. fold g0 in E. rewrite H0 in E.
    inversion E; subst. unfold UpdateSplashScreen.
    destruct (IsMouseButtonPressed inp || IsKeyPressed inp KEY_SPACE);
      [reflexivity|exact H0].
  - unfold main_loop in E. fold g0 in E. rewrite H0 in E. split.
    + exact (UpdateModeSelect_state _ _ _ _ _ _ _ E H0).
    + intro Hc. rewrite (UpdateModeSelect_no_choice _ _ _ _ _ _ _ E Hc).
      exact H0.
  - destruct (Hframe (or_introl Hs)) as (g1 & w1 & E1 & ->).
    destruct (IsKeyPressed inp KEY_P) eqn:Hp.
    + unfold UpdateGame in E1. rewrite H0, Hp in E1.
      inversion E1; subst. reflexivity.
    + destruct (UpdateGame_playing_summary _ _ _ _ _ _ H0 Hp E1)
        as (_ & _ & _ & _ & _ & _ & Hover & Hplay).
      destruct (Z_le_dec (winScore g1) (playerScore g1)) as [H1|H1];
        [right; apply Hover; left; exact H1|].
      destruct (Z_le_dec (winScore g1) (aiScore g1)) as [H2|H2];
        [right; apply Hover; right; exact H2|].
      left. apply Hplay. intros [H|H]; contradiction.
  - destruct (Hframe (or_intror (or_introl Hs)))
      as (g1 & w1 & E1 & ->).
    unfold UpdateGame in E1. rewrite H0 in E1.
    destruct (IsKeyPressed inp KEY_P); inversion E1; subst;
      [reflexivity|exact H0].
  - destruct (Hframe (or_intror (or_intror Hs)))
      as (g1 & w1 & E1 & ->).
    unfold UpdateGame in E1. rewrite H0 in E1.
    destruct (IsKeyPressed inp KEY_R).
    + destruct (InitGame_tp inp g0 (mode g0) w)
        as (g2 & w2 & E2 & r & ps & _ & Hg2).
      rewrite E1 in E2. injection E2 as Eg Ew. rewrite Eg, Hg2.
      reflexivity.
    + destruct (IsKeyPressed inp KEY_M); inversion E1; subst;
        [reflexivity|exact H0].
Qed.

Lemma main_loop_transitions_witness :
  exists g' d' w',
    main_loop 3 (key_input KEY_P) (playing_game, false) []
    = Some ((g', d'), w') /\
    state g' = STATE_PAUSED.
Proof.
  assert (E : main_loop 3 (key_input KEY_P) (playing_game, false) []
              = Some ((_, _), _)) by (vm_compute; reflexivity).
  match type of E with
  | _ = Some ((?a, ?b), ?c) => exists a, b, c
  end.
  split; [exact E|].
  exact (main_loop_transitions _ _ _ _ _ _ _ _ E).
Defined.

(** ** Pausing *)

(** A frame with the pause key, from a match that is playing or paused:
    the phase flips and the match is untouched. *)
Lemma main_loop_pause_key (fuel : nat) (inp : Input) (game : Game)
  (d : bool) (w : Rng) :
  state game = STATE_PLAYING \/ state game = STATE_PAUSED ->
  IsKeyPressed inp KEY_P = true ->
  exists g' w',
    main_loop fuel inp (game, d) w = Some ((g', d), w') /\
    state g' = (if match state game with
                   | STATE_PLAYING => true
                   | _ => false
                   end then STATE_PAUSED else STATE_PLAYING) /\
    same_match game g'.
Proof.
  intros Hs Hp.
  assert (Hin : in_match game) by (destruct Hs as [H|H]; [left|right; left];
                                   exact H).
  rewrite (main_loop_match_frame _ _ _ _ _ Hin).
  assert (H0 : state (if IsKeyPressed inp KEY_F
                      then ToggleGameFullscreen game else game)
               = state game /\
               same_match game (if IsKeyPressed inp KEY_F
                                then ToggleGameFullscreen game else game)).
  { destruct (IsKeyPressed inp KEY_F);
      [split; apply ToggleGameFullscreen_keeps|repeat split]. }
  set (g0 := if IsKeyPressed inp KEY_F then ToggleGameFullscreen game
             else game) in *.
  destruct H0 as [Hs0 Hm0].
  unfold bind, UpdateGame. rewrite Hs0.
  destruct Hs as [Hs|Hs]; rewrite Hs, Hp; cbn [ret].
  - destruct (DrawGame_total inp (set_state g0 STATE_PAUSED) w)
      as (g2 & w2 & E2).
    rewrite E2. exists g2, w2. split; [reflexivity|].
    destruct (DrawGame_keeps _ _ _ _ _ E2) as [Hst Hk].
    split; [rewrite Hst; reflexivity|].
    unfold same_match in *. cbn [ball playerPaddle aiPaddle playerScore
      aiScore winScore mode ballSpeedMultiplier set_state] in Hk.
    destruct Hk as (K1 & K2 & K3 & K4 & K5 & K6 & K7 & K8).
    destruct Hm0 as (M1 & M2 & M3 & M4 & M5 & M6 & M7 & M8).
    rewrite K1, K2, K3, K4, K5, K6, K7, K8.
    repeat split; assumption.
  - destruct (DrawGame_total inp (set_state g0 STATE_PLAYING) w)
      as (g2 & w2 & E2).
    rewrite E2. exists g2, w2. split; [reflexivity|].
    destruct (DrawGame_keeps _ _ _ _ _ E2) as [Hst Hk].
    split; [rewrite Hst; reflexivity|].
    unfold same_match in *. cbn [ball playerPaddle aiPaddle playerScore
      aiScore winScore mode ballSpeedMultiplier set_state] in Hk.
    destruct Hk as (K1 & K2 & K3 & K4 & K5 & K6 & K7 & K8).
    destruct Hm0 as (M1 & M2 & M3 & M4 & M5 & M6 & M7 & M8).
    rewrite K1, K2, K3, K4, K5, K6, K7, K8.
    repeat split; assumption.
Qed.

(** Paused frames without the pause key leave the match as it is. *)
Lemma run_frames_paused (fuel : nat) (inps : list Input) :
  forall (game : Game) (d : bool) (w : Rng),
    state game = STATE_PAUSED ->
    Forall (fun inp => IsKeyPressed inp KEY_P = false) inps ->
    exists g' w',
      run_frames fuel inps (game, d) w = Some ((g', d), w') /\
      state g' = STATE_PAUSED /\ same_match game g'.
Proof.
  induction inps as [|inp inps IH]; intros game d w Hs Hall.
  - exists game, w. split; [reflexivity|]. split; [exact Hs|].
    repeat split.
  - inversion Hall as [|? ? Hp Hrest]; subst.
    cbn [run_frames]. unfold bind at 1.
    assert (Hin : in_match game) by (right; left; exact Hs).
    rewrite (main_loop_match_frame _ _ _ _ _ Hin).
    assert (H0 : state (if IsKeyPressed inp KEY_F
                        then ToggleGameFullscreen game else game)
                 = state game /\
                 same_match game (if IsKeyPressed inp KEY_F
                                  then ToggleGameFullscreen game
                                  else game)).
    { destruct (IsKeyPressed inp KEY_F);
        [split; apply ToggleGameFullscreen_keeps|repeat split]. }
    set (g0 := if IsKeyPressed inp KEY_F then ToggleGameFullscreen game
               else game) in *.
    destruct H0 as [Hs0 Hm0].
    unfold bind, UpdateGame. rewrite Hs0, Hs, Hp. cbn [ret].
    destruct (DrawGame_total inp g0 w) as (g2 & w2 & E2). rewrite E2.
    destruct (DrawGame_keeps _ _ _ _ _ E2) as [Hst Hk].
    destruct (IH g2 d w2) as (g' & w' & E' & Hs' & Hk');
      [rewrite Hst, Hs0; exact Hs|exact Hrest|].
    exists g', w'. split; [exact E'|]. split; [exact Hs'|].
    unfold same_match in *.
    destruct Hk as (K1 & K2 & K3 & K4 & K5 & K6 & K7 & K8).
    destruct Hm0 as (M1 & M2 & M3 & M4 & M5 & M6 & M7 & M8).
    destruct Hk' as (L1 & L2 & L3 & L4 & L5 & L6 & L7 & L8).
    rewrite L1, L2, L3, L4, L5, L6, L7, L8.
    rewrite K1, K2, K3, K4, K5, K6, K7, K8.
    repeat split; assumption.
Qed.

Lemma run_frames_app (fuel : nat) (l1 l2 : list Input) :
  forall (a0 : App) (w : Rng),
    run_frames fuel (l1 ++ l2) a0 w =
    (a <- run_frames fuel l1 a0 ;; run_frames fuel l2 a) w.
Proof.
  induction l1 as [|inp l1 IH]; intros a0 w.
  - reflexivity.
  - cbn [app run_frames]. unfold bind.
    destruct (main_loop fuel inp a0 w) as [[a1 w1]|]; [|reflexivity].
    rewrite IH. reflexivity.
Qed.

(** X6. Pausing and resuming is a round trip for the match.  From a game
    in play, a frame with P pressed, then any number of frames without P,
    then a frame with P pressed again: the program returns, is playing
    again, and the ball, both paddles, both scores, the mode and the speed
    multiplier are exactly those before the pause, whatever else was
    pressed meanwhile. *)
Theorem pause_resume_round_trip :
  forall (fuel : nat) (inpP : Input) (inps : list Input) (inpR : Input)
         (game : Game) (d : bool) (w : Rng),
    state game = STATE_PLAYING ->
    IsKeyPressed inpP KEY_P = true ->
    Forall (fun inp => IsKeyPressed inp KEY_P = false) inps ->
    IsKeyPressed inpR KEY_P = true ->
    exists g' w',
      run_frames fuel (inpP :: inps ++ [inpR]) (game, d) w
      = Some ((g', d), w') /\
      state g' = STATE_PLAYING /\ same_match game g'.
Proof.
  intros fuel inpP inps inpR game d w Hs HP Hall HR.
  destruct (main_loop_pause_key fuel inpP game d w (or_introl Hs) HP)
    as (g1 & w1 & E1 & Hs1 & K1).
  rewrite Hs in Hs1.
  destruct (run_frames_paused fuel inps g1 d w1 Hs1 Hall)
    as (g2 & w2 & E2 & Hs2 & K2).
  destruct (main_loop_pause_key fuel inpR g2 d w2 (or_intror Hs2) HR)
    as (g3 & w3 & E3 & Hs3 & K3).
  rewrite Hs2 in Hs3.
  exists g3, w3. split.
  - cbn [run_frames]. unfold bind at 1. rewrite E1.
    rewrite run_frames_app. unfold bind at 1. rewrite E2.
    cbn [run_frames]. unfold bind. rewrite E3. reflexivity.
  - split; [exact Hs3|].
    unfold same_match in *.
    destruct K1 as (A1 & A2 & A3 & A4 & A5 & A6 & A7 & A8).
    destruct K2 as (B1 & B2 & B3 & B4 & B5 & B6 & B7 & B8).
    destruct K3 as (C1 & C2 & C3 & C4 & C5 & C6 & C7 & C8).
    rewrite C1, C2, C3, C4, C5, C6, C7, C8.
    rewrite B1, B2, B3, B4, B5, B6, B7, B8.
    repeat split; assumption.
Qed.

Lemma pause_resume_round_trip_witness :
  exists g' w',
    run_frames 3
      (key_input KEY_P :: [idle_input; key_input KEY_R; idle_input] ++
       [key_input KEY_P]) (playing_game, false) [] = Some ((g', false), w') /\
    state g' = STATE_PLAYING /\ ball g' = ball playing_game /\
    playerScore g' = playerScore playing_game.
Proof.
  destruct (pause_resume_round_trip 3 (key_input KEY_P)
              [idle_input; key_input KEY_R; idle_input] (key_input KEY_P)
              playing_game false [] eq_refl eq_refl)
    as (g' & w' & E & Hs & Hb & _ & _ & Hp & _).
  - repeat constructor.
  - reflexivity.
  - exists g', w'. split; [exact E|]. split; [exact Hs|].
    split; [exact Hb|exact Hp].
Defined.

(** ** Every frame returns *)

Lemma InitGame_total (inp : Input) (game : Game) (m : GameMode) (w : Rng) :
  exists g' w', InitGame inp game m w = Some (g', w').
Proof.
  destruct (InitGame_tp inp game m w) as (g' & w' & E & _).
  exists g', w'. exact E.
Qed.

Lemma UpdateModeSelect_total (inp : Input) (game : Game) (dragging : bool)
  (w : Rng) :
  exists a' w', UpdateModeSelect inp game dragging w = Some (a', w').
Proof.
  unfold UpdateModeSelect. cbv zeta. unfold bind.
  assert (H1 : exists g1 w1,
             (if IsKeyPressed inp KEY_ONE || IsKeyPressed inp KEY_KP_1
              then InitGame inp game MODE_AI
              else if IsKeyPressed inp KEY_TWO || IsKeyPressed inp KEY_KP_2
                   then InitGame inp game MODE_MULTIPLAYER
                   else ret game) w = Some (g1, w1)).
  { destruct (IsKeyPressed inp KEY_ONE || IsKeyPressed inp KEY_KP_1);
      [apply InitGame_total|].
    destruct (IsKeyPressed inp KEY_TWO || IsKeyPressed inp KEY_KP_2);
      [apply InitGame_total|].
    exists game, w. reflexivity. }
  destruct H1 as (g1 & w1 & ->).
  assert (Hlast : forall g2 (d2 : bool),
             exists a' w',
               match
                 (if IsMouseButtonPressed inp
                  then if CheckCollisionPointRec (GetMousePosition inp)
                            (mkRectangle (inject_Z (SCREEN_WIDTH ÷ 2 - 200))
                               (inject_Z (SCREEN_HEIGHT ÷ 2 - 30)) 400 60)
                       then InitGame inp g2 MODE_AI
                       else if CheckCollisionPointRec (GetMousePosition inp)
                                 (mkRectangle
                                    (inject_Z (SCREEN_WIDTH ÷ 2 - 200))
                                    (inject_Z (SCREEN_HEIGHT ÷ 2 + 30))
                                    400 60)
                            then InitGame inp g2 MODE_MULTIPLAYER
                            else ret g2
                  else ret g2) w1
               with
               | Some (a, w2) => ret (a, d2) w2
               | None => None
               end = Some (a', w')).
  { intros g2 d2.
    assert (H3 : exists g3 w3,
               (if IsMouseButtonPressed inp
                then if CheckCollisionPointRec (GetMousePosition inp)
                          (mkRectangle (inject_Z (SCREEN_WIDTH ÷ 2 - 200))
                             (inject_Z (SCREEN_HEIGHT ÷ 2 - 30)) 400 60)
                     then InitGame inp g2 MODE_AI
                     else if CheckCollisionPointRec (GetMousePosition inp)
                               (mkRectangle
                                  (inject_Z (SCREEN_WIDTH ÷ 2 - 200))
                                  (inject_Z (SCREEN_HEIGHT ÷ 2 + 30))
                                  400 60)
                          then InitGame inp g2 MODE_MULTIPLAYER
                          else ret g2
                else ret g2) w1 = Some (g3, w3)).
    { destruct (IsMouseButtonPressed inp); [|exists g2, w1; reflexivity].
      match goal with
      | |- context [if ?c then _ else _] =>
        destruct c; [apply InitGame_total|]
      end.
      match goal with
      | |- context [if ?c then _ else _] =>
        destruct c; [apply InitGame_total|]
      end.
      exists g2, w1. reflexivity. }
    destruct H3 as (g3 & w3 & ->). eexists. eexists. reflexivity. }
  cbn [rec_x rec_y rec_width rec_height].
  destruct (IsMouseButtonDown inp); [|apply Hlast].
  match goal with
  | |- context [if ?c then _ else _] => destruct c
  end; apply Hlast.
Qed.

Lemma UpdateGame_total (fuel : nat) (inp : Input) (game : Game) (w : Rng) :
  (3 <= fuel)%nat -> game_inv game ->
  exists g' w', UpdateGame fuel inp game w = Some (g', w').
Proof.
  intros Hf (_ & _ & Hm).
  destruct (state game) eqn:Hs.
  - unfold UpdateGame. rewrite Hs. exists game, w. reflexivity.
  - unfold UpdateGame. rewrite Hs. exists game, w. reflexivity.
  - destruct (Hm (or_introl Hs)) as ((_ & _ & Hh1 & _) & (_ & _ & Hh2 & _) & _).
    apply (UpdateGame_playing_total fuel inp game w Hs Hf).
    + rewrite Hh1. intro H. discriminate H.
    + rewrite Hh2. intro H. discriminate H.
  - unfold UpdateGame. rewrite Hs.
    destruct (IsKeyPressed inp KEY_P); eexists; eexists; reflexivity.
  - unfold UpdateGame. rewrite Hs.
    destruct (IsKeyPressed inp KEY_R); [apply InitGame_total|].
    destruct (IsKeyPressed inp KEY_M); eexists; eexists; reflexivity.
Qed.

Lemma main_loop_total (fuel : nat) (inp : Input) (a : App) (w : Rng) :
  (3 <= fuel)%nat -> game_inv (fst a) ->
  exists a' w', main_loop fuel inp a w = Some (a', w').
Proof.
  destruct a as [game d]. cbn [fst]. intros Hf Hinv. unfold main_loop.
  assert (H0 : game_inv (if IsKeyPressed inp KEY_F
                         then ToggleGameFullscreen game else game)).
  { destruct (IsKeyPressed inp KEY_F); [|exact Hinv].
    destruct (ToggleGameFullscreen_keeps game) as (_ & _ & ->).
    exact Hinv. }
  set (g0 := if IsKeyPressed inp KEY_F then ToggleGameFullscreen game
             else game) in *.
  assert (Hplay : exists a' w',
             (g1 <- UpdateGame fuel inp g0 ;;
              g2 <- DrawGame inp g1 ;; ret (g2, d)) w = Some (a', w')).
  { unfold bind.
    destruct (UpdateGame_total fuel inp g0 w Hf H0) as (g1 & w1 & ->).
    destruct (DrawGame_total inp g1 w1) as (g2 & w2 & ->).
    eexists. eexists. reflexivity. }
  destruct (state g0); try exact Hplay.
  - eexists. eexists. reflexivity.
  - apply UpdateModeSelect_total.
Qed.

Lemma run_frames_total (fuel : nat) (inps : list Input) :
  forall (a : App) (w : Rng),
    (3 <= fuel)%nat -> game_inv (fst a) ->
    exists a' w', run_frames fuel inps a w = Some (a', w').
Proof.
  induction inps as [|inp inps IH]; intros a w Hf Hinv.
  - exists a, w. reflexivity.
  - cbn [run_frames]. unfold bind.
    destruct (main_loop_total fuel inp a w Hf Hinv) as (a1 & w1 & E1).
    rewrite E1. apply (IH a1 w1 Hf).
    exact (main_loop_game_inv _ _ _ _ _ _ E1 Hinv).
Qed.

(** X7. The program never gets stuck: from the initial state of [main],
    for every sequence of frame inputs and every sequence of random draws,
    the main loop returns after every frame.  No frame divides by zero
    (the hit offset divides by the paddle height, the AI's intercept by the
    ball's horizontal velocity), and three iterations of the AI's
    bounce-folding loop always suffice. *)
Theorem run_frames_never_stuck :
  forall (fuel : nat) (inps : list Input) (w : Rng),
    (3 <= fuel)%nat ->
    exists a' w', run_frames fuel inps initial_app w = Some (a', w').
Proof.
  intros fuel inps w Hf.
  exact (run_frames_total fuel inps initial_app w Hf game_inv_initial).
Qed.

Lemma run_frames_never_stuck_witness :
  (3 <= 3)%nat /\
  exists a' w',
    run_frames 3 [key_input KEY_SPACE; key_input KEY_ONE; idle_input]
      initial_app [7%Z; 5%Z] = Some (a', w').
Proof.
  split; [apply le_n|].
  exact (run_frames_never_stuck 3
           [key_input KEY_SPACE; key_input KEY_ONE; idle_input]
           [7%Z; 5%Z] (le_n 3)).
Defined.

(** ** Points, hit zones and speed within a tick *)

(** A playing tick up to its scoring block: the ball has moved by its
    horizontal velocity, and nothing has touched the scores. *)
Lemma UpdateGame_playing_upto_scoring (fuel : nat) (inp : Input)
  (game : Game) (w : Rng) (g' : Game) (w' : Rng) :
  state game = STATE_PLAYING -> IsKeyPressed inp KEY_P = false ->
  UpdateGame fuel inp game w = Some (g', w') ->
  exists g4 w4 g5,
    UpdateGame_scoring inp g4 w4 = Some (g5, w') /\
    g' = UpdateGame_gameOver g5 /\
    vec_x (ball_position (ball g4)) =
    vec_x (ball_position (ball game)) + vec_x (ball_velocity (ball game)) /\
    playerScore g4 = playerScore game /\ aiScore g4 = aiScore game /\
    ballSpeedMultiplier g4 = ballSpeedMultiplier game.
Proof.
  intros Hs Hp E.
  destruct (UpdateGame_playing_inv _ _ _ _ _ _ Hs Hp E)
    as (g1 & w1 & g3 & w3 & g4 & w4 & g5 & E1 & E3 & E4 & E5 & ->).
  destruct (paddles_keep_ball _ _ _ _ _ _ E1) as (Hb1 & _ & _).
  destruct (UpdateGame_playerPaddle_spec inp game) as (y0 & Ey0 & _).
  destruct (UpdateGame_secondPaddle_inv _ _ _ _ _ _ E1) as (y3 & Eg1 & _).
  assert (Hg1 : ballSpeedMultiplier g1 = ballSpeedMultiplier game /\
                playerScore g1 = playerScore game /\
                aiScore g1 = aiScore game)
    by (rewrite Eg1, Ey0; repeat split).
  destruct Hg1 as (Hm1 & Hp1 & Ha1).
  set (mid := UpdateGame_walls (UpdateGame_moveBall g1)) in *.
  destruct (keeps_setup_trans _ _ _ (UpdateGame_moveBall_setup g1)
              (UpdateGame_walls_setup (UpdateGame_moveBall g1)))
    as (_ & _ & _ & _ & _ & Km).
  fold mid in Km.
  destruct (UpdateGame_walls_spec (UpdateGame_moveBall g1)) as (Wx & _).
  cbv zeta in Wx. fold mid in Wx.
  cbn [UpdateGame_moveBall ball set_ball ball_position set_ball_position
       vec_x] in Wx.
  rewrite Hb1 in Wx.
  assert (Hsm : playerScore mid = playerScore g1 /\
                aiScore mid = aiScore g1).
  { unfold mid, UpdateGame_walls. cbv zeta.
    match goal with
    | |- context [if ?c then _ else _] => destruct c
    end; split; reflexivity. }
  destruct Hsm as [Hpm Ham].
  unfold UpdateGame_playerHit in E3. unfold UpdateGame_aiHit in E4.
  destruct (hit_block_inv _ _ _ _ _ _ E3)
    as ((_ & _ & _ & _ & _ & Km3) & _ & Sp3 & Sa3 & P3 & _).
  destruct (hit_block_inv _ _ _ _ _ _ E4)
    as ((_ & _ & _ & _ & _ & Km4) & _ & Sp4 & Sa4 & P4 & _).
  exists g4, w4, g5. split; [exact E5|]. split; [reflexivity|].
  split; [rewrite P4, P3; exact Wx|].
  split; [rewrite Sp4, Sp3, Hpm; exact Hp1|].
  split; [rewrite Sa4, Sa3, Ham; exact Ha1|].
  rewrite Km4, Km3, Km. exact Hm1.
Qed.

(** X8. Points are decided by where the integration step of a playing tick
    puts the ball's centre.  Left of -20 the second side gets exactly one
    point, right of 1300 the first player gets exactly one, and in either
    case the ball is served again from the centre of the court toward the
    side that conceded, with horizontal speed 8 times the multiplier.
    Otherwise no score changes and the ball keeps that horizontal
    position. *)
Theorem tick_scoring :
  forall (fuel : nat) (inp : Input) (game : Game) (w : Rng) (g' : Game)
         (w' : Rng),
    state game = STATE_PLAYING -> IsKeyPressed inp KEY_P = false ->
    (0 <= playerScore game < 2147483647)%Z ->
    (0 <= aiScore game < 2147483647)%Z ->
    UpdateGame fuel inp game w = Some (g', w') ->
    let x := vec_x (ball_position (ball game)) +
             vec_x (ball_velocity (ball game)) in
    (x < - inject_Z BALL_RADIUS ->
     aiScore g' = (aiScore game + 1)%Z /\
     playerScore g' = playerScore game /\
     ball_position (ball g') = mkVector2 640 400 /\
     vec_x (ball_velocity (ball g')) =
     - (BALL_INITIAL_SPEED * ballSpeedMultiplier game)) /\
    (inject_Z (SCREEN_WIDTH + BALL_RADIUS) < x ->
     playerScore g' = (playerScore game + 1)%Z /\
     aiScore g' = aiScore game /\
     ball_position (ball g') = mkVector2 640 400 /\
     vec_x (ball_velocity (ball g')) =
     BALL_INITIAL_SPEED * ballSpeedMultiplier game) /\
    (- inject_Z BALL_RADIUS <= x <= inject_Z (SCREEN_WIDTH + BALL_RADIUS) ->
     playerScore g' = playerScore game /\ aiScore g' = aiScore game /\
     vec_x (ball_position (ball g')) = x).
Proof.
  intros fuel inp game w g' w' Hs Hp Hps Has E. cbv zeta.
  destruct (UpdateGame_playing_upto_scoring _ _ _ _ _ _ Hs Hp E)
    as (g4 & w4 & g5 & E5 & -> & Hx & Sp & Sa & Hm).
  destruct (UpdateGame_gameOver_spec g5) as (_ & -> & -> & -> & _).
  change (- inject_Z BALL_RADIUS) with (-20).
  change (inject_Z (SCREEN_WIDTH + BALL_RADIUS)) with 1300.
  rewrite <- Hx.
  destruct (UpdateGame_scoring_cases _ _ _ _ _ E5)
    as [(Hin & -> & _)|(r & _ & Hside & Hpos & _)].
  - split; [intro; lra|]. split; [intro; lra|]. intros _.
    split; [exact Sp|]. split; [exact Sa|reflexivity].
  - destruct Hside as [(Hl & Hp5 & Ha5 & Hv5)|(Hr & Hp5 & Ha5 & Hv5)].
    + split; [|split; intro; lra]. intros _.
      rewrite Ha5, Hp5, Hv5, Hpos, Sa, Sp, Hm.
      rewrite int_incr_small by lia. repeat split.
    + split; [intro; lra|]. split; [|intro; lra]. intros _.
      rewrite Ha5, Hp5, Hv5, Hpos, Sa, Sp, Hm.
      rewrite int_incr_small by lia. repeat split.
Qed.

Lemma tick_scoring_witness :
  exists g' w',
    UpdateGame 3 idle_input match_point_game [] = Some (g', w') /\
    playerScore g' = 10%Z /\ aiScore g' = 0%Z /\
    ball_position (ball g') = mkVector2 640 400 /\
    vec_x (ball_velocity (ball g')) = 8 * 1.
Proof.
  assert (E : UpdateGame 3 idle_input match_point_game [] = Some (_, _))
    by (vm_compute; reflexivity).
  match type of E with
  | _ = Some (?a, ?w0) => exists a, w0
  end.
  split; [exact E|].
  assert (Hp : (0 <= 9 < 2147483647)%Z) by lia.
  assert (Ha : (0 <= 0 < 2147483647)%Z) by lia.
  destruct (tick_scoring 3 idle_input match_point_game [] _ _
              eq_refl eq_refl Hp Ha E) as (_ & Hright & _).
  destruct Hright as (H1 & H2 & H3 & H4); [reflexivity|].
  split; [exact H1|]. split; [exact H2|]. split; [exact H3|exact H4].
Defined.

(** Where the paddles of the game accept a hit: the first paddle only
    while the ball moves left with its centre in [-30, 75], the second
    only while it moves right with its centre in [1205, 1310]. *)
Lemma hit_zone_left (b : Ball) (p : Paddle) (game : Game) :
  ball_radius b = inject_Z BALL_RADIUS -> paddle_ok p 10 ->
  CheckPaddleCollision b p game = true ->
  vec_x (ball_velocity b) < 0 /\ -30 <= vec_x (ball_position b) <= 75.
Proof.
  intros Hr (Hx & Hw & _) E.
  apply CheckPaddleCollision_cases in E. cbv zeta in E.
  rewrite Hr, Hx, Hw in E. cbn [rec_x rec_width] in E.
  change (inject_Z BALL_RADIUS) with 20 in E.
  change (inject_Z PADDLE_WIDTH) with 25 in E.
  change (inject_Z (SCREEN_WIDTH ÷ 2)) with 640 in E.
  destruct E as [Hd Hc]. split.
  - destruct Hd as [[_ H]|[H _]]; [exact H|lra].
  - destruct Hc as [Hc|Hc].
    + apply CheckCollisionPointRec_x in Hc. cbn [rec_x rec_width] in Hc.
      lra.
    + apply CheckCollisionCircleRec_x in Hc. cbn [rec_x rec_width] in Hc.
      apply fabsf_le in Hc. unfold Qdiv in Hc.
      change (/ 2) with (1 # 2) in Hc. lra.
Qed.

Lemma hit_zone_right (b : Ball) (p : Paddle) (game : Game) :
  ball_radius b = inject_Z BALL_RADIUS -> paddle_ok p 1245 ->
  CheckPaddleCollision b p game = true ->
  0 < vec_x (ball_velocity b) /\ 1205 <= vec_x (ball_position b) <= 1310.
Proof.
  intros Hr (Hx & Hw & _) E.
  apply CheckPaddleCollision_cases in E. cbv zeta in E.
  rewrite Hr, Hx, Hw in E. cbn [rec_x rec_width] in E.
  change (inject_Z BALL_RADIUS) with 20 in E.
  change (inject_Z PADDLE_WIDTH) with 25 in E.
  change (inject_Z (SCREEN_WIDTH ÷ 2)) with 640 in E.
  destruct E as [Hd Hc]. split.
  - destruct Hd as [[H _]|[_ H]]; [lra|exact H].
  - destruct Hc as [Hc|Hc].
    + apply CheckCollisionPointRec_x in Hc. cbn [rec_x rec_width] in Hc.
      lra.
    + apply CheckCollisionCircleRec_x in Hc. cbn [rec_x rec_width] in Hc.
      apply fabsf_le in Hc. unfold Qdiv in Hc.
      change (/ 2) with (1 # 2) in Hc. lra.
Qed.

(** X9. With the paddles in their columns and a ball of radius 20, a
    paddle accepts a hit only while the ball moves toward it and the ball's
    centre is in the paddle's zone: [-30, 75] horizontally for the first
    paddle, [1205, 1310] for the second, and from 20 above the paddle to 20
    below it vertically.  The zones are disjoint, so no position of the
    ball is accepted by both paddles, whatever the velocities. *)
Theorem hit_zones :
  forall (b : Ball) (p1 p2 : Paddle) (game : Game),
    ball_radius b = inject_Z BALL_RADIUS ->
    paddle_ok p1 10 -> paddle_ok p2 1245 ->
    (CheckPaddleCollision b p1 game = true ->
     vec_x (ball_velocity b) < 0 /\
     -30 <= vec_x (ball_position b) <= 75 /\
     rec_y (paddle_rect p1) - 20 <= vec_y (ball_position b)
     <= rec_y (paddle_rect p1) + 220) /\
    (CheckPaddleCollision b p2 game = true ->
     0 < vec_x (ball_velocity b) /\
     1205 <= vec_x (ball_position b) <= 1310 /\
     rec_y (paddle_rect p2) - 20 <= vec_y (ball_position b)
     <= rec_y (paddle_rect p2) + 220) /\
    (forall (b' : Ball) (game' : Game),
        ball_position b' = ball_position b ->
        ball_radius b' = ball_radius b ->
        CheckPaddleCollision b p1 game = true ->
        CheckPaddleCollision b' p2 game' = false).
Proof.
  intros b p1 p2 game Hr Hp1 Hp2.
  assert (Hy : forall p x,
             paddle_ok p x -> CheckPaddleCollision b p game = true ->
             rec_y (paddle_rect p) - 20 <= vec_y (ball_position b)
             <= rec_y (paddle_rect p) + 220).
  { intros p x (_ & _ & Hh & _) E.
    destruct (hit_offset_range b p game Hr Hh E) as (h & _ & Hb & Hh').
    rewrite Hh' in Hb. unfold Qdiv in Hb.
    change (/ 100) with (1 # 100) in Hb. lra. }
  split; [|split].
  - intro E. destruct (hit_zone_left b p1 game Hr Hp1 E) as [H1 H2].
    split; [exact H1|]. split; [exact H2|exact (Hy _ _ Hp1 E)].
  - intro E. destruct (hit_zone_right b p2 game Hr Hp2 E) as [H1 H2].
    split; [exact H1|]. split; [exact H2|exact (Hy _ _ Hp2 E)].
  - intros b' game' Hpos Hrad E.
    destruct (hit_zone_left b p1 game Hr Hp1 E) as [_ H2].
    destruct (CheckPaddleCollision b' p2 game') eqn:E'; [|reflexivity].
    exfalso.
    assert (Hr' : ball_radius b' = inject_Z BALL_RADIUS)
      by (rewrite Hrad; exact Hr).
    destruct (hit_zone_right b' p2 game' Hr' Hp2 E') as [_ H3].
    rewrite Hpos in H3. lra.
Qed.

Lemma hit_zones_witness :
  ball_radius (ball_at 30 400 (-8) 0) = inject_Z BALL_RADIUS /\
  paddle_ok player_paddle0 10 /\ paddle_ok ai_paddle0 1245 /\
  CheckPaddleCollision (ball_at 30 400 (-8) 0) player_paddle0 playing_game
  = true /\
  -30 <= vec_x (ball_position (ball_at 30 400 (-8) 0)) <= 75 /\
  CheckPaddleCollision (ball_at 30 400 8 0) ai_paddle0 playing_game = false.
Proof.
  assert (H1 : paddle_ok player_paddle0 10).
  { split; [reflexivity|]. split; [reflexivity|]. split; [reflexivity|].
    split; discriminate. }
  assert (H2 : paddle_ok ai_paddle0 1245).
  { split; [reflexivity|]. split; [reflexivity|]. split; [reflexivity|].
    split; discriminate. }
  destruct (hit_zones (ball_at 30 400 (-8) 0) player_paddle0 ai_paddle0
              playing_game eq_refl H1 H2) as (Hl & _ & Hboth).
  split; [reflexivity|]. split; [exact H1|]. split; [exact H2|].
  split; [reflexivity|].
  split; [exact (proj1 (proj2 (Hl eq_refl)))|].
  exact (Hboth (ball_at 30 400 8 0) playing_game eq_refl eq_refl eq_refl).
Defined.

(** The blocks of a playing tick in a game that satisfies the invariant:
    the game [mid] after the paddles, the integration step and the walls,
    then the two hit blocks, the scoring block and the win check. *)
Lemma tick_structure (fuel : nat) (inp : Input) (game : Game) (w : Rng)
  (g' : Game) (w' : Rng) :
  state game = STATE_PLAYING -> IsKeyPressed inp KEY_P = false ->
  game_inv game ->
  UpdateGame fuel inp game w = Some (g', w') ->
  exists mid w1 g3 w3 g4 w4 g5,
    ball mid = ball (UpdateGame_walls (UpdateGame_moveBall game)) /\
    paddle_ok (playerPaddle mid) 10 /\ paddle_ok (aiPaddle mid) 1245 /\
    ball_radius (ball mid) = inject_Z BALL_RADIUS /\
    ballSpeedMultiplier mid = ballSpeedMultiplier game /\
    playerScore mid = playerScore game /\ aiScore mid = aiScore game /\
    screenShake mid = screenShake game /\
    UpdateGame_playerHit mid w1 = Some (g3, w3) /\
    UpdateGame_aiHit g3 w3 = Some (g4, w4) /\
    UpdateGame_scoring inp g4 w4 = Some (g5, w') /\
    g' = UpdateGame_gameOver g5.
Proof.
  intros Hs Hp (Hm & _ & Hmatch) E.
  destruct (Hmatch (or_introl Hs)) as (Hp1 & Hp2 & Hr & _).
  destruct (UpdateGame_playing_inv _ _ _ _ _ _ Hs Hp E)
    as (g1 & w1 & g3 & w3 & g4 & w4 & g5 & E1 & E3 & E4 & E5 & ->).
  destruct (paddles_keep_ball _ _ _ _ _ _ E1) as (Hb1 & _ & _).
  destruct (UpdateGame_playerPaddle_spec inp game) as (y0 & Ey0 & By0).
  destruct (UpdateGame_secondPaddle_inv _ _ _ _ _ _ E1) as (y3 & Eg1 & By3).
  rewrite Ey0 in Eg1, By3.
  cbn [aiPaddle set_playerPaddle] in Eg1, By3.
  exists (UpdateGame_walls (UpdateGame_moveBall g1)), w1, g3, w3, g4, w4, g5.
  destruct (keeps_setup_trans _ _ _ (UpdateGame_moveBall_setup g1)
              (UpdateGame_walls_setup (UpdateGame_moveBall g1)))
    as (_ & Kp & Ka & _ & _ & Km).
  destruct (UpdateGame_walls_spec (UpdateGame_moveBall g1))
    as (_ & _ & Wr & _).
  cbv zeta in Wr.
  split; [apply walls_moveBall_ball; exact Hb1|].
  split; [rewrite Kp, Eg1; apply paddle_ok_set_y; assumption|].
  split; [rewrite Ka, Eg1; apply paddle_ok_set_y; assumption|].
  split; [rewrite Wr; cbn [UpdateGame_moveBall ball set_ball ball_radius
                           set_ball_position]; rewrite Hb1; exact Hr|].
  split; [rewrite Km, Eg1; reflexivity|].
  assert (Hsm : playerScore (UpdateGame_walls (UpdateGame_moveBall g1))
                = playerScore g1 /\
                aiScore (UpdateGame_walls (UpdateGame_moveBall g1))
                = aiScore g1 /\
                screenShake (UpdateGame_walls (UpdateGame_moveBall g1))
                = screenShake g1).
  { unfold UpdateGame_walls. cbv zeta.
    match goal with
    | |- context [if ?c then _ else _] => destruct c
    end; repeat split. }
  destruct Hsm as (-> & -> & ->).
  split; [rewrite Eg1; reflexivity|]. split; [rewrite Eg1; reflexivity|].
  split; [rewrite Eg1; reflexivity|].
  repeat split; assumption.
Qed.



(** X11. Free flight.  In a playing tick of a game that satisfies the
    invariant, when the integration step puts the ball's centre strictly
    between the hit zones (75 < x < 1205) and strictly between the walls
    (20 < y < 780), the tick does nothing to the ball but that step:
    position plus velocity, velocity unchanged; the scores and the screen
    shake are unchanged too. *)
Theorem tick_free_flight :
  forall (fuel : nat) (inp : Input) (game : Game) (w : Rng) (g' : Game)
         (w' : Rng),
    state game = STATE_PLAYING -> IsKeyPressed inp KEY_P = false ->
    game_inv game ->
    UpdateGame fuel inp game w = Some (g', w') ->
    let x := vec_x (ball_position (ball game)) +
             vec_x (ball_velocity (ball game)) in
    let y := vec_y (ball_position (ball game)) +
             vec_y (ball_velocity (ball game)) in
    75 < x < 1205 -> 20 < y < 780 ->
    ball g' = set_ball_position (ball game) (mkVector2 x y) /\
    playerScore g' = playerScore game /\ aiScore g' = aiScore game /\
    screenShake g' = screenShake game.
Proof.
  intros fuel inp game w g' w' Hs Hp Hinv E. cbv zeta. intros Hx Hy.
  assert (Hrad : ball_radius (ball game) = inject_Z BALL_RADIUS).
  { destruct Hinv as (_ & _ & Hm). apply (Hm (or_introl Hs)). }
  destruct (tick_structure _ _ _ _ _ _ Hs Hp Hinv E)
    as (mid & w1 & g3 & w3 & g4 & w4 & g5 & Hb & Hp1 & Hp2 & Hr & _ & Sp
        & Sa & Ssh & E3 & E4 & E5 & ->).
  assert (Hmid : ball mid =
                 set_ball_position (ball game)
                   (mkVector2
                      (vec_x (ball_position (ball game)) +
                       vec_x (ball_velocity (ball game)))
                      (vec_y (ball_position (ball game)) +
                       vec_y (ball_velocity (ball game))))).
  { rewrite Hb.
    destruct (UpdateGame_walls_spec (UpdateGame_moveBall game))
      as (_ & _ & _ & _ & Wfree).
    cbv zeta in Wfree. rewrite Wfree; [reflexivity|].
    cbn [UpdateGame_moveBall ball set_ball ball_position ball_radius
         set_ball_position vec_y].
    rewrite Hrad. change (inject_Z BALL_RADIUS) with 20.
    change (inject_Z SCREEN_HEIGHT) with 800. intros [H|H]; lra. }
  assert (Hxm : vec_x (ball_position (ball mid)) =
                vec_x (ball_position (ball game)) +
                vec_x (ball_velocity (ball game)))
    by (rewrite Hmid; reflexivity).
  (* no hit by the first paddle *)
  unfold UpdateGame_playerHit in E3.
  assert (C3 : CheckPaddleCollision (ball mid) (playerPaddle mid) mid
               = false).
  { destruct (CheckPaddleCollision (ball mid) (playerPaddle mid) mid) eqn:C;
      [|reflexivity].
    destruct (hit_zone_left _ _ _ Hr Hp1 C) as [_ H]. rewrite Hxm in H.
    lra. }
  destruct (hit_block_inv _ _ _ _ _ _ E3) as (_ & _ & _ & _ & _ & _ & H3).
  destruct (H3 C3) as [-> ->].
  (* no hit by the second paddle *)
  unfold UpdateGame_aiHit in E4.
  assert (C4 : CheckPaddleCollision (ball mid) (aiPaddle mid) mid = false).
  { destruct (CheckPaddleCollision (ball mid) (aiPaddle mid) mid) eqn:C;
      [|reflexivity].
    destruct (hit_zone_right _ _ _ Hr Hp2 C) as [_ H]. rewrite Hxm in H.
    lra. }
  destruct (hit_block_inv _ _ _ _ _ _ E4) as (_ & _ & _ & _ & _ & _ & H4).
  destruct (H4 C4) as [-> ->].
  (* no point *)
  destruct (UpdateGame_scoring_cases _ _ _ _ _ E5)
    as [(_ & -> & ->)|(r & _ & Hside & _)].
  - destruct (UpdateGame_gameOver_spec mid) as (_ & -> & -> & -> & _).
    split; [exact Hmid|]. split; [exact Sp|]. split; [exact Sa|].
    rewrite <- Ssh. unfold UpdateGame_gameOver.
    match goal with
    | |- context [if ?c then _ else _] => destruct c
    end; reflexivity.
  - rewrite Hxm in Hside. destruct Hside as [(H & _)|(H & _)]; lra.
Qed.

Lemma tick_free_flight_witness :
  exists g' w',
    UpdateGame 3 idle_input playing_game [] = Some (g', w') /\
    ball g' = set_ball_position (ball playing_game)
                (mkVector2 (640 + 8) (400 + 0)) /\
    playerScore g' = 0%Z /\ aiScore g' = 0%Z.
Proof.
  assert (E : UpdateGame 3 idle_input playing_game [] = Some (_, _))
    by (vm_compute; reflexivity).
  match type of E with
  | _ = Some (?a, ?w0) => exists a, w0
  end.
  split; [exact E|].
  assert (Hinv : game_inv playing_game).
  { split; [split; discriminate|]. split; [unfold MAX_PARTICLES; cbn; lia|].
    intros _. unfold paddle_ok. cbn.
    repeat split; discriminate. }
  assert (Hx : 75 < 640 + 8 < 1205) by (split; reflexivity).
  assert (Hy : 20 < 400 + 0 < 780) by (split; reflexivity).
  destruct (tick_free_flight 3 idle_input playing_game [] _ _
              eq_refl eq_refl Hinv E Hx Hy) as (H1 & H2 & H3 & _).
  split; [exact H1|]. split; [exact H2|exact H3].
Defined.



(** ** How far a paddle moves in a tick *)








(** ** The live range of the particle pool *)

Lemma list_set_length {A : Type} (l : list A) :
  forall (n : nat) (v : A), length (list_set l n v) = length l.
Proof.
  induction l as [|h t IH]; intros [|n] v; cbn; try reflexivity.
  rewrite IH. reflexivity.
Qed.

Lemma firstn_list_set_le {A : Type} (l : list A) :
  forall (k n : nat) (v : A),
    (k <= n)%nat -> firstn k (list_set l n v) = firstn k l.
Proof.
  induction l as [|h t IH]; intros k n v Hk.
  - destruct n; reflexivity.
  - destruct k as [|k]; [reflexivity|].
    destruct n as [|n]; [lia|]. cbn. rewrite IH by lia. reflexivity.
Qed.

Lemma skipn_list_set_lt {A : Type} (l : list A) :
  forall (k n : nat) (v : A),
    (n < k)%nat -> skipn k (list_set l n v) = skipn k l.
Proof.
  induction l as [|h t IH]; intros k n v Hk.
  - destruct n; reflexivity.
  - destruct k as [|k]; [lia|].
    destruct n as [|n]; [reflexivity|]. cbn. apply IH. lia.
Qed.

Lemma firstn_S_list_set {A : Type} (l : list A) :
  forall (k : nat) (v : A),
    (k < length l)%nat ->
    firstn (S k) (list_set l k v) = firstn k l ++ [v].
Proof.
  induction l as [|h t IH]; intros k v Hk; [cbn in Hk; lia|].
  destruct k as [|k]; [reflexivity|].
  cbn [list_set]. rewrite firstn_cons. rewrite IH by (cbn in Hk; lia).
  reflexivity.
Qed.

Lemma skipn_nth_cons {A : Type} (l : list A) (d : A) :
  forall i : nat,
    (i < length l)%nat -> skipn i l = nth i l d :: skipn (S i) l.
Proof.
  induction l as [|h t IH]; intros i Hi; [cbn in Hi; lia|].
  destruct i as [|i]; [reflexivity|].
  cbn [skipn nth]. apply IH. cbn in Hi. lia.
Qed.

(** The compaction loop of [UpdateAndDrawParticles], from slot [i] with
    the cursor at [keep]: the slots before the cursor are followed by the
    survivors of the [n] slots visited. *)
Lemma UpdateAndDrawParticles_loop_spec (deltaTime : Q) (n : nat) :
  forall (i keep : nat) (parts : list Particle),
    (keep <= i)%nat -> (i + n <= length parts)%nat ->
    let r := UpdateAndDrawParticles_loop n (Z.of_nat i) deltaTime parts
               (Z.of_nat keep) in
    let s := survivors deltaTime (firstn n (skipn i parts)) in
    snd r = Z.of_nat (keep + length s) /\
    firstn (keep + length s) (fst r) = firstn keep parts ++ s /\
    length (fst r) = length parts.
Proof.
  induction n as [|n IH]; intros i keep parts Hk Hn; cbv zeta.
  - cbn [UpdateAndDrawParticles_loop firstn survivors map filter length
         fst snd].
    rewrite Nat.add_0_r, app_nil_r. repeat split.
  - cbn [UpdateAndDrawParticles_loop].
    assert (Hi : (i < length parts)%nat) by lia.
    assert (Hget : array_get parts (Z.of_nat i) = nth i parts zero_particle).
    { unfold array_get.
      destruct (Z.ltb_spec (Z.of_nat i) 0) as [H|H]; [lia|].
      rewrite Nat2Z.id. reflexivity. }
    assert (Hset : forall l (j : nat) v,
               array_set l (Z.of_nat j) v = list_set l j v).
    { intros l j v. unfold array_set.
      destruct (Z.ltb_spec (Z.of_nat j) 0) as [H|H]; [lia|].
      rewrite Nat2Z.id. reflexivity. }
    rewrite Hget, !Hset.
    set (p := nth i parts zero_particle) in *.
    rewrite (skipn_nth_cons parts zero_particle i Hi). fold p.
    cbn [firstn]. unfold survivors. cbn [map filter].
    change (mkParticle (p_position p) (p_velocity p)
              (p_lifeTime p + deltaTime) (p_maxLifeTime p) (p_color p)
              (p_size p)) with (particle_aged deltaTime p).
    assert (Halive : particle_alive (particle_aged deltaTime p) =
                     negb (p_maxLifeTime p <=? p_lifeTime p + deltaTime))
      by reflexivity.
    rewrite Halive.
    cbn [p_maxLifeTime p_lifeTime particle_aged].
    replace (Z.of_nat i + 1)%Z with (Z.of_nat (S i)) by lia.
    destruct (p_maxLifeTime p <=? p_lifeTime p + deltaTime) eqn:Edead;
      cbn [negb].
    + (* expired: dropped *)
      destruct (IH (S i) keep (list_set parts i (particle_aged deltaTime p)))
        as (H1 & H2 & H3); [lia|rewrite list_set_length; lia|].
      cbv zeta in H1, H2, H3.
      rewrite skipn_list_set_lt in H1, H2 by lia.
      rewrite firstn_list_set_le in H2 by lia.
      rewrite list_set_length in H3.
      unfold survivors in H1, H2.
      split; [exact H1|]. split; [exact H2|exact H3].
    + (* alive: moved and compacted *)
      cbn [map length].
      set (aged := particle_aged deltaTime p) in *.
      change (mkParticle
                (mkVector2 (vec_x (p_position p) + vec_x (p_velocity p))
                           (vec_y (p_position p) + vec_y (p_velocity p)))
                (p_velocity p) (p_lifeTime p + deltaTime) (p_maxLifeTime p)
                (p_color p) (p_size p)) with (particle_moved aged).
      set (moved := particle_moved aged) in *.
      set (parts3 := if (Z.of_nat i =? Z.of_nat keep)%Z
                     then list_set (list_set parts i aged) i moved
                     else list_set
                            (list_set (list_set parts i aged) i moved)
                            keep moved).
      replace (Z.of_nat keep + 1)%Z with (Z.of_nat (S keep)) by lia.
      assert (Hlen3 : length parts3 = length parts).
      { unfold parts3. destruct (Z.of_nat i =? Z.of_nat keep)%Z;
          rewrite !list_set_length; reflexivity. }
      assert (Hskip3 : skipn (S i) parts3 = skipn (S i) parts).
      { unfold parts3. destruct (Z.of_nat i =? Z.of_nat keep)%Z;
          rewrite !skipn_list_set_lt by lia; reflexivity. }
      assert (Hfirst3 : firstn (S keep) parts3 = firstn keep parts ++ [moved]).
      { unfold parts3.
        destruct (Z.eqb_spec (Z.of_nat i) (Z.of_nat keep)) as [He|He].
        - apply Nat2Z.inj in He. subst keep.
          rewrite firstn_S_list_set by (rewrite list_set_length; lia).
          rewrite firstn_list_set_le by lia. reflexivity.
        - rewrite firstn_S_list_set by (rewrite !list_set_length; lia).
          rewrite !firstn_list_set_le by lia. reflexivity. }
      destruct (IH (S i) (S keep) parts3) as (H1 & H2 & H3);
        [lia|rewrite Hlen3; lia|].
      cbv zeta in H1, H2, H3.
      rewrite Hskip3 in H1, H2. rewrite Hfirst3 in H2. rewrite Hlen3 in H3.
      unfold survivors in H1, H2.
      replace (keep + S (length
                 (map particle_moved
                    (filter particle_alive
                       (map (particle_aged deltaTime)
                          (firstn n (skipn (S i) parts)))))))%nat
        with (S keep + length
                (map particle_moved
                   (filter particle_alive
                      (map (particle_aged deltaTime)
                         (firstn n (skipn (S i) parts))))))%nat by lia.
      split; [exact H1|]. split; [|exact H3].
      transitivity
        ((firstn keep parts ++ [moved]) ++
         map particle_moved
           (filter particle_alive
              (map (particle_aged deltaTime)
                 (firstn n (skipn (S i) parts)))));
        [exact H2|rewrite <- app_assoc; reflexivity].
Qed.

(** X14. [UpdateAndDrawParticles] compacts the pool in place, and the
    result is what [filter] and [map] say.  For a pool whose count is
    within the array, the live range after the call is the list of the
    particles that were live, aged by the frame time, without those whose
    age has reached their life time, each moved by its velocity, in their
    order; the count is the length of that list; the array keeps its
    length; and every live particle is younger than its life time. *)
Theorem UpdateAndDrawParticles_survivors :
  forall (inp : Input) (game : Game),
    (0 <= activeParticles game <= Z.of_nat (length (particles game)))%Z ->
    let g' := UpdateAndDrawParticles inp game in
    live_particles g' = survivors (GetFrameTime inp) (live_particles game) /\
    activeParticles g' = Z.of_nat (length (live_particles g')) /\
    length (particles g') = length (particles game) /\
    Forall (fun p => p_lifeTime p < p_maxLifeTime p) (live_particles g').
Proof.
  intros inp game Hc. cbv zeta.
  unfold UpdateAndDrawParticles, live_particles. cbv zeta.
  destruct (UpdateAndDrawParticles_loop_spec (GetFrameTime inp)
              (Z.to_nat (activeParticles game)) 0 0 (particles game))
    as (H1 & H2 & H3); [lia|lia|].
  cbv zeta in H1, H2, H3.
  change (Z.of_nat 0) with 0%Z in H1, H2, H3.
  destruct (UpdateAndDrawParticles_loop (Z.to_nat (activeParticles game)) 0
              (GetFrameTime inp) (particles game) 0) as [parts keep].
  cbn [fst snd] in H1, H2, H3.
  cbn [activeParticles particles set_activeParticles set_particles].
  cbn [skipn firstn app Nat.add] in H1, H2.
  rewrite H1, Nat2Z.id, H2.
  split; [reflexivity|]. split; [reflexivity|]. split; [exact H3|].
  unfold survivors. apply Forall_map.
  apply Forall_forall. intros p Hp. apply filter_In in Hp.
  destruct Hp as [_ Hp]. unfold particle_alive in Hp.
  apply negb_true_iff in Hp. qprop. exact Hp.
Qed.

Lemma UpdateAndDrawParticles_survivors_witness :
  exists g w,
    CreateParticleEffect initial_game (mkVector2 640 400) WHITE 3
      [10%Z; 20%Z; 0%Z; 1%Z] = Some (g, w) /\
    (0 <= activeParticles g <= Z.of_nat (length (particles g)))%Z /\
    live_particles (UpdateAndDrawParticles idle_input g) =
    survivors (1 # 60) (live_particles g) /\
    activeParticles (UpdateAndDrawParticles idle_input g) = 3%Z.
Proof.
  assert (E : CreateParticleEffect initial_game (mkVector2 640 400) WHITE 3
                [10%Z; 20%Z; 0%Z; 1%Z] = Some (_, _))
    by (vm_compute; reflexivity).
  match type of E with
  | _ = Some (?a, ?w0) =>
    exists a, w0;
    assert (Hc : (0 <= activeParticles a <=
                  Z.of_nat (length (particles a)))%Z)
      by (split; discriminate)
  end.
  split; [exact E|]. split; [exact Hc|].
  destruct (UpdateAndDrawParticles_survivors idle_input _ Hc)
    as (H1 & _).
  split; [exact H1|reflexivity].
Defined.

(** The loop of [CreateParticleEffect] on a pool of the game's size. *)
Lemma CreateParticleEffect_loop_fresh (n : nat) (position : Vector2)
  (color : Color) : forall game : Game,
  length (particles game) = Z.to_nat MAX_PARTICLES ->
  (0 <= activeParticles game <= MAX_PARTICLES)%Z ->
  tp (CreateParticleEffect_loop n game position color)
     (fun g' =>
        exists news,
          live_particles g' = live_particles game ++ news /\
          Forall (fresh_particle position color) news /\
          length (particles g') = length (particles game) /\
          activeParticles g' =
          Z.min (activeParticles game + Z.of_nat n) MAX_PARTICLES).
Proof.
  induction n as [|n IH]; intros game Hlen Hact;
    cbn [CreateParticleEffect_loop].
  - apply tp_ret. exists []. rewrite app_nil_r.
    split; [reflexivity|]. split; [constructor|]. split; [reflexivity|].
    lia.
  - destruct (activeParticles game <? MAX_PARTICLES)%Z eqn:E.
    + apply Z.ltb_lt in E.
      eapply tp_bind; [apply GetRandomValue_tp; lia | intros rvx Hvx].
      eapply tp_bind; [apply GetRandomValue_tp; lia | intros rvy Hvy].
      eapply tp_bind; [apply GetRandomValue_tp; lia | intros rlife Hlife].
      eapply tp_bind; [apply GetRandomValue_tp; lia | intros rsize Hsize].
      cbv zeta. cbn [activeParticles particles set_particles].
      set (p := mkParticle position
                  (mkVector2 (inject_Z rvx / 100) (inject_Z rvy / 100))
                  0 (inject_Z rlife / 100) color (inject_Z rsize)).
      assert (Hset : array_set (particles game) (activeParticles game) p =
                     list_set (particles game)
                       (Z.to_nat (activeParticles game)) p).
      { unfold array_set.
        destruct (Z.ltb_spec (activeParticles game) 0) as [H|H]; [lia|].
        reflexivity. }
      rewrite Hset. unfold MAX_PARTICLES in *.
      rewrite int_incr_small by lia.
      eapply tp_conseq.
      * apply IH.
        -- cbn [particles set_particles set_activeParticles].
           rewrite list_set_length. exact Hlen.
        -- cbn [activeParticles set_activeParticles]. lia.
      * cbn beta. intros g' (news & Hlive & Hfresh & Hl & Hcount).
        cbn [activeParticles particles set_activeParticles set_particles]
          in Hlive, Hl, Hcount.
        unfold live_particles in Hlive at 2.
        cbn [activeParticles particles set_activeParticles set_particles]
          in Hlive.
        replace (Z.to_nat (activeParticles game + 1))
          with (S (Z.to_nat (activeParticles game))) in Hlive by lia.
        rewrite firstn_S_list_set in Hlive by lia.
        exists (p :: news). split; [|split; [|split]].
        -- rewrite Hlive, <- app_assoc. reflexivity.
        -- constructor; [|exact Hfresh].
           assert (Hq : forall (a b v : Z),
                      (a <= v <= b)%Z ->
                      inject_Z a <= inject_Z v <= inject_Z b)
             by (intros a b v [H1 H2]; split; rewrite <- Zle_Qle;
                 assumption).
           apply Hq in Hvx, Hvy, Hlife, Hsize.
           change (inject_Z (-200)) with (-200) in Hvx, Hvy.
           change (inject_Z 200) with 200 in Hvx, Hvy.
           change (inject_Z 30) with 30 in Hlife.
           change (inject_Z 90) with 90 in Hlife.
           change (inject_Z 2) with 2 in Hsize.
           change (inject_Z 6) with 6 in Hsize.
           unfold fresh_particle, p.
           cbn [p_position p_color p_lifeTime p_velocity p_maxLifeTime
                p_size vec_x vec_y].
           unfold Qdiv. change (/ 100) with (1 # 100).
           split; [reflexivity|]. split; [reflexivity|].
           split; [reflexivity|].
           split; [lra|]. split; [lra|]. split; lra.
        -- rewrite Hl, list_set_length. reflexivity.
        -- rewrite Hcount. lia.
    + apply Z.ltb_ge in E. apply tp_ret. exists []. rewrite app_nil_r.
      split; [reflexivity|]. split; [constructor|]. split; [reflexivity|].
      lia.
Qed.

(** X15. [CreateParticleEffect] appends fresh particles to the live range.
    On a pool of 100 slots with a count in range, the call returns; the
    particles that were live are untouched and keep their order; behind
    them come min(count, 100 - activeParticles) new particles (none when
    [count] is negative), each at the given position with the given colour,
    age 0, velocity components in [-2, 2], life time in [0.3, 0.9] and
    size in [2, 6]; and the count grows by their number. *)
Theorem CreateParticleEffect_appends :
  forall (game : Game) (position : Vector2) (color : Color) (count : Z)
         (w : Rng),
    length (particles game) = Z.to_nat MAX_PARTICLES ->
    (0 <= activeParticles game <= MAX_PARTICLES)%Z ->
    exists g' w' news,
      CreateParticleEffect game position color count w = Some (g', w') /\
      live_particles g' = live_particles game ++ news /\
      Forall (fresh_particle position color) news /\
      Z.of_nat (length news) =
      Z.min (Z.max 0 count) (MAX_PARTICLES - activeParticles game) /\
      activeParticles g' = (activeParticles game + Z.of_nat (length news))%Z.
Proof.
  intros game position color count w Hlen Hact.
  unfold CreateParticleEffect.
  destruct (CreateParticleEffect_loop_fresh (Z.to_nat count) position color
              game Hlen Hact w)
    as (g' & w' & E & news & Hlive & Hfresh & Hl & Hcount).
  exists g', w', news. split; [exact E|]. split; [exact Hlive|].
  split; [exact Hfresh|].
  assert (Hn : length (live_particles g') =
               (length (live_particles game) + length news)%nat)
    by (rewrite Hlive; apply length_app).
  unfold live_particles in Hn.
  unfold MAX_PARTICLES in *.
  rewrite !firstn_length_le in Hn by lia.
  split; lia.
Qed.

Lemma CreateParticleEffect_appends_witness :
  length (particles initial_game) = Z.to_nat MAX_PARTICLES /\
  (0 <= activeParticles initial_game <= MAX_PARTICLES)%Z /\
  exists g' w' news,
    CreateParticleEffect initial_game (mkVector2 640 400) WHITE 150 []
    = Some (g', w') /\
    live_particles g' = live_particles initial_game ++ news /\
    Forall (fresh_particle (mkVector2 640 400) WHITE) news /\
    Z.of_nat (length news) = 100%Z.
Proof.
  assert (Hact : (0 <= activeParticles initial_game <= MAX_PARTICLES)%Z)
    by (split; discriminate).
  split; [reflexivity|]. split; [exact Hact|].
  destruct (CreateParticleEffect_appends initial_game (mkVector2 640 400)
              WHITE 150 [] eq_refl Hact)
    as (g' & w' & news & E & H1 & H2 & H3 & _).
  exists g', w', news. split; [exact E|]. split; [exact H1|].
  split; [exact H2|exact H3].
Defined.

(** ** The speed slider *)

(** [roundf] moves a non-negative value by at most one half. *)
Lemma roundf_near (v : Q) : 0 <= v -> v - 0.5 <= roundf v <= v + 0.5.
Proof.
  intro Hv. unfold roundf. apply Qle_bool_iff in Hv. rewrite Hv.
  pose proof (Qfloor_le (v + 0.5)) as H1.
  pose proof (Qlt_floor (v + 0.5)) as H2.
  rewrite inject_Z_plus in H2. change (inject_Z 1) with 1 in H2.
  split; lra.
Qed.

(** X16. The slider snaps to tenths and the knob follows the pointer.  In
    a menu frame with the mouse button held, on the slider's hit area or
    while dragging, the stored multiplier is the pointer's position along
    the slider mapped to [0.5, 2.0] and rounded to a multiple of 0.1, also
    when a mode is chosen in the same frame; dragging is on afterwards.
    The knob [DrawModeSelect] draws for it is within 10 pixels of the
    pointer clamped to the slider, and the filled part of the slider ends
    at the knob; left of the slider the multiplier is 0.5, right of it
    2.0. *)
Theorem slider_snaps :
  forall (inp : Input) (game : Game) (dragging : bool) (w : Rng)
         (g' : Game) (d' : bool) (w' : Rng),
    UpdateModeSelect inp game dragging w = Some ((g', d'), w') ->
    IsMouseButtonDown inp = true ->
    dragging = true \/
    CheckCollisionPointRec (GetMousePosition inp)
      (mkRectangle 490 590 300 40) = true ->
    let mouseX := vec_x (GetMousePosition inp) in
    d' = true /\
    ballSpeedMultiplier g' = slider_value mouseX /\
    (exists k : Z,
        (5 <= k <= 20)%Z /\ ballSpeedMultiplier g' = inject_Z k / 10) /\
    fabsf (DrawModeSelect_knobPos g' - (490 + Clamp (mouseX - 490) 0 300))
    <= 10 /\
    rec_x (DrawModeSelect_filledSlider g') +
    rec_width (DrawModeSelect_filledSlider g') = DrawModeSelect_knobPos g' /\
    (mouseX <= 490 -> ballSpeedMultiplier g' == 0.5) /\
    (790 <= mouseX -> ballSpeedMultiplier g' == 2).
Proof.
  intros inp game dragging w g' d' w' E Hdown Hon. cbv zeta.
  assert (Hval : d' = true /\
                 ballSpeedMultiplier g' =
                 slider_value (vec_x (GetMousePosition inp))).
  { unfold UpdateModeSelect in E. cbv zeta in E. unfold bind in E.
    assert (Hinit : forall g m w0 g1 w1,
               InitGame inp g m w0 = Some (g1, w1) ->
               ballSpeedMultiplier g1 = ballSpeedMultiplier g).
    { intros g m w0 g1 w1 E0.
      destruct (InitGame_tp inp g m w0) as (g2 & w2 & E2 & r & ps & _ & Hg2).
      rewrite E0 in E2. injection E2 as Eg Ew. rewrite Eg, Hg2.
      reflexivity. }
    match type of E with
    | match ?m w with _ => _ end = _ =>
      destruct (m w) as [[g1 w1]|]; [|discriminate]
    end.
    cbn [rec_x rec_y rec_width rec_height] in E.
    rewrite Hdown in E.
    assert (Hc : dragging ||
                 CheckCollisionPointRec (GetMousePosition inp)
                   (mkRectangle (inject_Z (SCREEN_WIDTH ÷ 2 - 150))
                      (inject_Z (SCREEN_HEIGHT * 3 ÷ 4) - 10) 300 (20 + 20))
                 = true).
    { destruct Hon as [->|Hon]; [reflexivity|].
      apply orb_true_iff. right. exact Hon. }
    rewrite Hc in E.
    match type of E with
    | match ?m w1 with _ => _ end = _ =>
      destruct (m w1) as [[g3 w3]|] eqn:E3; [|discriminate]
    end.
    inversion E; subst. split; [reflexivity|].
    destruct (IsMouseButtonPressed inp);
      [|inversion E3; subst; reflexivity].
    revert E3.
    match goal with
    | |- (if ?c then _ else _) _ = _ -> _ =>
      destruct c; [intro E3; rewrite (Hinit _ _ _ _ _ E3); reflexivity|]
    end.
    match goal with
    | |- (if ?c then _ else _) _ = _ -> _ =>
      destruct c; [intro E3; rewrite (Hinit _ _ _ _ _ E3); reflexivity|]
    end.
    intro E3. inversion E3; subst. reflexivity. }
  destruct Hval as [Hd Hm]. split; [exact Hd|]. split; [exact Hm|].
  rewrite Hm. split; [apply slider_value_tenths|].
  unfold DrawModeSelect_knobPos, DrawModeSelect_filledSlider. cbv zeta.
  cbn [rec_x rec_width]. rewrite Hm.
  change (inject_Z (SCREEN_WIDTH ÷ 2 - 150)) with 490.
  unfold slider_value.
  set (c := Clamp (vec_x (GetMousePosition inp) - 490) 0 300).
  assert (Hc : 0 <= c <= 300) by (apply Clamp_bounds; discriminate).
  assert (Hv : 0 <= (0.5 + c / 300 * 1.5) * 10).
  { unfold Qdiv. change (/ 300) with (1 # 300). lra. }
  pose proof (roundf_near _ Hv) as Hr.
  set (r := roundf ((0.5 + c / 300 * 1.5) * 10)) in *.
  unfold Qdiv in *. change (/ 300) with (1 # 300) in *.
  change (/ 10) with (1 # 10). change (/ 1.5) with (10 # 15).
  split; [apply fabsf_le; lra|]. split; [reflexivity|].
  assert (Hk : exists k : Z, r = inject_Z k).
  { unfold r, roundf.
    match goal with
    | |- context [if ?b then _ else _] => destruct b
    end; eexists; reflexivity. }
  destruct Hk as [k Hk].
  split; intro Hx.
  - assert (Hc0 : c == 0).
    { unfold c, Clamp. cbv zeta.
      destruct (vec_x (GetMousePosition inp) - 490 <? 0) eqn:E1; qprop.
      - destruct (300 <? 0) eqn:E2; qprop; lra.
      - destruct (300 <? vec_x (GetMousePosition inp) - 490) eqn:E2; qprop;
          lra. }
    assert (Hk5 : k = 5%Z).
    { assert (H1 : inject_Z 4 < inject_Z k) by
        (rewrite <- Hk; change (inject_Z 4) with 4; lra).
      assert (H2 : inject_Z k < inject_Z 6) by
        (rewrite <- Hk; change (inject_Z 6) with 6; lra).
      rewrite <- Zlt_Qlt in H1, H2. lia. }
    rewrite Hk, Hk5. reflexivity.
  - assert (Hc0 : c == 300).
    { unfold c, Clamp. cbv zeta.
      destruct (vec_x (GetMousePosition inp) - 490 <? 0) eqn:E1; qprop.
      - destruct (300 <? 0) eqn:E2; qprop; lra.
      - destruct (300 <? vec_x (GetMousePosition inp) - 490) eqn:E2; qprop;
          lra. }
    assert (Hk20 : k = 20%Z).
    { assert (H1 : inject_Z 19 < inject_Z k) by
        (rewrite <- Hk; change (inject_Z 19) with 19; lra).
      assert (H2 : inject_Z k < inject_Z 21) by
        (rewrite <- Hk; change (inject_Z 21) with 21; lra).
      rewrite <- Zlt_Qlt in H1, H2. lia. }
    rewrite Hk, Hk20. reflexivity.
Qed.

Lemma slider_snaps_witness :
  exists g' d' w',
    UpdateModeSelect
      (mkInput no_keys no_keys false true (mkVector2 637 600) (1 # 60) 0)
      (set_state initial_game STATE_MODE_SELECT) false []
    = Some ((g', d'), w') /\
    d' = true /\
    ballSpeedMultiplier g' = slider_value 637 /\
    fabsf (DrawModeSelect_knobPos g' - (490 + Clamp (637 - 490) 0 300))
    <= 10.
Proof.
  assert (E : UpdateModeSelect
                (mkInput no_keys no_keys false true (mkVector2 637 600)
                   (1 # 60) 0)
                (set_state initial_game STATE_MODE_SELECT) false []
              = Some ((_, _), _)) by (vm_compute; reflexivity).
  match type of E with
  | _ = Some ((?a, ?b), ?c) => exists a, b, c
  end.
  split; [exact E|].
  destruct (slider_snaps _ _ _ _ _ _ _ E eq_refl (or_intror eq_refl))
    as (H1 & H2 & _ & H4 & _).
  split; [exact H1|]. split; [exact H2|exact H4].
Defined.

(** ** Screen shake and the splash screen's animation *)



(** The statics of the splash screen after [n] frames. *)
Lemma DrawSplashScreen_anim_inv (n : nat) :
  let s := Nat.iter n DrawSplashScreen_anim splash_anim0 in
  (47 <= ballPosX s <= 1233 /\
   (ballVelX s = 3 \/ ballVelX s = -3) /\
   (ballPosX s < 50 -> 0 < ballVelX s) /\
   (1230 < ballPosX s -> ballVelX s < 0)) /\
  (48 <= ballPosY s <= 752 /\
   (ballVelY s = 2 \/ ballVelY s = -2) /\
   (ballPosY s < 50 -> 0 < ballVelY s) /\
   (750 < ballPosY s -> ballVelY s < 0)) /\
  (-0.01 <= pulseSize s <= 0.21 /\
   (pulsing s = true -> pulseSize s <= 0.2) /\
   (pulsing s = false -> 0 <= pulseSize s)).
Proof.
  induction n as [|n IH]; cbv zeta.
  - cbn [Nat.iter splash_anim0 ballPosX ballPosY ballVelX ballVelY pulseSize
         pulsing].
    split; [|split].
    + split; [split; discriminate|]. split; [left; reflexivity|].
      split; intro H; [reflexivity|exfalso; revert H; discriminate].
    + split; [split; discriminate|]. split; [left; reflexivity|].
      split; intro H; [reflexivity|exfalso; revert H; discriminate].
    + split; [split; discriminate|].
      split; intro H; discriminate.
  - cbv zeta in IH.
    change (Nat.iter (S n) DrawSplashScreen_anim splash_anim0)
      with (DrawSplashScreen_anim
              (Nat.iter n DrawSplashScreen_anim splash_anim0)).
    set (s := Nat.iter n DrawSplashScreen_anim splash_anim0) in *.
    destruct IH as ((Hx & Hvx & Hxl & Hxr) & (Hy & Hvy & Hyl & Hyr)
                    & (Hp & Hpt & Hpf)).
    unfold DrawSplashScreen_anim. cbv zeta.
    change (inject_Z (SCREEN_WIDTH - 50)) with 1230.
    change (inject_Z (SCREEN_HEIGHT - 50)) with 750.
    split; [|split].
    + destruct (pulsing s); cbn [ballPosX ballVelX].
      all: destruct (ballPosX s + ballVelX s <? 50) eqn:E1;
        destruct (1230 <? ballPosX s + ballVelX s) eqn:E2; cbn [orb]; qprop.
      all: destruct Hvx as [Hvx|Hvx]; rewrite Hvx in *.
      all: try (split; [lra|split; [left; reflexivity|split; intro; lra]]).
      all: try (split; [lra|split; [right; reflexivity|split; intro; lra]]).
      all: try (exfalso; assert (Hc := Hxl); assert (Hd := Hxr); lra).
    + destruct (pulsing s); cbn [ballPosY ballVelY].
      all: destruct (ballPosY s + ballVelY s <? 50) eqn:E1;
        destruct (750 <? ballPosY s + ballVelY s) eqn:E2; cbn [orb]; qprop.
      all: destruct Hvy as [Hvy|Hvy]; rewrite Hvy in *.
      all: try (split; [lra|split; [left; reflexivity|split; intro; lra]]).
      all: try (split; [lra|split; [right; reflexivity|split; intro; lra]]).
      all: try (exfalso; assert (Hc := Hyl); assert (Hd := Hyr); lra).
    + destruct (pulsing s) eqn:Ep.
      * specialize (Hpt eq_refl).
        destruct (0.2 <? pulseSize s + 0.01) eqn:E1; qprop;
          cbn [pulseSize pulsing].
        -- split; [lra|]. split; intro H; [discriminate H|lra].
        -- split; [lra|]. split; intro H; [lra|discriminate H].
      * specialize (Hpf eq_refl).
        destruct (pulseSize s - 0.01 <? 0) eqn:E1; qprop;
          cbn [pulseSize pulsing].
        -- split; [lra|]. split; intro H; [lra|discriminate H].
        -- split; [lra|]. split; intro H; [discriminate H|lra].
Qed.

(** X18. The splash screen's animation stays in its frame.  After any
    number of calls of [DrawSplashScreen], the background ball is inside
    the window (x in [47, 1233], y in [48, 752]) and still moves 3 pixels
    sideways and 2 pixels vertically per frame; the pulse of the start
    text stays in [-0.01, 0.21], so its font size stays between 39.85 and
    43.15. *)
Theorem splash_animation_bounded :
  forall n : nat,
    let s := Nat.iter n DrawSplashScreen_anim splash_anim0 in
    47 <= ballPosX s <= 1233 /\ 48 <= ballPosY s <= 752 /\
    fabsf (ballVelX s) == 3 /\ fabsf (ballVelY s) == 2 /\
    -0.01 <= pulseSize s <= 0.21 /\
    39.85 <= DrawSplashScreen_startFontSize s <= 43.15.
Proof.
  intro n. cbv zeta.
  destruct (DrawSplashScreen_anim_inv n)
    as ((Hx & Hvx & _) & (Hy & Hvy & _) & (Hp & _)).
  cbv zeta in Hx, Hvx, Hy, Hvy, Hp.
  split; [exact Hx|]. split; [exact Hy|].
  split; [destruct Hvx as [-> | ->]; reflexivity|].
  split; [destruct Hvy as [-> | ->]; reflexivity|].
  split; [exact Hp|].
  unfold DrawSplashScreen_startFontSize. lra.
Qed.

(** ** Full screen *)

Lemma UpdateGame_fullscreen (fuel : nat) (inp : Input) (game : Game)
  (w : Rng) (g' : Game) (w' : Rng) :
  UpdateGame fuel inp game w = Some (g', w') ->
  fullscreen g' = fullscreen game.
Proof.
  intro E. destruct (state game) eqn:Hs.
  - unfold UpdateGame in E. rewrite Hs in E. inversion E; subst. reflexivity.
  - unfold UpdateGame in E. rewrite Hs in E. inversion E; subst. reflexivity.
  - destruct (IsKeyPressed inp KEY_P) eqn:Hp.
    + unfold UpdateGame in E. rewrite Hs, Hp in E. inversion E; subst.
      reflexivity.
    + apply (UpdateGame_playing_summary _ _ _ _ _ _ Hs Hp E).
  - unfold UpdateGame in E. rewrite Hs in E.
    destruct (IsKeyPressed inp KEY_P); inversion E; subst; reflexivity.
  - unfold UpdateGame in E. rewrite Hs in E.
    destruct (IsKeyPressed inp KEY_R).
    + destruct (InitGame_tp inp game (mode game) w)
        as (g2 & w2 & E2 & r & ps & _ & Hg2).
      rewrite E in E2. injection E2 as Eg Ew. rewrite Eg, Hg2. reflexivity.
    + destruct (IsKeyPressed inp KEY_M); inversion E; subst; reflexivity.
Qed.

(** X19. Full screen is switched by F and by nothing else.  In every frame
    of the main loop, whatever the phase and whatever else happens in the
    frame (a mode chosen, a restart, a point), the full-screen flag after
    the frame is the opposite of the flag before it when F was pressed,
    and the same flag otherwise. *)
Theorem main_loop_fullscreen :
  forall (fuel : nat) (inp : Input) (game : Game) (d : bool) (w : Rng)
         (g' : Game) (d' : bool) (w' : Rng),
    main_loop fuel inp (game, d) w = Some ((g', d'), w') ->
    fullscreen g' = if IsKeyPressed inp KEY_F then negb (fullscreen game)
                    else fullscreen game.
Proof.
  intros fuel inp game d w g' d' w' E.
  assert (H0 : fullscreen (if IsKeyPressed inp KEY_F
                           then ToggleGameFullscreen game else game)
               = if IsKeyPressed inp KEY_F then negb (fullscreen game)
                 else fullscreen game).
  { destruct (IsKeyPressed inp KEY_F); [|reflexivity].
    unfold ToggleGameFullscreen. destruct (fullscreen game); reflexivity. }
  rewrite <- H0. unfold main_loop in E.
  set (g0 := if IsKeyPressed inp KEY_F then ToggleGameFullscreen game
             else game) in *.
  assert (Hplay : (g1 <- UpdateGame fuel inp g0 ;;
                   g2 <- DrawGame inp g1 ;; ret (g2, d)) w
                  = Some (g', d', w') -> fullscreen g' = fullscreen g0).
  { unfold bind. intro E0.
    destruct (UpdateGame fuel inp g0 w) as [[g1 w1]|] eqn:E1;
      [|discriminate].
    destruct (DrawGame inp g1 w1) as [[g2 w2]|] eqn:E2; [|discriminate].
    inversion E0; subst.
    destruct (DrawGame_inv _ _ _ _ _ E2) as (sh & so & ps & k & ->).
    cbn [fullscreen set_activeParticles set_particles set_shakeOffset
         set_screenShake].
    exact (UpdateGame_fullscreen _ _ _ _ _ _ E1). }
  destruct (state g0); try exact (Hplay E).
  - inversion E; subst. unfold UpdateSplashScreen.
    destruct (IsMouseButtonPressed inp || IsKeyPressed inp KEY_SPACE);
      reflexivity.
  - refine (UpdateModeSelect_ind (fun g => fullscreen g = fullscreen g0)
              _ _ _ _ _ _ _ E _ _ eq_refl).
    + intros g m w0 g1 w1 Hg E0.
      destruct (InitGame_tp inp g m w0) as (g2 & w2 & E2 & r & ps & _ & Hg2).
      rewrite E0 in E2. injection E2 as Eg Ew. rewrite Eg, Hg2. exact Hg.
    + intros g Hg. exact Hg.
Qed.

Lemma main_loop_fullscreen_witness :
  exists g' d' w',
    main_loop 3 (key_input KEY_F) (playing_game, false) []
    = Some ((g', d'), w') /\
    fullscreen g' = true.
Proof.
  assert (E : main_loop 3 (key_input KEY_F) (playing_game, false) []
              = Some ((_, _), _)) by (vm_compute; reflexivity).
  match type of E with
  | _ = Some ((?a, ?b), ?c) => exists a, b, c
  end.
  split; [exact E|].
  exact (main_loop_fullscreen _ _ _ _ _ _ _ _ E).
Defined.

(** ** The menu's choice and the serve *)

(** X20. Which match the menu starts.  A click on a mode's button decides
    over the keys pressed in the same frame, and the keys of the first
    mode over those of the second: the mode after a menu frame is the
    clicked one, else the one whose key was pressed, else the mode before;
    and the game is in a match afterwards exactly when one of these
    happened, having been in the menu before. *)
Theorem menu_mode_choice :
  forall (inp : Input) (game : Game) (dragging : bool) (w : Rng)
         (g' : Game) (d' : bool) (w' : Rng),
    UpdateModeSelect inp game dragging w = Some ((g', d'), w') ->
    state game = STATE_MODE_SELECT ->
    let click1 :=
      IsMouseButtonPressed inp &&
      CheckCollisionPointRec (GetMousePosition inp)
        (mkRectangle 440 370 400 60) in
    let click2 :=
      IsMouseButtonPressed inp &&
      CheckCollisionPointRec (GetMousePosition inp)
        (mkRectangle 440 430 400 60) in
    let key1 := IsKeyPressed inp KEY_ONE || IsKeyPressed inp KEY_KP_1 in
    let key2 := IsKeyPressed inp KEY_TWO || IsKeyPressed inp KEY_KP_2 in
    mode g' = (if click1 then MODE_AI
               else if click2 then MODE_MULTIPLAYER
               else if key1 then MODE_AI
               else if key2 then MODE_MULTIPLAYER
               else mode game) /\
    state g' = (if click1 || click2 || key1 || key2 then STATE_PLAYING
                else STATE_MODE_SELECT).
Proof.
  intros inp game dragging w g' d' w' E Hs. cbv zeta.
  unfold UpdateModeSelect in E. cbv zeta in E. unfold bind in E.
  assert (Hinit : forall g m w0 g1 w1,
             InitGame inp g m w0 = Some (g1, w1) ->
             mode g1 = m /\ state g1 = STATE_PLAYING).
  { intros g m w0 g1 w1 E0.
    destruct (InitGame_tp inp g m w0) as (g2 & w2 & E2 & r & ps & _ & Hg2).
    rewrite E0 in E2. injection E2 as Eg Ew. rewrite Eg, Hg2.
    split; reflexivity. }
  match type of E with
  | match ?m w with _ => _ end = _ =>
    destruct (m w) as [[g1 w1]|] eqn:E1; [|discriminate]
  end.
  assert (H1 : mode g1 =
               (if IsKeyPressed inp KEY_ONE || IsKeyPressed inp KEY_KP_1
                then MODE_AI
                else if IsKeyPressed inp KEY_TWO || IsKeyPressed inp KEY_KP_2
                     then MODE_MULTIPLAYER else mode game) /\
               state g1 =
               (if (IsKeyPressed inp KEY_ONE || IsKeyPressed inp KEY_KP_1) ||
                   (IsKeyPressed inp KEY_TWO || IsKeyPressed inp KEY_KP_2)
                then STATE_PLAYING else STATE_MODE_SELECT)).
  { destruct (IsKeyPressed inp KEY_ONE || IsKeyPressed inp KEY_KP_1);
      [exact (Hinit _ _ _ _ _ E1)|].
    destruct (IsKeyPressed inp KEY_TWO || IsKeyPressed inp KEY_KP_2);
      [exact (Hinit _ _ _ _ _ E1)|].
    inversion E1; subst. split; [reflexivity|exact Hs]. }
  clear E1.
  set (key1 := IsKeyPressed inp KEY_ONE || IsKeyPressed inp KEY_KP_1) in *.
  set (key2 := IsKeyPressed inp KEY_TWO || IsKeyPressed inp KEY_KP_2) in *.
  change (inject_Z (SCREEN_WIDTH ÷ 2 - 200)) with 440 in E.
  change (inject_Z (SCREEN_HEIGHT ÷ 2 - 30)) with 370 in E.
  change (inject_Z (SCREEN_HEIGHT ÷ 2 + 30)) with 430 in E.
  set (in1 := CheckCollisionPointRec (GetMousePosition inp)
                (mkRectangle 440 370 400 60)) in *.
  set (in2 := CheckCollisionPointRec (GetMousePosition inp)
                (mkRectangle 440 430 400 60)) in *.
  assert (Hlast : forall g2 (d2 : bool),
             mode g2 = mode g1 -> state g2 = state g1 ->
             match
               (if IsMouseButtonPressed inp
                then if in1 then InitGame inp g2 MODE_AI
                     else if in2 then InitGame inp g2 MODE_MULTIPLAYER
                          else ret g2
                else ret g2) w1
             with
             | Some (a, w2) => ret (a, d2) w2
             | None => None
             end = Some (g', d', w') ->
             mode g' =
             (if IsMouseButtonPressed inp && in1 then MODE_AI
              else if IsMouseButtonPressed inp && in2 then MODE_MULTIPLAYER
                   else mode g1) /\
             state g' =
             (if (IsMouseButtonPressed inp && in1) ||
                 (IsMouseButtonPressed inp && in2)
              then STATE_PLAYING else state g1)).
  { intros g2 d2 Hm2 Hs2 E0.
    match type of E0 with
    | match ?m w1 with _ => _ end = _ =>
      destruct (m w1) as [[g3 w3]|] eqn:E3; [|discriminate]
    end.
    inversion E0; subst.
    destruct (IsMouseButtonPressed inp); cbn [andb orb];
      [|inversion E3; subst; split; assumption].
    destruct in1; [exact (Hinit _ _ _ _ _ E3)|].
    destruct in2; [exact (Hinit _ _ _ _ _ E3)|].
    inversion E3; subst. split; assumption. }
  cbn [rec_x rec_y rec_width rec_height] in E.
  assert (Hres : mode g' =
                 (if IsMouseButtonPressed inp && in1 then MODE_AI
                  else if IsMouseButtonPressed inp && in2
                       then MODE_MULTIPLAYER else mode g1) /\
                 state g' =
                 (if (IsMouseButtonPressed inp && in1) ||
                     (IsMouseButtonPressed inp && in2)
                  then STATE_PLAYING else state g1)).
  { destruct (IsMouseButtonDown inp).
    - match type of E with
      | context [if (dragging || ?c) then _ else _] =>
        destruct (dragging || c)
      end; refine (Hlast _ _ _ _ E); reflexivity.
    - refine (Hlast _ _ _ _ E); reflexivity. }
  destruct Hres as [Hm' Hs']. destruct H1 as [Hm1 Hs1].
  rewrite Hm', Hs', Hm1, Hs1.
  destruct (IsMouseButtonPressed inp && in1),
           (IsMouseButtonPressed inp && in2), key1, key2;
    split; reflexivity.
Qed.

Lemma menu_mode_choice_witness :
  exists g' d' w',
    UpdateModeSelect
      (mkInput (only_key KEY_ONE) no_keys true false (mkVector2 640 450)
         (1 # 60) 0)
      (set_state initial_game STATE_MODE_SELECT) false []
    = Some ((g', d'), w') /\
    mode g' = MODE_MULTIPLAYER /\ state g' = STATE_PLAYING.
Proof.
  assert (E : UpdateModeSelect
                (mkInput (only_key KEY_ONE) no_keys true false
                   (mkVector2 640 450) (1 # 60) 0)
                (set_state initial_game STATE_MODE_SELECT) false []
              = Some ((_, _), _)) by (vm_compute; reflexivity).
  match type of E with
  | _ = Some ((?a, ?b), ?c) => exists a, b, c
  end.
  split; [exact E|].
  exact (menu_mode_choice _ _ _ _ _ _ _ E eq_refl).
Defined.

(** X21. The serve.  [ResetBall] returns for every game and oracle; it
    puts the ball at the centre of the court, moving right at 8 times the
    multiplier when the flag [serverIsPlayer] is set and left otherwise;
    for a non-negative multiplier the vertical speed is at most the
    horizontal speed, so the serve leaves at 45 degrees at most.  The
    scores, the paddles, the phase, the mode and the multiplier are not
    touched, and the score animation is restarted at 1.5. *)
Theorem ResetBall_serve :
  forall (inp : Input) (game : Game) (serverIsPlayer : bool) (w : Rng),
    0 <= ballSpeedMultiplier game ->
    exists g' w',
      ResetBall inp game serverIsPlayer w = Some (g', w') /\
      ball_position (ball g') =
      mkVector2 (inject_Z (SCREEN_WIDTH ÷ 2)) (inject_Z (SCREEN_HEIGHT ÷ 2)) /\
      vec_x (ball_velocity (ball g')) =
      (if serverIsPlayer then BALL_INITIAL_SPEED * ballSpeedMultiplier game
       else - (BALL_INITIAL_SPEED * ballSpeedMultiplier game)) /\
      fabsf (vec_y (ball_velocity (ball g'))) <=
      fabsf (vec_x (ball_velocity (ball g'))) /\
      ball_radius (ball g') = ball_radius (ball game) /\
      state g' = state game /\ playerScore g' = playerScore game /\
      aiScore g' = aiScore game /\ playerPaddle g' = playerPaddle game /\
      aiPaddle g' = aiPaddle game /\ mode g' = mode game /\
      ballSpeedMultiplier g' = ballSpeedMultiplier game /\
      scoreAnimScale g' = 1.5 /\ lastScoreTime g' = GetTime inp.
Proof.
  intros inp game serverIsPlayer w Hm.
  destruct (ResetBall_tp inp game serverIsPlayer w)
    as (g' & w' & E & r & ps & k & Hr & Hg').
  exists g', w'. split; [exact E|]. rewrite Hg'.
  cbn [ball ball_position ball_velocity ball_radius vec_x vec_y state
       playerScore aiScore playerPaddle aiPaddle mode ballSpeedMultiplier
       scoreAnimScale lastScoreTime set_activeParticles set_particles
       set_scoreAnimScale set_lastScoreTime set_ball].
  split; [reflexivity|]. split; [reflexivity|].
  split; [|repeat split].
  pose proof (serve_vertical_bound r (ballSpeedMultiplier game) Hr Hm) as Hv.
  unfold BALL_INITIAL_SPEED in *.
  assert (Habs : fabsf (if serverIsPlayer then 8 * ballSpeedMultiplier game
                        else - (8 * ballSpeedMultiplier game))
                 == 8 * ballSpeedMultiplier game).
  { destruct serverIsPlayer; unfold fabsf.
    - rewrite Qabs_pos by lra. reflexivity.
    - rewrite Qabs_opp, Qabs_pos by lra. reflexivity. }
  rewrite Habs. exact Hv.
Qed.

Lemma ResetBall_serve_witness :
  0 <= ballSpeedMultiplier playing_game /\
  exists g' w',
    ResetBall idle_input playing_game false [170%Z] = Some (g', w') /\
    vec_x (ball_velocity (ball g')) = - (8 * 1) /\
    fabsf (vec_y (ball_velocity (ball g'))) <=
    fabsf (vec_x (ball_velocity (ball g'))).
Proof.
  assert (Hm : 0 <= ballSpeedMultiplier playing_game) by discriminate.
  split; [exact Hm|].
  destruct (ResetBall_serve idle_input playing_game false [170%Z] Hm)
    as (g' & w' & E & _ & H1 & H2 & _).
  exists g', w'. split; [exact E|]. split; [exact H1|exact H2].
Defined.

(** ** The speed text of the menu *)

Lemma DrawModeSelect_speedAnim_step (game : Game) (prevSpeed scale : Q) :
  1 <= scale <= 1.27 ->
  let st := DrawModeSelect_speedAnim game (prevSpeed, scale) in
  1 <= snd st <= 1.27 /\
  (0.05 < fabsf (prevSpeed - ballSpeedMultiplier game) ->
   fst st = ballSpeedMultiplier game /\ snd st == 1.27) /\
  (fabsf (prevSpeed - ballSpeedMultiplier game) <= 0.05 ->
   fst st = prevSpeed /\ snd st - 1 == 0.9 * (scale - 1)).
Proof.
  intros Hs. cbv zeta. unfold DrawModeSelect_speedAnim, Lerp.
  destruct (0.05 <? fabsf (prevSpeed - ballSpeedMultiplier game)) eqn:E;
    qprop; cbn [fst snd].
  - split; [split; [discriminate|discriminate]|].
    split; [intros _; split; reflexivity|]. intro H. lra.
  - split; [lra|]. split; [intro H; lra|].
    intros _. split; [reflexivity|lra].
Qed.

(** X22. The animation of the menu's speed text is bounded.  Starting from
    the statics' initial values and drawing the menu for any sequence of
    games, the scale of the speed text stays between 1 and 1.27 (a font
    size between 25 and 31.75); in a frame that sees the multiplier changed
    by more than 0.05 since it was last recorded, the new value is recorded
    and the scale is 1.27, and in any other frame the scale's excess over 1
    shrinks by one tenth. *)
Theorem speed_text_animation :
  forall (games : list Game),
    let run := fold_left (fun st g => DrawModeSelect_speedAnim g st) in
    1 <= snd (run games (1, 1)) <= 1.27 /\
    forall (game : Game),
      let st := run games (1, 1) in
      let st' := run (games ++ [game]) (1, 1) in
      (0.05 < fabsf (fst st - ballSpeedMultiplier game) ->
       fst st' = ballSpeedMultiplier game /\ snd st' == 1.27) /\
      (fabsf (fst st - ballSpeedMultiplier game) <= 0.05 ->
       fst st' = fst st /\ snd st' - 1 == 0.9 * (snd st - 1)).
Proof.
  intro games. cbv zeta.
  assert (Hinv : forall l st,
             1 <= snd st <= 1.27 ->
             1 <= snd (fold_left
                         (fun st g => DrawModeSelect_speedAnim g st) l st)
             <= 1.27).
  { induction l as [|g l IH]; intros [p s] Hs; [exact Hs|].
    cbn [fold_left]. apply IH.
    apply (DrawModeSelect_speedAnim_step g p s Hs). }
  assert (H0 : 1 <= snd (1, 1) <= 1.27) by (split; discriminate).
  split; [exact (Hinv games (1, 1) H0)|].
  intro game. rewrite fold_left_app. cbn [fold_left].
  specialize (Hinv games (1, 1) H0).
  destruct (fold_left (fun st g => DrawModeSelect_speedAnim g st) games
              (1, 1)) as [p s].
  cbn [fst snd] in *.
  apply (DrawModeSelect_speedAnim_step game p s Hinv).
Qed.
